(* Verification development for the segmentation and consolidation
   pipeline of local_llm_xian_ni: chunker.py (_chunk_text, main),
   extract.py (_existing_chunk_ids, main), merge.py (_norm_name,
   _merge_alias_map, _canon, the relation loop of main) and
   llm_client.py (OpenAILLM._safe_json).

   Python strings are modelled as lists of Unicode code points (Z). *)

From stdpp Require Import base gmap list.
From Stdlib Require Import ZArith Lia Sorting.Sorted.
From Stdlib Require Strings.String Strings.Ascii.

Open Scope Z_scope.
Set Warnings "-register-all".

(* ===================================================================== *)
(* Python strings                                                          *)
(* ===================================================================== *)

Module PyStr.

Definition str := list Z.

(* str.isspace() on one code point: the characters Python's str.strip()
   removes when called without arguments. *)
Definition py_isspace (c : Z) : bool :=
  ((9 <=? c) && (c <=? 13)) || ((28 <=? c) && (c <=? 32)) ||
  (c =? 133) || (c =? 160) || (c =? 5760) ||
  ((8192 <=? c) && (c <=? 8202)) ||
  (c =? 8232) || (c =? 8233) || (c =? 8239) || (c =? 8287) || (c =? 12288).

Fixpoint lstrip (s : str) : str :=
  match s with
  | [] => []
  | c :: r => if py_isspace c then lstrip r else s
  end.

Definition rstrip (s : str) : str := rev (lstrip (rev s)).

(* s.strip() *)
Definition strip (s : str) : str := rstrip (lstrip s).

(* s.replace(old, new) for one-character old and new *)
Definition replace1 (old new : Z) (s : str) : str :=
  map (fun c => if c =? old then new else c) s.

(* len(s), as a Python int *)
Definition len (s : str) : Z := Z.of_nat (length s).

(* Normalise one slice bound the way CPython does for s[i:j]. *)
Definition slice_bound (n i : Z) : Z :=
  if i <? 0 then Z.max 0 (i + n) else Z.min i n.

(* s[i:j] *)
Definition py_slice (s : str) (i j : Z) : str :=
  let n := len s in
  let a := slice_bound n i in
  let b := slice_bound n j in
  if a <? b then firstn (Z.to_nat (b - a)) (skipn (Z.to_nat a) s) else [].

(* s[:k] for k >= 0 *)
Definition prefix (s : str) (k : nat) : str := firstn k s.

End PyStr.

Import PyStr.

(* ===================================================================== *)
(* merge.py: _norm_name, _merge_alias_map, _canon                          *)
(* ===================================================================== *)

Module Alias.

(* _norm_name: s = (s or "").strip(); s = s.replace("　", " ").strip() *)
Definition _norm_name (s : str) : str := strip (replace1 12288 32 (strip s)).

(* An entity dict as _merge_alias_map reads it: [e_name] is
   str(e.get("name", "")); [e_aliases] is Some of the str() images of the
   elements of e.get("aliases") or [] when that value is a list, and None
   when it is some other (truthy) value, which the loop skips. *)
Record entity := mkEntity { e_name : str; e_aliases : option (list str) }.

Definition amap := gmap str str.

(* for a in aliases: a = _norm_name(str(a)); if a and a not in amap: amap[a] = name *)
Fixpoint add_aliases (name : str) (als : list str) (m : gmap str str) : gmap str str :=
  match als with
  | [] => m
  | a0 :: rest =>
      let a := _norm_name a0 in
      let m' := match a, m !! a with
                | _ :: _, None => <[a := name]> m
                | _, _ => m
                end in
      add_aliases name rest m'
  end.

(* One iteration of the loop over entities. *)
Definition merge_step (m : gmap str str) (e : entity) : gmap str str :=
  let name := _norm_name (e_name e) in
  match name with
  | [] => m
  | _ :: _ =>
      let m1 := match m !! name with None => <[name := name]> m | Some _ => m end in
      match e_aliases e with
      | Some als => add_aliases name als m1
      | None => m1
      end
  end.

Definition _merge_alias_map (ents : list entity) : gmap str str :=
  fold_left merge_step ents ∅.

(* _canon(amap, name): name = _norm_name(name); return amap.get(name, name) *)
Definition _canon (m : gmap str str) (name : str) : str :=
  let n := _norm_name name in
  match m !! n with Some v => v | None => n end.

(* The keys a mention [e] asks the loop to bind, each to its primary name:
   nothing when the normalised name is empty (the loop skips the mention);
   else the normalised name, and every non-empty normalised alias when
   e.get("aliases") is a list. A key is bound only when it is not bound yet,
   so the first mention asking for a key wins. *)
Definition contributes (e : entity) (k : str) : Prop :=
  _norm_name (e_name e) <> [] /\
  (k = _norm_name (e_name e) \/
   (k <> [] /\ k ∈ match e_aliases e with Some als => map _norm_name als | None => [] end)).

#[global] Instance contributes_dec (e : entity) (k : str) : Decision (contributes e k).
Proof. unfold contributes. apply _. Defined.

(* A condition on the input under which the map is single-hop: a name that
   is the primary name of one mention is listed as an alias only by
   mentions with that same primary name. *)
Definition names_not_aliased (ents : list entity) : Prop :=
  forall e1 e2 als, e1 ∈ ents -> e2 ∈ ents -> e_aliases e2 = Some als ->
    _norm_name (e_name e1) ∈ map _norm_name als ->
    _norm_name (e_name e1) = _norm_name (e_name e2).

(* The shape of the partial maps built by the loop over the mentions
   [seen]: every value is a key, and every binding k -> v comes from a
   mention whose primary name is v and which has k as its primary name or
   as one of its aliases. *)
Definition alias_map_inv (seen : list entity) (m : gmap str str) : Prop :=
  (forall k v, m !! k = Some v -> is_Some (m !! v)) /\
  (forall k v, m !! k = Some v -> exists e, e ∈ seen /\ _norm_name (e_name e) = v /\
     (k = v \/ exists als, e_aliases e = Some als /\ k ∈ map _norm_name als)).

End Alias.

(* ===================================================================== *)
(* chunker.py: _chunk_text and the chunk loop of main                      *)
(* ===================================================================== *)

Module Chunker.

(* {"start_char": i, "end_char": j, "text": body[i:j]} *)
Record window := mkWindow { start_char : Z; end_char : Z; wtext : str }.

(* while i < len(body):
       j = min(len(body), i + max_chars)
       chunks.append({...}); i += step
   [fuel] bounds the number of iterations; [_chunk_text] passes len(body),
   enough because step >= 1 (lemma chunk_loop_lookup below). *)
Fixpoint chunk_loop (fuel : nat) (body : str) (max_chars step i : Z) : list window :=
  match fuel with
  | O => []
  | S f =>
      if i <? len body then
        let j := Z.min (len body) (i + max_chars) in
        mkWindow i j (py_slice body i j) :: chunk_loop f body max_chars step (i + step)
      else []
  end.

(* The window the loop emits at start i. *)
Definition window_at (body : str) (max_chars i : Z) : window :=
  let j := Z.min (len body) (i + max_chars) in mkWindow i j (py_slice body i j).

Definition _chunk_text (body0 : str) (max_chars overlap : Z) : list window :=
  let body := strip body0 in
  match body with
  | [] => []
  | _ :: _ =>
      let step := Z.max 1 (max_chars - overlap) in
      chunk_loop (length body) body max_chars step 0
  end.

(* Claim C2 as the spec words it: every pair of consecutive windows, except
   a pair ending with the last window, overlaps by exactly O characters. *)
Definition overlap_exact_except_last (ws : list window) (O : Z) : Prop :=
  forall k w1 w2, (S (S k) < length ws)%nat -> ws !! k = Some w1 -> ws !! S k = Some w2 ->
    end_char w1 - start_char w2 = O.

(* str(n) for n >= 0: decimal digits as code points ('0' = 48). *)
Fixpoint dec_digits (fuel : nat) (n : Z) : str :=
  match fuel with
  | O => []
  | S f => if n <? 10 then [48 + n] else dec_digits f (n / 10) ++ [48 + n mod 10]
  end.

Definition py_str_int (n : Z) : str := dec_digits (S (Z.to_nat n)) n.

(* f"{n:06d}" for n >= 0: str(n) left-padded with '0' to width 6. *)
Definition fmt06 (n : Z) : str :=
  let d := py_str_int n in
  repeat 48 (6 - length d) ++ d.

(* int(s) for a string of decimal digits (leading zeros allowed). *)
Definition digits_value (s : str) : Z := fold_left (fun acc d => acc * 10 + (d - 48)) s 0.

(* One line of chunks.jsonl. *)
Record chunk_rec := mkChunk {
  chunk_id : str;
  volume : option Z;
  volume_title : option str;
  chapter_index : Z;
  chapter_title : str;
  part_index : Z;
  c_start_char : Z;
  c_end_char : Z;
  c_text : str }.

(* (chapter_index, part_index) and its lexicographic order. *)
Definition chunk_key (r : chunk_rec) : Z * Z := (chapter_index r, part_index r).

Definition lex_lt (a b : Z * Z) : Prop := a.1 < b.1 \/ (a.1 = b.1 /\ a.2 < b.2).

(* The chunk_ids of out_lines are f"{0:06d}", f"{1:06d}", ... in order. *)
Definition ids_contiguous (out : list chunk_rec) : Prop :=
  map chunk_id out = map (fun i => fmt06 (Z.of_nat i)) (seq 0 (length out)).

Section Run.
(* The values main holds when it reaches the chunk loop: the text after
   the optional volume selection, args.volume, the selected volume title,
   and the CLI parameters. *)
Variable text : str.
Variable vol : Z.
Variable vtitle : str.
Variables max_chars overlap max_chunks : Z.

(* args.max_chunks and len(out_lines) >= args.max_chunks *)
Definition cap_reached (out : list chunk_rec) : bool :=
  negb (max_chunks =? 0) && (max_chunks <=? Z.of_nat (length out)).

(* for k, c in enumerate(chunks, start=1): append; chunk_id += 1; maybe break *)
Fixpoint emit_parts (ci : Z) (title : str) (k : Z) (cs : list window)
    (out : list chunk_rec) (cid : Z) : list chunk_rec * Z :=
  match cs with
  | [] => (out, cid)
  | c :: rest =>
      let r := mkChunk (fmt06 cid)
                 (if vol =? 0 then None else Some vol)
                 (match vtitle with [] => None | _ => Some vtitle end)
                 ci title k (start_char c) (end_char c) (wtext c) in
      let out' := out ++ [r] in
      if cap_reached out' then (out', cid + 1)
      else emit_parts ci title (k + 1) rest out' (cid + 1)
  end.

(* for ci, (ch_title, s, e) in enumerate(chapter_spans, start=1): ... *)
Fixpoint emit_chapters (ci : Z) (spans : list (str * Z * Z))
    (out : list chunk_rec) (cid : Z) : list chunk_rec :=
  match spans with
  | [] => out
  | (ch_title, s, e) :: rest =>
      let body := strip (py_slice text s e) in
      let chunks := _chunk_text body max_chars overlap in
      let '(out1, cid1) := emit_parts ci ch_title 1 chunks out cid in
      if cap_reached out1 then out1 else emit_chapters (ci + 1) rest out1 cid1
  end.

(* chapter_spans[: args.max_chapters] when args.max_chapters > 0 *)
Definition apply_max_chapters (max_chapters : Z) (spans : list (str * Z * Z)) :=
  if 0 <? max_chapters then firstn (Z.to_nat max_chapters) spans else spans.

(* out_lines of main, from chapter_spans = _find_chapter_spans(text). *)
Definition chunker_out (max_chapters : Z) (chapter_spans : list (str * Z * Z)) : list chunk_rec :=
  emit_chapters 1 (apply_max_chapters max_chapters chapter_spans) [] 0.

End Run.

End Chunker.

(* ===================================================================== *)
(* JSON values and string literals                                         *)
(* ===================================================================== *)

Module Json.

(* A value json.loads can return (numbers are kept as integers: the claims
   on JSON values never compute with them). *)
Inductive json :=
  | JNull
  | JBool (b : bool)
  | JNum (z : Z)
  | JStr (s : str)
  | JArr (l : list json)
  | JObj (kvs : list (str * json)).

(* bool(v) *)
Definition py_truthy (v : json) : bool :=
  match v with
  | JNull => false
  | JBool b => b
  | JNum z => negb (z =? 0)
  | JStr s => match s with [] => false | _ => true end
  | JArr l => match l with [] => false | _ => true end
  | JObj kvs => match kvs with [] => false | _ => true end
  end.

(* d.get(k) on a dict built from the pairs kvs (a later pair for the same
   key overrides an earlier one, as in json.loads). *)
Definition obj_get (kvs : list (str * json)) (k : str) : option json :=
  fold_left (fun acc '(k', v) => if decide (k' = k) then Some v else acc) kvs None.

End Json.

Import Json.

Module Lit.
Import Strings.String.
Local Open Scope string_scope.
Definition lit (s : String.string) : str :=
  map (fun a => Z.of_nat (Ascii.nat_of_ascii a)) (String.list_ascii_of_string s).
Definition k_chunk_id := Eval cbv in lit "chunk_id".
Definition k_chapter_index := Eval cbv in lit "chapter_index".
Definition k_chapter_title := Eval cbv in lit "chapter_title".
Definition k_part_index := Eval cbv in lit "part_index".
Definition k_start_char := Eval cbv in lit "start_char".
Definition k_end_char := Eval cbv in lit "end_char".
Definition k_extraction := Eval cbv in lit "extraction".
Definition k_error := Eval cbv in lit "_error".
Definition k_raw := Eval cbv in lit "_raw".
Definition k_text := Eval cbv in lit "_text".
Definition v_empty_response := Eval cbv in lit "empty_response".
Definition v_invalid_json := Eval cbv in lit "invalid_json".
Definition v_no_json_object := Eval cbv in lit "no_json_object".
Definition k_name := Eval cbv in lit "name".
Definition k_aliases := Eval cbv in lit "aliases".
Definition k_type := Eval cbv in lit "type".
Definition k_notes := Eval cbv in lit "notes".
Definition k__chunk_id := Eval cbv in lit "_chunk_id".
Definition k_entities := Eval cbv in lit "entities".
Definition k_relations := Eval cbv in lit "relations".
Definition v_person := Eval cbv in lit "person".
Definition k_from := Eval cbv in lit "from".
Definition k_to := Eval cbv in lit "to".
Definition k_status := Eval cbv in lit "status".
Definition k_evidence := Eval cbv in lit "evidence".
Definition k_quote := Eval cbv in lit "quote".
Definition k_key := Eval cbv in lit "key".
Definition k_span := Eval cbv in lit "span".
End Lit.

(* ===================================================================== *)
(* merge.py: relation deduplication and the evidence log                   *)
(* ===================================================================== *)

Module Relations.
Import Alias.

Section Dedup.
(* Python floats and their > operator (IEEE: false whenever NaN is
   involved), and the float 0.5. *)
Context {flt : Type} (py_gt : flt -> flt -> bool) (half : flt).

(* max(a, b): CPython keeps a unless b > a. *)
Definition py_max (a b : flt) : flt := if py_gt b a then b else a.

(* A relation dict of an extraction, as the loop reads it:
   r_from / r_to = str(rel.get("from", "")) / str(rel.get("to", "")),
   r_type = str(rel.get("type", "其他")), r_status = str(rel.get("status", "不确定")),
   r_conf = Some (float(rel.get("confidence", 0.5))), or None when float raises,
   r_notes = str(rel.get("notes", "")),
   and, with ev = rel.get("evidence") or {}:
   r_quote = str(ev.get("quote", "")), r_st / r_ed = ev.get("start_char") /
   ev.get("end_char") (JNull when absent). *)
Record rel_mention := mkRel {
  r_from : str; r_to : str; r_type : str; r_status : str;
  r_conf : option flt; r_notes : str;
  r_quote : str; r_st : json; r_ed : json }.

(* meta.get("chunk_id"), meta.get("chapter_title") of the extraction row *)
Record row_meta := mkMeta { m_chunk_id : json; m_chapter_title : json }.

Definition rel_key := (str * str * str * str)%type.

(* ev_obj *)
Record ev_obj := mkEv {
  ev_chunk_id : json; ev_chapter_title : json; ev_quote : str; ev_span : json * json }.

(* a value of rel_key_map *)
Record relation_rec := mkRelation {
  rel_from : str; rel_to : str; rel_type : str; rel_status : str;
  confidence : flt; notes : str; first_seen_chunk : json; evidence : list ev_obj }.

(* one line of evidence.jsonl: {"key": list(key), **ev_obj} *)
Definition log_entry := (rel_key * ev_obj)%type.

Definition set_confidence (c : flt) (it : relation_rec) : relation_rec :=
  mkRelation (rel_from it) (rel_to it) (rel_type it) (rel_status it) c
             (notes it) (first_seen_chunk it) (evidence it).

Definition set_evidence (evs : list ev_obj) (it : relation_rec) : relation_rec :=
  mkRelation (rel_from it) (rel_to it) (rel_type it) (rel_status it) (confidence it)
             (notes it) (first_seen_chunk it) evs.

(* conf = rel.get("confidence", 0.5); try: conf = float(conf) except: conf = 0.5 *)
Definition parse_conf (r : rel_mention) : flt :=
  match r_conf r with Some c => c | None => half end.

(* key = (a, b, t, status) *)
Definition mention_key (amap : gmap str str) (r : rel_mention) : rel_key :=
  (_canon amap (r_from r), _canon amap (r_to r), _norm_name (r_type r), _norm_name (r_status r)).

(* if quote: ev_obj = {...} *)
Definition mention_ev (meta : row_meta) (r : rel_mention) : option ev_obj :=
  match _norm_name (r_quote r) with
  | [] => None
  | quote => Some (mkEv (m_chunk_id meta) (m_chapter_title meta) (prefix quote 120) (r_st r, r_ed r))
  end.

Definition dedup_state := (gmap rel_key relation_rec * list log_entry)%type.

(* item["evidence"].append(ev_obj) when the mention has a quote *)
Definition attach_ev (oev : option ev_obj) (it : relation_rec) : relation_rec :=
  match oev with
  | Some ev => set_evidence (evidence it ++ [ev]) it
  | None => it
  end.

(* ev_f.write(json.dumps({"key": list(key), **ev_obj}) + "\n") when the mention has a quote *)
Definition log_ev (key : rel_key) (oev : option ev_obj) : list log_entry :=
  match oev with
  | Some ev => [(key, ev)]
  | None => []
  end.

(* One iteration of `for meta, rel in rel_rows`. The dict [item] is shared
   with rel_key_map, so its in-place updates are an insert of the updated
   value under [key]. *)
Definition rel_step (amap : gmap str str) (st : dedup_state) (mr : row_meta * rel_mention)
    : dedup_state :=
  let '(m, log) := st in
  let '(meta, r) := mr in
  let key := mention_key amap r in
  let conf := parse_conf r in
  let item :=
    match m !! key with
    | None =>
        let '(a, b, t, status) := key in
        mkRelation a b t status conf (_norm_name (r_notes r)) (m_chunk_id meta) []
    | Some it => set_confidence (py_max (confidence it) conf) it
    end in
  let ev := mention_ev meta r in
  (<[key := attach_ev ev item]> m, log ++ log_ev key ev).

(* rel_key_map and the lines written to evidence.jsonl *)
Definition dedup (amap : gmap str str) (rows : list (row_meta * rel_mention)) : dedup_state :=
  fold_left (rel_step amap) rows (∅, []).

(* item["evidence"] = item["evidence"][:12] for every relation_rec *)
Definition cap_evidence (m : gmap rel_key relation_rec) : gmap rel_key relation_rec :=
  (fun it => set_evidence (firstn 12 (evidence it)) it) <$> m.

(* The relations reported by merge.py (relations.yml lists these values,
   sorted by from/to/type). *)
Definition relations_out (amap : gmap str str) (rows : list (row_meta * rel_mention))
    : gmap rel_key relation_rec :=
  cap_evidence (dedup amap rows).1.

(* The evidence items the mentions of [rows] contribute to key [k], in
   input order, and all lines of evidence.jsonl (used by the proofs). *)
Definition evidence_for (amap : gmap str str) (k : rel_key) (rows : list (row_meta * rel_mention))
    : list ev_obj :=
  flat_map (fun '(meta, r) =>
    if decide (mention_key amap r = k) then option_list (mention_ev meta r) else []) rows.

Definition evidence_lines (amap : gmap str str) (rows : list (row_meta * rel_mention))
    : list log_entry :=
  flat_map (fun '(meta, r) => log_ev (mention_key amap r) (mention_ev meta r)) rows.

End Dedup.

End Relations.

(* Concrete inputs for the relation loop: confidences are Python floats
   taken as integers with their > order. *)
Module Samples.
Import Relations.

Definition meta0 : row_meta := mkMeta (JStr (Chunker.fmt06 0)) (JStr [67; 49]).
Definition meta1 : row_meta := mkMeta (JStr (Chunker.fmt06 1)) (JStr [67; 49]).

(* {"from": "A", "to": "B", "type": "t", "status": "s", "confidence": 7,
    "evidence": {"quote": "q", "start_char": 0, "end_char": 1}} *)
Definition rel0 : @rel_mention Z := mkRel [65] [66] [116] [115] (Some 7) [] [113] (JNum 0) (JNum 1).
(* the same relation with "confidence": 9, "notes": "n" and no quote *)
Definition rel1 : @rel_mention Z := mkRel [65] [66] [116] [115] (Some 9) [110] [] JNull JNull.
(* the same relation with a 121-character quote *)
Definition rel2 : @rel_mention Z := mkRel [65] [66] [116] [115] (Some 7) [] (repeat 113 121) JNull JNull.

Definition key0 : rel_key := ([65], [66], [116], [115]).

Definition rows0 : list (row_meta * @rel_mention Z) := [(meta0, rel0)].

Definition item0 : @relation_rec Z :=
  mkRelation [65] [66] [116] [115] 7 [] (JStr (Chunker.fmt06 0))
    [mkEv (JStr (Chunker.fmt06 0)) (JStr [67; 49]) [113] (JNum 0, JNum 1)].

(* Entity mentions {"name": "A", "aliases": ["B"]}, {"name": "B", "aliases": ["C"]} *)
Definition chain_ents : list Alias.entity :=
  [Alias.mkEntity [65] (Some [[66]]); Alias.mkEntity [66] (Some [[67]])].

End Samples.


(* ===================================================================== *)
(* Text files: UTF-8, universal newlines and line iteration                *)
(* ===================================================================== *)

Module TextIO.

(* a UTF-8 continuation byte, 0x80 .. 0xBF *)
Definition is_cont (b : Z) : bool := (128 <=? b) && (b <=? 191).

(* bytes.decode("utf-8") with errors="strict", the decoding of a file
   opened with encoding="utf-8": None when it raises UnicodeDecodeError
   (a byte that starts no sequence, a missing continuation byte, an
   overlong form, an encoded surrogate, a code point above 0x10FFFF, or a
   sequence cut short by the end of the data). *)
Fixpoint utf8_decode (bs : list Z) : option str :=
  match bs with
  | [] => Some []
  | b0 :: r1 =>
      if (0 <=? b0) && (b0 <=? 127) then cons b0 <$> utf8_decode r1
      else if (194 <=? b0) && (b0 <=? 223) then
        match r1 with
        | b1 :: r2 =>
            if is_cont b1 then cons ((b0 - 192) * 64 + (b1 - 128)) <$> utf8_decode r2
            else None
        | [] => None
        end
      else if (224 <=? b0) && (b0 <=? 239) then
        match r1 with
        | b1 :: b2 :: r3 =>
            if ((if b0 =? 224 then 160 else 128) <=? b1) &&
               (b1 <=? (if b0 =? 237 then 159 else 191)) && is_cont b2
            then cons ((b0 - 224) * 4096 + (b1 - 128) * 64 + (b2 - 128)) <$> utf8_decode r3
            else None
        | _ => None
        end
      else if (240 <=? b0) && (b0 <=? 244) then
        match r1 with
        | b1 :: b2 :: b3 :: r4 =>
            if ((if b0 =? 240 then 144 else 128) <=? b1) &&
               (b1 <=? (if b0 =? 244 then 143 else 191)) && is_cont b2 && is_cont b3
            then cons ((b0 - 240) * 262144 + (b1 - 128) * 4096 + (b2 - 128) * 64 + (b3 - 128))
                   <$> utf8_decode r4
            else None
        | _ => None
        end
      else None
  end.

(* One code point encoded with "utf-8" and errors="strict": None for a
   surrogate (UnicodeEncodeError) or a value that is no code point. *)
Definition utf8_encode_char (c : Z) : option (list Z) :=
  if (0 <=? c) && (c <=? 127) then Some [c]
  else if (128 <=? c) && (c <=? 2047) then Some [192 + c / 64; 128 + c mod 64]
  else if (2048 <=? c) && (c <=? 65535) then
    if (55296 <=? c) && (c <=? 57343) then None
    else Some [224 + c / 4096; 128 + (c / 64) mod 64; 128 + c mod 64]
  else if (65536 <=? c) && (c <=? 1114111) then
    Some [240 + c / 262144; 128 + (c / 4096) mod 64; 128 + (c / 64) mod 64; 128 + c mod 64]
  else None.

(* s.encode("utf-8"), as f.write(s) does for a file opened with
   encoding="utf-8": None when it raises. *)
Fixpoint utf8_encode (s : str) : option (list Z) :=
  match s with
  | [] => Some []
  | c :: r =>
      match utf8_encode_char c, utf8_encode r with
      | Some b, Some bs => Some (b ++ bs)
      | _, _ => None
      end
  end.

(* Universal newlines (open(p, "r"), newline=None): "\r\n" and a lone
   "\r" are read as "\n". *)
Fixpoint translate_newlines (t : str) : str :=
  match t with
  | [] => []
  | c :: r =>
      if c =? 13 then
        match r with
        | d :: r' => if d =? 10 then 10 :: translate_newlines r' else 10 :: translate_newlines r
        | [] => [10]
        end
      else c :: translate_newlines r
  end.

(* The lines `for line in f` yields from the translated text: each ends
   with its "\n", except a last one the text does not end with. [cur] is
   the reversed part of the current line read so far. *)
Fixpoint split_lines_aux (cur : str) (t : str) : list str :=
  match t with
  | [] => match cur with [] => [] | _ => [rev cur] end
  | c :: r => if c =? 10 then rev (c :: cur) :: split_lines_aux [] r else split_lines_aux (c :: cur) r
  end.

Definition split_lines (t : str) : list str := split_lines_aux [] t.

(* for line in f, for f = p.open("r", encoding="utf-8") on a file holding
   the bytes bs: None when decoding raises. *)
Definition read_text_lines (bs : list Z) : option (list str) :=
  (fun t => split_lines (translate_newlines t)) <$> utf8_decode bs.

(* A text that is empty or ends with a line break ("\n" or "\r"). *)
Definition ends_with_newline (t : str) : bool :=
  match last t with None => true | Some c => (c =? 10) || (c =? 13) end.

(* A file that is absent, or whose bytes decode to a text that is empty or
   ends with a line break: no last line was left unterminated. *)
Definition log_terminated (f : option (list Z)) : bool :=
  match f with
  | None => true
  | Some bs => match utf8_decode bs with Some t => ends_with_newline t | None => false end
  end.

End TextIO.

(* ===================================================================== *)
(* json.dumps and json.loads on concrete documents                         *)
(* ===================================================================== *)

Module JsonText.

(* sep.join(l) *)
Fixpoint join_with (sep : str) (l : list str) : str :=
  match l with
  | [] => []
  | [x] => x
  | x :: rest => x ++ sep ++ join_with sep rest
  end.

(* '{0:04x}'.format(n) for 0 <= n < 65536 *)
Definition hex_digit (d : Z) : Z := if d <? 10 then 48 + d else 87 + d.
Definition hex4 (n : Z) : str :=
  [hex_digit (n / 4096 mod 16); hex_digit (n / 256 mod 16); hex_digit (n / 16 mod 16); hex_digit (n mod 16)].

(* The escaping of json.dumps(..., ensure_ascii=False) for one character
   of a string: the double quote, the backslash and the control characters
   are escaped, every other character is kept as it is. *)
Definition escape_char (c : Z) : str :=
  if c =? 34 then [92; 34] else if c =? 92 then [92; 92]
  else if c =? 10 then [92; 110] else if c =? 13 then [92; 114]
  else if c =? 9 then [92; 116] else if c =? 8 then [92; 98]
  else if c =? 12 then [92; 102] else if (0 <=? c) && (c <? 32) then [92; 117] ++ hex4 c
  else [c].

Definition dump_str (s : str) : str := [34] ++ flat_map escape_char s ++ [34].

(* str(z) for an int *)
Definition dump_int (z : Z) : str :=
  if z <? 0 then 45 :: Chunker.py_str_int (- z) else Chunker.py_str_int z.

(* json.dumps(v, ensure_ascii=False): separators ", " and ": ". *)
Fixpoint json_dumps_py (v : json) : str :=
  match v with
  | JNull => [110; 117; 108; 108]
  | JBool true => [116; 114; 117; 101]
  | JBool false => [102; 97; 108; 115; 101]
  | JNum z => dump_int z
  | JStr s => dump_str s
  | JArr l => [91] ++ join_with [44; 32] (map json_dumps_py l) ++ [93]
  | JObj kvs =>
      [123] ++ join_with [44; 32] (map (fun '(k, x) => dump_str k ++ [58; 32] ++ json_dumps_py x) kvs)
      ++ [125]
  end.

(* The whitespace json.loads skips. *)
Definition is_ws (c : Z) : bool := (c =? 32) || (c =? 9) || (c =? 10) || (c =? 13).

Fixpoint skip_ws (s : str) : str :=
  match s with
  | c :: r => if is_ws c then skip_ws r else s
  | [] => []
  end.

Definition hex_val (c : Z) : option Z :=
  if (48 <=? c) && (c <=? 57) then Some (c - 48)
  else if (97 <=? c) && (c <=? 102) then Some (c - 87)
  else if (65 <=? c) && (c <=? 70) then Some (c - 55)
  else None.

Definition hex4_val (a b c d : Z) : option Z :=
  match hex_val a, hex_val b, hex_val c, hex_val d with
  | Some x, Some y, Some z, Some w => Some (((x * 16 + y) * 16 + z) * 16 + w)
  | _, _, _, _ => None
  end.

Definition simple_escape (e : Z) : option Z :=
  if e =? 34 then Some 34 else if e =? 92 then Some 92 else if e =? 47 then Some 47
  else if e =? 98 then Some 8 else if e =? 102 then Some 12 else if e =? 110 then Some 10
  else if e =? 114 then Some 13 else if e =? 116 then Some 9 else None.

Definition push (c : Z) (p : str * str) : str * str := (c :: p.1, p.2).

(* The body of a string literal after its opening quote (scanstring with
   strict=True): the characters and the text after the closing quote. An
   escaped high surrogate directly followed by an escaped low surrogate
   gives one code point. *)
Fixpoint scan_string (s : str) : option (str * str) :=
  match s with
  | [] => None
  | c :: r =>
      if c =? 34 then Some ([], r)
      else if c =? 92 then
        match r with
        | e :: r1 =>
            if e =? 117 then
              match r1 with
              | a :: b :: c1 :: d :: r2 =>
                  match hex4_val a b c1 d with
                  | None => None
                  | Some u =>
                      if (55296 <=? u) && (u <=? 56319) then
                        match r2 with
                        | 92 :: 117 :: a' :: b' :: c' :: d' :: r3 =>
                            match hex4_val a' b' c' d' with
                            | Some u2 =>
                                if (56320 <=? u2) && (u2 <=? 57343)
                                then push (65536 + (u - 55296) * 1024 + (u2 - 56320)) <$> scan_string r3
                                else push u <$> scan_string r2
                            | None => push u <$> scan_string r2
                            end
                        | _ => push u <$> scan_string r2
                        end
                      else push u <$> scan_string r2
                  end
              | _ => None
              end
            else match simple_escape e with
                 | Some x => push x <$> scan_string r1
                 | None => None
                 end
        | [] => None
        end
      else if (0 <=? c) && (c <? 32) then None
      else push c <$> scan_string r
  end.

Definition is_digit (c : Z) : bool := (48 <=? c) && (c <=? 57).

Fixpoint scan_digits (s : str) : str * str :=
  match s with
  | c :: r => if is_digit c then push c (scan_digits r) else ([], s)
  | [] => ([], [])
  end.

Definition starts_with (p s : str) : bool := bool_decide (take (length p) s = p).

(* An integer: an optional minus sign, then 0 or a non-zero digit followed
   by digits; a fraction or an exponent (a float, which this value type
   does not hold) is refused. *)
Definition scan_int (s : str) : option (Z * str) :=
  let '(neg, s1) := match s with 45 :: r => (true, r) | _ => (false, s) end in
  match s1 with
  | d :: r =>
      if d =? 48 then
        match r with
        | c :: _ => if (c =? 46) || (c =? 101) || (c =? 69) || is_digit c then None else Some (0, r)
        | [] => Some (0, r)
        end
      else if is_digit d then
        let '(ds, rest) := scan_digits r in
        match rest with
        | c :: _ => if (c =? 46) || (c =? 101) || (c =? 69) then None
                    else let n := Chunker.digits_value (d :: ds) in Some (if neg then - n else n, rest)
        | [] => let n := Chunker.digits_value (d :: ds) in Some (if neg then - n else n, rest)
        end
      else None
  | [] => None
  end.

(* scan_once, JSONArray and JSONObject of the json decoder, with a fuel
   bounding the nesting. *)
Fixpoint parse_value (fuel : nat) (s : str) : option (json * str) :=
  match fuel with
  | O => None
  | S f =>
      match s with
      | [] => None
      | c :: r =>
          if c =? 34 then (fun p => (JStr p.1, p.2)) <$> scan_string r
          else if c =? 123 then
            match skip_ws r with
            | 125 :: r1 => Some (JObj [], r1)
            | r1 => (fun p => (JObj p.1, p.2)) <$> parse_members f r1
            end
          else if c =? 91 then
            match skip_ws r with
            | 93 :: r1 => Some (JArr [], r1)
            | r1 => (fun p => (JArr p.1, p.2)) <$> parse_elements f r1
            end
          else if starts_with [110; 117; 108; 108] s then Some (JNull, drop 4 s)
          else if starts_with [116; 114; 117; 101] s then Some (JBool true, drop 4 s)
          else if starts_with [102; 97; 108; 115; 101] s then Some (JBool false, drop 5 s)
          else (fun p => (JNum p.1, p.2)) <$> scan_int s
      end
  end
with parse_elements (fuel : nat) (s : str) : option (list json * str) :=
  match fuel with
  | O => None
  | S f =>
      match parse_value f s with
      | None => None
      | Some (v, r) =>
          match skip_ws r with
          | 93 :: r1 => Some ([v], r1)
          | 44 :: r1 => (fun p => (v :: p.1, p.2)) <$> parse_elements f (skip_ws r1)
          | _ => None
          end
      end
  end
with parse_members (fuel : nat) (s : str) : option (list (str * json) * str) :=
  match fuel with
  | O => None
  | S f =>
      match s with
      | 34 :: r =>
          match scan_string r with
          | None => None
          | Some (k, r1) =>
              match skip_ws r1 with
              | 58 :: r2 =>
                  match parse_value f (skip_ws r2) with
                  | None => None
                  | Some (v, r3) =>
                      match skip_ws r3 with
                      | 125 :: r4 => Some ([(k, v)], r4)
                      | 44 :: r4 => (fun p => ((k, v) :: p.1, p.2)) <$> parse_members f (skip_ws r4)
                      | _ => None
                      end
                  end
              | _ => None
              end
          end
      | _ => None
      end
  end.

(* json.loads(s) for a document whose numbers are integers: the value,
   after which only whitespace may follow. *)
Definition json_loads_py (s : str) : option json :=
  match parse_value (S (length s)) (skip_ws s) with
  | Some (v, rest) => match skip_ws rest with [] => Some v | _ => None end
  | None => None
  end.

End JsonText.

(* ===================================================================== *)
(* extract.py: _existing_chunk_ids and the resumable loop of main          *)
(* ===================================================================== *)

Module Extract.
Import TextIO.

(* A row of chunks.jsonl as main reads it: r["chunk_id"] and the values of
   r.get("chapter_index"), r.get("chapter_title"), r.get("part_index"),
   r.get("start_char"), r.get("end_char") (JNull when absent); r["text"]
   only reaches the prompt, so it is part of what the model sees through
   the row. *)
Record chunk_row := mkRow {
  cr_chunk_id : json; cr_chapter_index : json; cr_chapter_title : json;
  cr_part_index : json; cr_start_char : json; cr_end_char : json; cr_text : str }.

Section Run.
(* str(v) for a JSON value; json.loads on a line (None when it raises);
   json.dumps(v, ensure_ascii=False); and the model behind
   llm.respond_json, which sees the row through the prompt built from it
   (None when respond_json raises, after its retries). *)
Variable py_str_json : json -> str.
Variable json_loads : str -> option json.
Variable json_dumps : json -> str.
Variable llm : chunk_row -> option json.

(* The loop of _existing_chunk_ids over the lines of the file: for each
   line, obj = json.loads(line); cid = obj.get("chunk_id"); if cid:
   s.add(str(cid)); any exception (a line that is not JSON, or a value
   without .get) skips the line. The set is kept as the list of ids in the
   order they are added. *)
Fixpoint ids_of_lines (lines : list str) : list str :=
  match lines with
  | [] => []
  | line :: rest =>
      match json_loads line with
      | Some (JObj kvs) =>
          match obj_get kvs Lit.k_chunk_id with
          | Some cid => if py_truthy cid then py_str_json cid :: ids_of_lines rest
                        else ids_of_lines rest
          | None => ids_of_lines rest
          end
      | _ => ids_of_lines rest
      end
  end.

(* _existing_chunk_ids(out_path), for the file holding the bytes bs (None:
   no file): the empty set when there is no file; None when `for line in
   f` raises UnicodeDecodeError, which is outside the try. *)
Definition _existing_chunk_ids (file : option (list Z)) : option (list str) :=
  match file with
  | None => Some []
  | Some bs => ids_of_lines <$> read_text_lines bs
  end.

(* out_obj *)
Definition out_obj (cid : str) (r : chunk_row) (obj : json) : json :=
  JObj [(Lit.k_chunk_id, JStr cid);
        (Lit.k_chapter_index, cr_chapter_index r);
        (Lit.k_chapter_title, cr_chapter_title r);
        (Lit.k_part_index, cr_part_index r);
        (Lit.k_start_char, cr_start_char r);
        (Lit.k_end_char, cr_end_char r);
        (Lit.k_extraction, obj)].

(* for r in rows: cid = str(r["chunk_id"]); if cid in done: continue;
   obj = llm.respond_json(...); fout.write(json.dumps(out_obj) + "\n");
   fout.flush(). [done] is computed once, before the loop. The result is
   the bytes appended to the file and whether the loop ran to its end:
   false when respond_json raises or the line cannot be encoded (the write
   raises before any of its bytes reach the file); the `with` block then
   closes the file, so every line written before is complete. *)
Fixpoint extract_loop (done : list str) (rows : list chunk_row) : list Z * bool :=
  match rows with
  | [] => ([], true)
  | r :: rest =>
      let cid := py_str_json (cr_chunk_id r) in
      if decide (cid ∈ done) then extract_loop done rest
      else
        match llm r with
        | None => ([], false)
        | Some obj =>
            match utf8_encode (json_dumps (out_obj cid r obj) ++ [10]) with
            | None => ([], false)
            | Some b => let '(bs, ok) := extract_loop done rest in (b ++ bs, ok)
            end
        end
  end.

(* One run of main on the chunk rows, with the extraction log [log0] on
   disk (None: no file yet): the file afterwards, and whether the run
   completed. When _existing_chunk_ids raises, the run stops before the
   file is opened; otherwise the file is opened in append mode (and
   created). Lines are written with "\n" as the line break. *)
Definition extract_main (rows : list chunk_row) (log0 : option (list Z)) : option (list Z) * bool :=
  match _existing_chunk_ids log0 with
  | None => (log0, false)
  | Some done =>
      let '(bs, ok) := extract_loop done rows in
      (Some (match log0 with Some b => b | None => [] end ++ bs), ok)
  end.

(* What the proofs need of json.dumps and json.loads on the line written
   for row r with the model's answer obj: the text json.dumps gives is
   not empty and holds no "\n" and no "\r" (json.dumps escapes both), and
   json.loads reads the line back as a dict whose "chunk_id" is cid. *)
Definition record_line_ok (cid : str) (r : chunk_row) (obj : json) : Prop :=
  let line := json_dumps (out_obj cid r obj) in
  line <> [] /\ Forall (fun c => c <> 10 /\ c <> 13) line /\
  exists kvs, json_loads (line ++ [10]) = Some (JObj kvs) /\ obj_get kvs Lit.k_chunk_id = Some (JStr cid).

End Run.

(* A chunk row as the chunker writes it ("chunk_id": "000000",
   "chapter_index": 1, "chapter_title": "C1", "part_index": 1,
   "start_char": 0, "end_char": 1, "text": "a"), and str() on strings. *)
Definition row_sample : chunk_row :=
  mkRow (JStr (Chunker.fmt06 0)) (JNum 1) (JStr [67; 49]) (JNum 1) (JNum 0) (JNum 1) [97].

Definition str_of_json_sample (v : json) : str :=
  match v with JStr s => s | JNum z => Chunker.py_str_int z | _ => [] end.

(* The next chunk row ("chunk_id": "000001", part 2, "text": "b"). *)
Definition row_sample1 : chunk_row :=
  mkRow (JStr (Chunker.fmt06 1)) (JNum 1) (JStr [67; 49]) (JNum 2) (JNum 1) (JNum 2) [98].

(* A model that answers {} for chunk 000000 and whose call raises for
   every other chunk. *)
Definition llm_first_only (r : chunk_row) : option json :=
  if decide (str_of_json_sample (cr_chunk_id r) = Chunker.fmt06 0) then Some (JObj []) else None.

(* A log whose only line was cut while it was being written: the first 15
   characters of a record line, up to the first digit of its chunk_id
   value, with no line break. *)
Definition torn_sample : list Z := [123; 34] ++ Lit.k_chunk_id ++ [34; 58; 32; 34; 48].

End Extract.

(* ===================================================================== *)
(* llm_client.py: OpenAILLM._safe_json                                      *)
(* ===================================================================== *)

Module SafeJson.

(* s.find(c): the index of the first occurrence, -1 when there is none *)
Fixpoint py_find (c : Z) (s : str) : Z :=
  match s with
  | [] => -1
  | x :: r => if x =? c then 0 else
                let i := py_find c r in if i <? 0 then -1 else i + 1
  end.

(* s.rfind(c): the index of the last occurrence, -1 when there is none *)
Definition py_rfind (c : Z) (s : str) : Z :=
  let i := py_find c (rev s) in if i <? 0 then -1 else len s - 1 - i.

Section Safe.
(* json.loads on a string: Some v when it returns v, None when it raises
   (ValueError, RecursionError, ...: all caught by `except Exception`). *)
Variable json_loads : str -> option json.

(* obj if isinstance(obj, dict) else {"_raw": obj} *)
Definition as_dict (obj : json) : json :=
  match obj with
  | JObj kvs => JObj kvs
  | _ => JObj [(Lit.k_raw, obj)]
  end.

(* _safe_json(text) for a str text ((text or "") is text itself). *)
Definition _safe_json (text0 : str) : json :=
  let text := strip text0 in
  match text with
  | [] => JObj [(Lit.k_error, JStr Lit.v_empty_response)]
  | _ :: _ =>
      match json_loads text with
      | Some obj => as_dict obj
      | None =>
          let start := py_find 123 text in
          let end_ := py_rfind 125 text in
          if (0 <=? start) && (start <? end_) then
            match json_loads (py_slice text start (end_ + 1)) with
            | Some obj => as_dict obj
            | None => JObj [(Lit.k_error, JStr Lit.v_invalid_json);
                            (Lit.k_text, JStr (prefix text 2000))]
            end
          else JObj [(Lit.k_error, JStr Lit.v_no_json_object);
                     (Lit.k_text, JStr (prefix text 2000))]
      end
  end.

End Safe.

End SafeJson.

(* ===================================================================== *)
(* chunker.py: _find_volume_span, _find_chapter_spans and main             *)
(* ===================================================================== *)

Module Spans.
Import Chunker.

(* A match of re.finditer: m.start() and the group main reads
   (group(1) of VOLUME_RE, group("title") of CHAPTER_LINE_RE). *)
Record re_match := mkMatch { m_start : Z; m_group : str }.

(* "全文" *)
Definition whole_text_title : str := [20840; 25991].

Section Find.
(* list(VOLUME_RE.finditer(text)) and list(CHAPTER_LINE_RE.finditer(text)) *)
Variables vol_finditer chap_finditer : str -> list re_match.

(* _find_volume_span(text, volume) *)
Definition _find_volume_span (text : str) (volume : Z) : option (str * Z * Z) :=
  let matches := vol_finditer text in
  match matches with
  | [] => None
  | _ :: _ =>
      let idx := volume - 1 in
      if (idx <? 0) || (Z.of_nat (length matches) <=? idx) then None
      else
        let m := nth (Z.to_nat idx) matches (mkMatch 0 []) in
        let start := m_start m in
        let end_ := if idx + 1 <? Z.of_nat (length matches)
                    then m_start (nth (Z.to_nat (idx + 1)) matches m)
                    else len text in
        Some (strip (m_group m), start, end_)
  end.

(* The loop of _find_chapter_spans: for i, m in enumerate(matches):
   end = matches[i + 1].start() if i + 1 < len(matches) else len(text) *)
Fixpoint spans_of (text_len : Z) (ms : list re_match) : list (str * Z * Z) :=
  match ms with
  | [] => []
  | m :: rest =>
      let end_ := match rest with [] => text_len | m' :: _ => m_start m' end in
      (strip (m_group m), m_start m, end_) :: spans_of text_len rest
  end.

Definition _find_chapter_spans (text : str) : list (str * Z * Z) :=
  match chap_finditer text with
  | [] => [(whole_text_title, 0, len text)]
  | ms => spans_of (len text) ms
  end.

(* Step 1 of main: (volume_title, text) after the optional volume selection. *)
Definition select_volume (full_text : str) (volume : Z) : str * str :=
  if 0 <? volume then
    match _find_volume_span full_text volume with
    | None => ([], full_text)
    | Some (t, s, e) => (t, strip (py_slice full_text s e))
    end
  else ([], full_text).

(* out_lines of main for the file contents full_text and the CLI values *)
Definition chunker_main (full_text : str) (volume max_chars overlap max_chapters max_chunks : Z)
    : list chunk_rec :=
  let '(vtitle, text) := select_volume full_text volume in
  chunker_out text volume vtitle max_chars overlap max_chunks max_chapters
              (_find_chapter_spans text).

End Find.

End Spans.

(* ===================================================================== *)
(* merge.py / extract.py: _read_jsonl                                      *)
(* ===================================================================== *)

Module ReadJsonl.

Section Read.
Variable json_loads : str -> option json.

(* for line in f: line = line.strip(); if not line: continue;
   rows.append(json.loads(line)). None: json.loads raised. *)
Fixpoint read_lines (lines : list str) : option (list json) :=
  match lines with
  | [] => Some []
  | line0 :: rest =>
      let line := strip line0 in
      match line with
      | [] => read_lines rest
      | _ :: _ =>
          match json_loads line with
          | None => None
          | Some v => match read_lines rest with
                      | None => None
                      | Some vs => Some (v :: vs)
                      end
          end
      end
  end.

(* _read_jsonl(p): None for the file (p.exists() false) raises. *)
Definition _read_jsonl (file : option (list str)) : option (list json) :=
  match file with
  | None => None
  | Some lines => read_lines lines
  end.

End Read.

End ReadJsonl.

(* ===================================================================== *)
(* merge.py: collecting mentions and the character registry                *)
(* ===================================================================== *)

Module Registry.
Import Alias.

(* Python's < on str: code points compared lexicographically. *)
Fixpoint str_ltb (a b : str) : bool :=
  match a, b with
  | [], [] => false
  | [], _ :: _ => true
  | _ :: _, [] => false
  | x :: a', y :: b' => (x <? y) || ((x =? y) && str_ltb a' b')
  end.

(* sorted(l, key=key) for a list whose keys are pairwise distinct (the only
   use in merge.py: set elements and dict keys), where every sorting
   algorithm gives the same list; insertion sort. *)
Fixpoint insert_by {A} (key : A -> str) (x : A) (l : list A) : list A :=
  match l with
  | [] => [x]
  | y :: l' => if str_ltb (key y) (key x) then y :: insert_by key x l' else x :: l
  end.

Definition sort_by {A} (key : A -> str) (l : list A) : list A :=
  fold_right (insert_by key) [] l.

(* sorted(list(s)) for a set of str *)
Definition sorted_set (s : gset str) : list str := sort_by (fun x => x) (elements s).

(* sep.join(l) *)
Fixpoint join (sep : str) (l : list str) : str :=
  match l with
  | [] => []
  | [x] => x
  | x :: rest => x ++ sep ++ join sep rest
  end.

Section Collect.
(* str(v) for a JSON value, and json.dumps(v, ensure_ascii=False) *)
Variable py_str_json : json -> str.
Variable json_dumps : json -> str.

(* d.get(k) or default *)
Definition get_or (kvs : list (str * json)) (k : str) (default : json) : json :=
  match obj_get kvs k with
  | Some v => if py_truthy v then v else default
  | None => default
  end.

(* str(d.get(k, "")) *)
Definition get_str (kvs : list (str * json)) (k : str) : str :=
  match obj_get kvs k with Some v => py_str_json v | None => [] end.

(* e2 = dict(e); e2["_chunk_id"] = r.get("chunk_id"): the new pair comes
   last, where obj_get finds it. *)
Definition with_chunk_id (e : list (str * json)) (cid : json) : list (str * json) :=
  e ++ [(Lit.k__chunk_id, cid)].

Definition dict_elems (v : json) : list (list (str * json)) :=
  match v with
  | JArr l => flat_map (fun x => match x with JObj kvs => [kvs] | _ => [] end) l
  | _ => []
  end.

(* The body of `for r in rows` (lines 78-91): the entity dicts and the
   (meta, relation) pairs it collects, None when it raises (r.get or
   ex.get on a value that is not a dict). *)
Definition collect_row (r : json)
    : option (list (list (str * json)) * list (list (str * json) * list (str * json))) :=
  match r with
  | JObj rkvs =>
      match get_or rkvs Lit.k_extraction (JObj []) with
      | JObj ex =>
          let ents := get_or ex Lit.k_entities (JArr []) in
          let rels := get_or ex Lit.k_relations (JArr []) in
          let cid := match obj_get rkvs Lit.k_chunk_id with Some v => v | None => JNull end in
          Some (map (fun e => with_chunk_id e cid) (dict_elems ents),
                map (fun rel => (rkvs, rel)) (dict_elems rels))
      | _ => None
      end
  | _ => None
  end.

Fixpoint collect (rows : list json)
    : option (list (list (str * json)) * list (list (str * json) * list (str * json))) :=
  match rows with
  | [] => Some ([], [])
  | r :: rest =>
      match collect_row r, collect rest with
      | Some (es, rs), Some (es', rs') => Some (es ++ es', rs ++ rs')
      | _, _ => None
      end
  end.

(* The entity dict as _merge_alias_map reads it (the record of Alias):
   str(e.get("name", "")), and e.get("aliases") or [] with str() of its
   elements when it is a list. *)
Definition entity_of (e : list (str * json)) : entity :=
  mkEntity (get_str e Lit.k_name)
    (match get_or e Lit.k_aliases (JArr []) with
     | JArr l => Some (map py_str_json l)
     | _ => None
     end).

(* A value of char_map *)
Record char_obj := mkCharObj {
  co_name : str; co_aliases : gset str; co_notes : gset str;
  co_type : json; co_refs : gset str }.

Definition add_alias (a : str) (o : char_obj) : char_obj :=
  mkCharObj (co_name o) ({[a]} ∪ co_aliases o) (co_notes o) (co_type o) (co_refs o).
Definition add_note (n : str) (o : char_obj) : char_obj :=
  mkCharObj (co_name o) (co_aliases o) ({[n]} ∪ co_notes o) (co_type o) (co_refs o).
Definition add_ref (r : str) (o : char_obj) : char_obj :=
  mkCharObj (co_name o) (co_aliases o) (co_notes o) (co_type o) ({[r]} ∪ co_refs o).

(* for a in aliases: a = _norm_name(str(a)); if a and a != name: add *)
Definition reg_aliases (name : str) (als : list str) (o : char_obj) : char_obj :=
  fold_left (fun o a0 =>
    let a := _norm_name a0 in
    match a with
    | [] => o
    | _ :: _ => if decide (a = name) then o else add_alias a o
    end) als o.

(* One iteration of the loop building char_map (lines 98-124). *)
Definition reg_step (amap : gmap str str) (cm : gmap str char_obj) (e : list (str * json))
    : gmap str char_obj :=
  let name := _canon amap (get_str e Lit.k_name) in
  match name with
  | [] => cm
  | _ :: _ =>
      let obj := match cm !! name with
                 | Some o => o
                 | None => mkCharObj name ∅ ∅
                             (match obj_get e Lit.k_type with
                              | Some v => v | None => JStr Lit.v_person end) ∅
                 end in
      let obj1 := match e_aliases (entity_of e) with
                  | Some als => reg_aliases name als obj
                  | None => obj
                  end in
      let obj2 := match obj_get e Lit.k_notes with
                  | Some (JStr s) => match strip s with
                                     | [] => obj1
                                     | n => add_note n obj1
                                     end
                  | _ => obj1
                  end in
      let obj3 := match obj_get e Lit.k__chunk_id with
                  | Some cid => if py_truthy cid then add_ref (py_str_json cid) obj2 else obj2
                  | None => obj2
                  end in
      <[name := obj3]> cm
  end.

Definition char_registry (amap : gmap str str) (ents : list (list (str * json)))
    : gmap str char_obj :=
  fold_left (reg_step amap) ents ∅.

(* An element of characters.yml *)
Record character := mkCharacter {
  ch_name : str; ch_aliases : list str; ch_type : json; ch_notes : str; ch_refs : list str }.

Definition character_of (name : str) (o : char_obj) : character :=
  mkCharacter name (take 50 (sorted_set (co_aliases o))) (co_type o)
    (join [59; 32] (take 20 (sorted_set (co_notes o))))
    (take 200 (sorted_set (co_refs o))).

(* characters: sorted(char_map.items(), key=lambda x: x[0]) *)
Definition characters_out (cm : gmap str char_obj) : list character :=
  map (fun '(name, o) => character_of name o) (sort_by fst (map_to_list cm)).

(* str(d.get(k, default)) *)
Definition get_str_d (kvs : list (str * json)) (k : str) (default : str) : str :=
  match obj_get kvs k with Some v => py_str_json v | None => default end.

(* d.get(k), None giving JNull *)
Definition get_json (kvs : list (str * json)) (k : str) : json :=
  match obj_get kvs k with Some v => v | None => JNull end.

(* ev = rel.get("evidence") or {}: the dict ev, or None when ev is a truthy
   value that is not a dict, where the next line, ev.get("quote", ""),
   raises AttributeError. *)
Definition rel_evidence (rel : list (str * json)) : option (list (str * json)) :=
  match get_or rel Lit.k_evidence (JObj []) with
  | JObj ev => Some ev
  | _ => None
  end.

(* The line written to evidence.jsonl for the relation rel of the row meta
   with evidence ev: json.dumps({"key": list(key), **ev_obj},
   ensure_ascii=False) + "\n", with key = (a, b, t, status) and ev_obj =
   {chunk_id, chapter_title, quote: quote[:120], span: [st, ed]}; the
   default of t is "其他" and that of status is "不确定". *)
Definition ev_line (amap : gmap str str) (meta rel ev : list (str * json)) : str :=
  let a := _canon amap (get_str rel Lit.k_from) in
  let b := _canon amap (get_str rel Lit.k_to) in
  let t := _norm_name (get_str_d rel Lit.k_type [20854; 20182]) in
  let status := _norm_name (get_str_d rel Lit.k_status [19981; 30830; 23450]) in
  let quote := _norm_name (get_str ev Lit.k_quote) in
  json_dumps (JObj [(Lit.k_key, JArr [JStr a; JStr b; JStr t; JStr status]);
                    (Lit.k_chunk_id, get_json meta Lit.k_chunk_id);
                    (Lit.k_chapter_title, get_json meta Lit.k_chapter_title);
                    (Lit.k_quote, JStr (take 120 quote));
                    (Lit.k_span, JArr [get_json ev Lit.k_start_char; get_json ev Lit.k_end_char])])
  ++ [10].

(* One iteration of the relation loop (lines 145-186) runs through: false
   when it raises, either at ev.get or when ev_f.write cannot encode the
   evidence line in UTF-8 (a lone surrogate in one of its strings). The
   rest of the iteration (str(), _norm_name, float(conf) in its try, dict
   updates) does not raise. *)
Definition rel_row_ok (amap : gmap str str) (mr : list (str * json) * list (str * json)) : bool :=
  let '(meta, rel) := mr in
  match rel_evidence rel with
  | None => false
  | Some ev =>
      match _norm_name (get_str ev Lit.k_quote) with
      | [] => true
      | _ :: _ => if TextIO.utf8_encode (ev_line amap meta rel ev) then true else false
      end
  end.

(* The characters.yml merge.py writes for the rows of extractions.jsonl
   (line 212); the loops building it and the relation loop run before, and
   an exception in any of them stops merge.py first. *)
Definition merge_characters (rows : list json) : option (list character) :=
  match collect rows with
  | None => None
  | Some (ents, rels) =>
      let amap := _merge_alias_map (map entity_of ents) in
      if forallb (rel_row_ok amap) rels then Some (characters_out (char_registry amap ents))
      else None
  end.

End Collect.

End Registry.

(* ===================================================================== *)
(* llm_client.py: respond_text (retries) and respond_json                   *)
(* ===================================================================== *)

Module Retry.

(* What one client.responses.create call gives: an exception (None), or a
   response with getattr(resp, "output_text", None) and str(resp). *)
Record response := mkResponse { output_text : option str; str_resp : str }.

(* The effects respond_text performs: the i-th create call, and
   time.sleep(backoff_base_s * (2 ** i)) after it failed. *)
Inductive event := ECall (i : nat) | ESleep (i : nat).

(* for i in range(...): try: resp = create(...); out = ...; return str(out)
   except Exception: sleep(...). [api i] is the outcome of the i-th call.
   The result is None when the loop ends: raise RuntimeError. *)
Fixpoint respond_loop (api : nat -> option response) (i n : nat) : list event * option str :=
  match n with
  | O => ([], None)
  | S n' =>
      match api i with
      | Some resp =>
          ([ECall i], Some (match output_text resp with Some o => o | None => str_resp resp end))
      | None =>
          let '(evs, res) := respond_loop api (S i) n' in (ECall i :: ESleep i :: evs, res)
      end
  end.

(* respond_text with cfg.retries = retries (range of a negative int is empty) *)
Definition respond_text (api : nat -> option response) (retries : Z) : list event * option str :=
  respond_loop api 0 (Z.to_nat retries).

(* respond_json: self._safe_json(self.respond_text(...)) *)
Definition respond_json (json_loads : str -> option json) (api : nat -> option response)
    (retries : Z) : list event * option json :=
  let '(evs, res) := respond_text api retries in
  (evs, match res with Some t => Some (SafeJson._safe_json json_loads t) | None => None end).

(* The events of k failed calls from i on: call, sleep, call, sleep, ... *)
Fixpoint failed_calls (i k : nat) : list event :=
  match k with
  | O => []
  | S k' => ECall i :: ESleep i :: failed_calls (S i) k'
  end.

End Retry.

(* ===================================================================== *)
(* chunks.jsonl between chunker.py and extract.py                          *)
(* ===================================================================== *)

Module Pipeline.

(* The row extract.py reads back (json.loads) from the line chunker.py
   writes (json.dumps) for a chunk record: ints stay ints, strs stay strs. *)
Definition row_of_chunk (c : Chunker.chunk_rec) : Extract.chunk_row :=
  Extract.mkRow (JStr (Chunker.chunk_id c)) (JNum (Chunker.chapter_index c))
    (JStr (Chunker.chapter_title c)) (JNum (Chunker.part_index c))
    (JNum (Chunker.c_start_char c)) (JNum (Chunker.c_end_char c)) (Chunker.c_text c).

End Pipeline.

(* ===================================================================== *)
(* Proofs: the Chunk Splitter                                              *)
(* ===================================================================== *)

Module ChunkerFacts.
Import Chunker.

Lemma chunk_loop_lookup (body : str) (L step : Z) (f : nat) (i : Z) (k : nat) (w : window) :
  1 <= step -> 0 <= i -> len body - i <= Z.of_nat f ->
  chunk_loop f body L step i !! k = Some w <->
  i + Z.of_nat k * step < len body /\ w = window_at body L (i + Z.of_nat k * step).
Proof.
  intros Hs. revert i k. induction f as [|f IH]; intros i k Hi Hf; simpl.
  - split; [done|]. intros [Hlt _]. nia.
  - destruct (Z.ltb_spec i (len body)) as [Hlt|Hge].
    + destruct k as [|k]; simpl.
      * rewrite Z.mul_0_l, Z.add_0_r. split.
        -- intros Hw. injection Hw as <-. done.
        -- intros [_ ->]. done.
      * rewrite IH by lia.
        replace (i + step + Z.of_nat k * step) with (i + Z.of_nat (S k) * step) by lia.
        done.
    + split; [done|]. intros [Hlt _]. nia.
Qed.

Lemma chunk_text_lookup (body : str) (L O : Z) (k : nat) (w : window) :
  strip body <> [] ->
  _chunk_text body L O !! k = Some w <->
  Z.of_nat k * Z.max 1 (L - O) < len (strip body) /\
  w = window_at (strip body) L (Z.of_nat k * Z.max 1 (L - O)).
Proof.
  intros Hne. unfold _chunk_text.
  destruct (strip body) as [|c r] eqn:E; [done|].
  rewrite chunk_loop_lookup by (unfold len; lia).
  rewrite Z.add_0_l. done.
Qed.

(** C2 (amended): for a chapter body whose trimmed length n is positive,
    L >= 1 and 0 <= O < L, the windows of _chunk_text (offsets into the
    trimmed body) cover [0, n) exactly; consecutive windows start L - O
    apart and overlap by min(O, n - start of the second window): exactly O
    while the first window of the pair has its full length L, less once it
    is cut short by the end of the body. *)
Theorem chunk_coverage (body : str) (L O : Z) :
  0 < len (strip body) -> 1 <= L -> 0 <= O < L ->
  (forall x, 0 <= x < len (strip body) <->
     exists w, w ∈ _chunk_text body L O /\ start_char w <= x < end_char w) /\
  (forall k w1 w2, _chunk_text body L O !! k = Some w1 ->
     _chunk_text body L O !! S k = Some w2 ->
     start_char w2 = start_char w1 + (L - O) /\
     end_char w1 - start_char w2 = Z.min O (len (strip body) - start_char w2)).
Proof.
  intros Hn HL HO.
  assert (Hne : strip body <> []) by (intros E; rewrite E in Hn; discriminate).
  assert (Hstep : Z.max 1 (L - O) = L - O) by lia.
  split.
  - intros x. split.
    + intros Hx.
      pose proof (Z.div_mod x (L - O) ltac:(lia)) as Hdm.
      pose proof (Z.mod_pos_bound x (L - O) ltac:(lia)) as Hmb.
      assert (Hq : 0 <= x / (L - O)) by (apply Z.div_pos; lia).
      exists (window_at (strip body) L (Z.of_nat (Z.to_nat (x / (L - O))) * (L - O))).
      split.
      * apply list_elem_of_lookup. exists (Z.to_nat (x / (L - O))).
        apply chunk_text_lookup; [done|]. rewrite Hstep. split; [nia|done].
      * unfold window_at; simpl. rewrite Z2Nat.id by lia. split; [nia|].
        apply Z.min_glb_lt; nia.
    + intros [w [Hw Hx]]. apply list_elem_of_lookup in Hw as [k Hk].
      apply chunk_text_lookup in Hk as [Hlt ->]; [|done].
      unfold window_at in Hx; simpl in Hx. rewrite Hstep in Hx.
      split; [nia|]. pose proof (Z.le_min_l (len (strip body)) (Z.of_nat k * (L - O) + L)). lia.
  - intros k w1 w2 H1 H2.
    apply chunk_text_lookup in H1 as [Hlt1 ->]; [|done].
    apply chunk_text_lookup in H2 as [Hlt2 ->]; [|done].
    unfold window_at; simpl. rewrite Hstep.
    split; [lia|].
    rewrite <- Z.sub_min_distr_r.
    replace (Z.of_nat k * (L - O) + L - Z.of_nat (S k) * (L - O)) with O by lia.
    apply Z.min_comm.
Qed.

(** C2 counterexample: body "aaaaa", L = 10, O = 8. The windows are
    [0,5), [2,5) and [4,5); the first two (not involving the last window)
    overlap by 3, not 8. *)
Lemma chunk_coverage_counterexample :
  ~ overlap_exact_except_last (_chunk_text (repeat 97 5) 10 8) 8.
Proof.
  intros H. specialize (H 0%nat _ _ ltac:(vm_compute; lia) eq_refl eq_refl).
  vm_compute in H. discriminate.
Qed.

Lemma chunk_coverage_witness :
  0 <= 4 < len (strip (repeat 97 5)) <->
    exists w, w ∈ _chunk_text (repeat 97 5) 10 8 /\ start_char w <= 4 < end_char w.
Proof.
  apply (proj1 (chunk_coverage (repeat 97 5) 10 8 ltac:(vm_compute; reflexivity) ltac:(lia) ltac:(lia)) 4).
Defined.

Lemma py_slice_whole (s : str) : 0 < len s -> py_slice s 0 (len s) = s.
Proof.
  intros Hn. unfold py_slice, slice_bound.
  rewrite (proj2 (Z.ltb_ge 0 0)) by lia.
  rewrite (proj2 (Z.ltb_ge (len s) 0)) by lia.
  rewrite Z.min_l by lia. rewrite Z.min_id.
  rewrite (proj2 (Z.ltb_lt 0 (len s))) by done.
  rewrite Z.sub_0_r. simpl. unfold len. rewrite Nat2Z.id. apply firstn_all.
Qed.

(** C8 (amended): with L >= 1 and 0 <= O < L, a body that is empty after
    trimming gives zero chunks; a body whose trimmed length n satisfies
    0 < n < L gives a first chunk covering the whole trimmed body, every
    chunk ends at n, and there is exactly one chunk if and only if
    n <= L - O (otherwise later chunks are suffix windows of the body). *)
Theorem short_body_chunks (body : str) (L O : Z) :
  1 <= L -> 0 <= O < L ->
  (strip body = [] -> _chunk_text body L O = []) /\
  (0 < len (strip body) < L ->
     _chunk_text body L O !! 0%nat = Some (mkWindow 0 (len (strip body)) (strip body)) /\
     (forall w, w ∈ _chunk_text body L O -> end_char w = len (strip body)) /\
     (length (_chunk_text body L O) = 1%nat <-> len (strip body) <= L - O)).
Proof.
  intros HL HO. assert (Hstep : Z.max 1 (L - O) = L - O) by lia.
  split.
  { intros E. unfold _chunk_text. rewrite E. done. }
  intros Hn.
  assert (Hne : strip body <> []) by (intros E; rewrite E in Hn; unfold len in Hn; simpl in Hn; lia).
  split; [|split].
  - apply chunk_text_lookup; [done|]. rewrite Hstep. simpl. split; [lia|].
    unfold window_at. rewrite Z.add_0_l, Z.min_l by lia.
    rewrite py_slice_whole by lia. done.
  - intros w Hw. apply list_elem_of_lookup in Hw as [k Hk].
    apply chunk_text_lookup in Hk as [Hlt ->]; [|done].
    unfold window_at; simpl. rewrite Hstep in *. apply Z.min_l. nia.
  - assert (H0 : is_Some (_chunk_text body L O !! 0%nat)).
    { eexists. apply chunk_text_lookup; [done|]. split; [lia|done]. }
    apply lookup_lt_is_Some in H0.
    split.
    + intros Hlen. destruct (Z_le_gt_dec (len (strip body)) (L - O)) as [|Hgt]; [done|].
      assert (H1 : is_Some (_chunk_text body L O !! 1%nat)).
      { eexists. apply chunk_text_lookup; [done|]. rewrite Hstep. split; [lia|done]. }
      apply lookup_lt_is_Some in H1. lia.
    + intros Hle.
      destruct (_chunk_text body L O !! 1%nat) as [w|] eqn:E1.
      * apply chunk_text_lookup in E1 as [Hlt _]; [|done]. rewrite Hstep in Hlt. lia.
      * apply lookup_ge_None in E1. lia.
Qed.

(** C8 counterexample: the body "aaaaa" is shorter than L = 10, yet with
    O = 8 _chunk_text returns three chunks, not one. *)
Lemma short_body_chunks_counterexample :
  len (strip (repeat 97 5)) < 10 /\ length (_chunk_text (repeat 97 5) 10 8) = 3%nat.
Proof. split; vm_compute; reflexivity. Qed.

Lemma short_body_chunks_witness :
  _chunk_text (repeat 97 5) 10 2 !! 0%nat = Some (mkWindow 0 5 (repeat 97 5)).
Proof.
  apply (proj2 (short_body_chunks (repeat 97 5) 10 2 ltac:(lia) ltac:(lia))).
  vm_compute. split; reflexivity.
Defined.

(* ---- chunk_id formatting is injective ---- *)

Lemma digits_value_app (l : str) (d : Z) :
  digits_value (l ++ [d]) = digits_value l * 10 + (d - 48).
Proof. unfold digits_value. rewrite fold_left_app. done. Qed.

Lemma digits_value_zeros (k : nat) (l : str) : digits_value (repeat 48 k ++ l) = digits_value l.
Proof.
  unfold digits_value. rewrite fold_left_app. f_equal.
  induction k as [|k IH]; [done|]. simpl. done.
Qed.

Lemma dec_digits_value (f : nat) (n : Z) :
  0 <= n -> n < Z.of_nat f -> digits_value (dec_digits f n) = n.
Proof.
  revert n. induction f as [|f IH]; intros n Hn Hf; [lia|]. simpl.
  destruct (Z.ltb_spec n 10).
  - unfold digits_value. simpl. lia.
  - rewrite digits_value_app, IH.
    + pose proof (Z.div_mod n 10 ltac:(lia)). lia.
    + apply Z.div_pos; lia.
    + assert (n / 10 < n) by (apply Z.div_lt; lia). lia.
Qed.

Lemma fmt06_value (n : Z) : 0 <= n -> digits_value (fmt06 n) = n.
Proof.
  intros Hn. unfold fmt06, py_str_int. rewrite digits_value_zeros.
  apply dec_digits_value; lia.
Qed.

Lemma fmt06_inj (a b : Z) : 0 <= a -> 0 <= b -> fmt06 a = fmt06 b -> a = b.
Proof.
  intros Ha Hb E. rewrite <- (fmt06_value a Ha), <- (fmt06_value b Hb), E. done.
Qed.

(* ---- the chunk loop of main ---- *)

Lemma SSorted_snoc {A} (R : A -> A -> Prop) (l : list A) (x : A) :
  StronglySorted R l -> Forall (fun y => R y x) l -> StronglySorted R (l ++ [x]).
Proof.
  induction l as [|a l IH]; intros Hs Hf; simpl.
  - constructor; [constructor | constructor].
  - inversion Hs as [|? ? Hs' Ha]; subst. inversion Hf as [|? ? Hax Hf']; subst.
    constructor; [by apply IH|]. apply Forall_app. split; [done|]. by constructor.
Qed.

Lemma lex_lt_trans (a b c : Z * Z) : lex_lt a b -> lex_lt b c -> lex_lt a c.
Proof. unfold lex_lt. lia. Qed.

Lemma ids_contiguous_snoc (out : list chunk_rec) (r : chunk_rec) :
  ids_contiguous out -> chunk_id r = fmt06 (Z.of_nat (length out)) ->
  ids_contiguous (out ++ [r]).
Proof.
  unfold ids_contiguous. intros H Hr.
  rewrite length_app, Nat.add_1_r, seq_S, !map_app, H. simpl. by rewrite Hr.
Qed.

Section Loop.
Variables (text : str) (vol : Z) (vtitle : str) (L O : Z).

Lemma emit_parts_inv (m ci : Z) (t : str) (k : Z) (cs : list window)
    (out : list chunk_rec) (cid : Z) :
  ids_contiguous out -> cid = Z.of_nat (length out) ->
  StronglySorted lex_lt (map chunk_key out) ->
  Forall (fun r => lex_lt (chunk_key r) (ci, k)) out ->
  let res := emit_parts vol vtitle m ci t k cs out cid in
  ids_contiguous res.1 /\ res.2 = Z.of_nat (length res.1) /\
  StronglySorted lex_lt (map chunk_key res.1) /\
  Forall (fun r => chapter_index r <= ci) res.1.
Proof.
  revert k out cid. induction cs as [|c cs IH]; intros k out cid Hid Hcid Hs Hb; simpl.
  - split_and!; try done. eapply Forall_impl; [exact Hb|]. intros r. unfold lex_lt. simpl. lia.
  - set (r := mkChunk _ _ _ _ _ _ _ _ _).
    assert (Hid' : ids_contiguous (out ++ [r])) by (apply ids_contiguous_snoc; subst; done).
    assert (Hcid' : cid + 1 = Z.of_nat (length (out ++ [r]))) by (rewrite length_app; simpl; lia).
    assert (Hs' : StronglySorted lex_lt (map chunk_key (out ++ [r]))).
    { rewrite map_app. apply SSorted_snoc; [done|]. apply Forall_map. done. }
    assert (Hb' : Forall (fun r' => lex_lt (chunk_key r') (ci, k + 1)) (out ++ [r])).
    { apply Forall_app. split.
      - eapply Forall_impl; [exact Hb|]. intros r'. unfold lex_lt. simpl. lia.
      - constructor; [|constructor]. unfold lex_lt. simpl. lia. }
    destruct (cap_reached m (out ++ [r])); simpl.
    + split_and!; try done. eapply Forall_impl; [exact Hb'|]. intros r'. unfold lex_lt. simpl. lia.
    + apply IH; done.
Qed.

Lemma emit_chapters_inv (m ci : Z) (spans : list (str * Z * Z)) (out : list chunk_rec) (cid : Z) :
  ids_contiguous out -> cid = Z.of_nat (length out) ->
  StronglySorted lex_lt (map chunk_key out) ->
  Forall (fun r => chapter_index r < ci) out ->
  let res := emit_chapters text vol vtitle L O m ci spans out cid in
  ids_contiguous res /\ StronglySorted lex_lt (map chunk_key res).
Proof.
  revert ci out cid. induction spans as [|[[t s] e] spans IH]; intros ci out cid Hid Hcid Hs Hb; simpl.
  - done.
  - destruct (emit_parts vol vtitle m ci t 1 _ out cid) as [o1 c1] eqn:E.
    pose proof (emit_parts_inv m ci t 1 (_chunk_text (strip (py_slice text s e)) L O) out cid
                  Hid Hcid Hs) as Hinv.
    rewrite E in Hinv. simpl in Hinv.
    destruct Hinv as (Hid1 & Hc1 & Hs1 & Hb1).
    { eapply Forall_impl; [exact Hb|]. intros r. unfold lex_lt. simpl. lia. }
    destruct (cap_reached m o1); [done|].
    apply IH; try done. eapply Forall_impl; [exact Hb1|]. simpl. lia.
Qed.

Lemma emit_parts_extends (m ci : Z) (t : str) (k : Z) (cs : list window)
    (out : list chunk_rec) (cid : Z) :
  out `prefix_of` (emit_parts vol vtitle m ci t k cs out cid).1.
Proof.
  revert k out cid. induction cs as [|c cs IH]; intros k out cid; simpl; [done|].
  destruct (cap_reached m _); simpl.
  - eexists. reflexivity.
  - etrans; [|apply IH]. eexists. reflexivity.
Qed.

Lemma emit_chapters_extends (m ci : Z) (spans : list (str * Z * Z)) (out : list chunk_rec) (cid : Z) :
  out `prefix_of` emit_chapters text vol vtitle L O m ci spans out cid.
Proof.
  revert ci out cid. induction spans as [|[[t s] e] spans IH]; intros ci out cid; simpl; [done|].
  pose proof (emit_parts_extends m ci t 1 (_chunk_text (strip (py_slice text s e)) L O) out cid) as He.
  destruct (emit_parts vol vtitle m ci t 1 _ out cid) as [o1 c1]. simpl in He.
  destruct (cap_reached m o1); [done|]. etrans; [exact He | apply IH].
Qed.

Lemma cap_reached_0 (out : list chunk_rec) : cap_reached 0 out = false.
Proof. done. Qed.

(* The chunk cap only cuts the inner loop short. *)
Lemma emit_parts_cap (m ci : Z) (t : str) (k : Z) (cs : list window)
    (out : list chunk_rec) (cid : Z) :
  emit_parts vol vtitle m ci t k cs out cid = emit_parts vol vtitle 0 ci t k cs out cid \/
  (cap_reached m (emit_parts vol vtitle m ci t k cs out cid).1 = true /\
   (emit_parts vol vtitle m ci t k cs out cid).1 `prefix_of`
   (emit_parts vol vtitle 0 ci t k cs out cid).1).
Proof.
  revert k out cid. induction cs as [|c cs IH]; intros k out cid; simpl; [by left|].
  rewrite ?cap_reached_0.
  destruct (cap_reached m _) eqn:Ec; simpl.
  - right. split; [done|]. apply emit_parts_extends.
  - apply IH.
Qed.

Lemma emit_chapters_cap (m ci : Z) (spans : list (str * Z * Z)) (out : list chunk_rec) (cid : Z) :
  emit_chapters text vol vtitle L O m ci spans out cid `prefix_of`
  emit_chapters text vol vtitle L O 0 ci spans out cid.
Proof.
  revert ci out cid. induction spans as [|[[t s] e] spans IH]; intros ci out cid; simpl; [done|].
  set (cs := _chunk_text (strip (py_slice text s e)) L O).
  destruct (emit_parts_cap m ci t 1 cs out cid) as [Eq | [Hc Hp]].
  - rewrite Eq. destruct (emit_parts vol vtitle 0 ci t 1 cs out cid) as [o0 c0].
    rewrite ?cap_reached_0.
    destruct (cap_reached m o0); [apply emit_chapters_extends | apply IH].
  - destruct (emit_parts vol vtitle m ci t 1 cs out cid) as [o1 c1]. simpl in Hc, Hp.
    rewrite Hc.
    destruct (emit_parts vol vtitle 0 ci t 1 cs out cid) as [o0 c0]. simpl in Hp.
    rewrite ?cap_reached_0.
    etrans; [exact Hp | apply emit_chapters_extends].
Qed.

(* The chapter cap only drops trailing chapters. *)
Lemma emit_chapters_firstn (n : nat) (ci : Z) (spans : list (str * Z * Z))
    (out : list chunk_rec) (cid : Z) :
  emit_chapters text vol vtitle L O 0 ci (firstn n spans) out cid `prefix_of`
  emit_chapters text vol vtitle L O 0 ci spans out cid.
Proof.
  revert n ci out cid. induction spans as [|[[t s] e] spans IH]; intros n ci out cid.
  - rewrite firstn_nil. done.
  - destruct n as [|n]; simpl.
    + apply (emit_chapters_extends 0 ci ((t, s, e) :: spans)).
    + destruct (emit_parts vol vtitle 0 ci t 1 _ out cid) as [o0 c0].
      rewrite ?cap_reached_0. apply IH.
Qed.

End Loop.

(** C7: across one run of the chunk loop of main, with any chapter cap and
    any chunk cap, the emitted chunks are a prefix of those of the uncapped
    run (truncation stops emission and never renumbers); their chunk_ids
    are f"{0:06d}", f"{1:06d}", ... in order, hence unique; and their
    (chapter_index, part_index) pairs are strictly increasing. *)
Theorem chunk_ids_contiguous (text : str) (vol : Z) (vtitle : str) (L O max_chunks max_chapters : Z)
    (spans : list (str * Z * Z)) :
  chunker_out text vol vtitle L O max_chunks max_chapters spans `prefix_of`
    chunker_out text vol vtitle L O 0 0 spans /\
  ids_contiguous (chunker_out text vol vtitle L O max_chunks max_chapters spans) /\
  NoDup (map chunk_id (chunker_out text vol vtitle L O max_chunks max_chapters spans)) /\
  StronglySorted lex_lt (map chunk_key (chunker_out text vol vtitle L O max_chunks max_chapters spans)).
Proof.
  unfold chunker_out.
  set (sp := apply_max_chapters max_chapters spans).
  destruct (emit_chapters_inv text vol vtitle L O max_chunks 1 sp [] 0) as [Hid Hs];
    [done | done | constructor | constructor |].
  split_and!.
  - etrans; [apply emit_chapters_cap|].
    unfold sp, apply_max_chapters. simpl.
    destruct (0 <? max_chapters); [apply emit_chapters_firstn | done].
  - exact Hid.
  - rewrite Hid. apply NoDup_ListNoDup, NoDup_map_NoDup_ForallPairs; [|apply seq_NoDup].
    intros a b _ _ E. apply fmt06_inj in E; lia.
  - exact Hs.
Qed.

End ChunkerFacts.

(* ===================================================================== *)
(* Proofs: the Relation Deduplicator                                       *)
(* ===================================================================== *)

Module RelationFacts.
Import Alias Relations.

Section Facts.
Context {flt : Type} (py_gt : flt -> flt -> bool) (half : flt) (amap : gmap str str).

Local Abbreviation dd := (dedup py_gt half amap).
Local Abbreviation key := (mention_key amap).
Local Abbreviation step := (rel_step py_gt half amap).

Lemma dedup_snoc (rows : list (row_meta * @rel_mention flt)) (x : row_meta * rel_mention) :
  dd (rows ++ [x]) = step (dd rows) x.
Proof. unfold dedup. apply fold_left_app. Qed.

Lemma rel_step_fst (m : gmap rel_key (@relation_rec flt)) (log : list log_entry) (meta : row_meta) (r : @rel_mention flt) :
  (step (m, log) (meta, r)).1 =
  <[key r := attach_ev (mention_ev meta r)
       (match m !! key r with
        | None => let '(a, b, t, status) := key r in
                  mkRelation a b t status (parse_conf half r) (_norm_name (r_notes r)) (m_chunk_id meta) []
        | Some it => set_confidence (py_max py_gt (confidence it) (parse_conf half r)) it
        end)]> m.
Proof. done. Qed.

Lemma rel_step_snd (m : gmap rel_key (@relation_rec flt)) (log : list log_entry) (meta : row_meta) (r : @rel_mention flt) :
  (step (m, log) (meta, r)).2 = log ++ log_ev (key r) (mention_ev meta r).
Proof. done. Qed.

Lemma attach_ev_fields (oev : option ev_obj) (it : @relation_rec flt) :
  rel_from (attach_ev oev it) = rel_from it /\ rel_to (attach_ev oev it) = rel_to it /\
  rel_type (attach_ev oev it) = rel_type it /\ rel_status (attach_ev oev it) = rel_status it /\
  confidence (attach_ev oev it) = confidence it /\ notes (attach_ev oev it) = notes it /\
  first_seen_chunk (attach_ev oev it) = first_seen_chunk it /\
  evidence (attach_ev oev it) = evidence it ++ option_list oev.
Proof. destruct oev; simpl; rewrite ?app_nil_r; done. Qed.

Lemma dedup_none (rows : list (row_meta * @rel_mention flt)) (k : rel_key) :
  (dd rows).1 !! k = None <-> Forall (fun x => key x.2 <> k) rows.
Proof.
  induction rows as [|[meta r] rows IH] using rev_ind.
  - split; [constructor | done].
  - rewrite dedup_snoc, Forall_app, Forall_singleton.
    destruct (dd rows) as [m log]. simpl in IH. rewrite rel_step_fst. simpl.
    destruct (decide (key r = k)) as [<-|Hne].
    + rewrite lookup_insert_eq. split; [discriminate | tauto].
    + rewrite lookup_insert_ne by done. rewrite IH. tauto.
Qed.

Lemma evidence_for_none (rows : list (row_meta * @rel_mention flt)) (k : rel_key) :
  Forall (fun x => key x.2 <> k) rows -> evidence_for amap k rows = [].
Proof.
  induction rows as [|[meta r] rows IH]; [done|]. intros Hf.
  inversion Hf; subst. simpl. rewrite decide_False by done. simpl. by apply IH.
Qed.

Lemma evidence_for_snoc (rows : list (row_meta * @rel_mention flt)) (k : rel_key) (meta : row_meta) (r : @rel_mention flt) :
  evidence_for amap k (rows ++ [(meta, r)]) =
  evidence_for amap k rows ++ (if decide (key r = k) then option_list (mention_ev meta r) else []).
Proof. unfold evidence_for. rewrite flat_map_app. simpl. by rewrite app_nil_r. Qed.

(* The stored relation_rec for a key comes from the first mention with that
   key: its endpoints, type, status, notes and first_seen_chunk. *)
Lemma dedup_first (rows : list (row_meta * @rel_mention flt)) (k : rel_key) (it : @relation_rec flt) :
  (dd rows).1 !! k = Some it ->
  exists pre meta r suf, rows = pre ++ (meta, r) :: suf /\ key r = k /\
    Forall (fun x => key x.2 <> k) pre /\
    first_seen_chunk it = m_chunk_id meta /\ notes it = _norm_name (r_notes r) /\
    (rel_from it, rel_to it, rel_type it, rel_status it) = k.
Proof.
  revert it. induction rows as [|[meta r] rows IH] using rev_ind; intros it Hit.
  - done.
  - rewrite dedup_snoc in Hit.
    pose proof (dedup_none rows k) as Hnone.
    destruct (dd rows) as [m log]. simpl in IH, Hnone.
    rewrite rel_step_fst in Hit. simpl in Hit.
    destruct (decide (key r = k)) as [Hk|Hne].
    + subst k. rewrite lookup_insert_eq in Hit. injection Hit as <-.
      destruct (m !! key r) as [it0|] eqn:Em.
      * destruct (IH it0 eq_refl) as (pre & meta' & r' & suf & -> & Hk' & Hpre & Hc & Hn & Hkey).
        exists pre, meta', r', (suf ++ [(meta, r)]).
        rewrite <- app_assoc. destruct (mention_ev meta r); simpl; split_and!; done.
      * exists rows, meta, r, [].
        assert (Hpre : Forall (fun x => key x.2 <> key r) rows) by by apply Hnone.
        destruct (mention_ev meta r); simpl; split_and!; try done;
          destruct (key r) as [[[a b] t] st]; done.
    + rewrite lookup_insert_ne in Hit by done.
      destruct (IH it Hit) as (pre & meta' & r' & suf & -> & Hk' & Hpre & Hc & Hn & Hkey).
      exists pre, meta', r', (suf ++ [(meta, r)]). split_and!; try done.
      by rewrite <- app_assoc.
Qed.

Lemma dedup_evidence (rows : list (row_meta * @rel_mention flt)) (k : rel_key) (it : @relation_rec flt) :
  (dd rows).1 !! k = Some it -> evidence it = evidence_for amap k rows.
Proof.
  revert it. induction rows as [|[meta r] rows IH] using rev_ind; intros it Hit; [done|].
  rewrite dedup_snoc in Hit. rewrite evidence_for_snoc.
  pose proof (dedup_none rows k) as Hnone.
  destruct (dd rows) as [m log]. simpl in IH, Hnone.
  rewrite rel_step_fst in Hit. simpl in Hit.
  destruct (decide (key r = k)) as [Hk|Hne].
  - subst k. rewrite lookup_insert_eq in Hit. injection Hit as <-.
    rewrite (proj2 (proj2 (proj2 (proj2 (proj2 (proj2 (proj2 (attach_ev_fields _ _)))))))).
    destruct (m !! key r) as [it0|] eqn:Em.
    + simpl. f_equal. by apply IH.
    + rewrite evidence_for_none by by apply Hnone.
      destruct (key r) as [[[a b] t] st]. done.
  - rewrite lookup_insert_ne in Hit by done. rewrite app_nil_r. by apply IH.
Qed.

Lemma dedup_log (rows : list (row_meta * @rel_mention flt)) : (dd rows).2 = evidence_lines amap rows.
Proof.
  induction rows as [|[meta r] rows IH] using rev_ind; [done|].
  rewrite dedup_snoc. destruct (dd rows) as [m log]. simpl in IH. subst log.
  rewrite rel_step_snd. unfold evidence_lines. rewrite flat_map_app. simpl. by rewrite app_nil_r.
Qed.

Lemma evidence_lines_filter (rows : list (row_meta * @rel_mention flt)) (k : rel_key) :
  map snd (filter (fun e : log_entry => e.1 = k) (evidence_lines amap rows)) = evidence_for amap k rows.
Proof.
  induction rows as [|[meta r] rows IH]; [done|].
  unfold evidence_lines, evidence_for in *. simpl.
  rewrite filter_app, map_app. f_equal; [|exact IH].
  destruct (mention_ev meta r) as [ev|]; simpl.
  - rewrite filter_cons. repeat case_decide; simpl; try done; contradiction.
  - case_decide; done.
Qed.

(** C4 (amended): when a mention's key (from, to, type, status) collides
    with a stored Relation, the resulting confidence is
    max(existing confidence, incoming confidence) and the notes are left
    unchanged; the notes of a Relation are the normalised notes of the first
    mention with its key, in input order, even when those are empty (later
    non-empty notes are not taken, and notes are never concatenated). *)
Theorem relation_merge_collision (rows : list (row_meta * @rel_mention flt)) (k : rel_key)
    (it : @relation_rec flt) :
  (dd rows).1 !! k = Some it ->
  (exists pre meta r suf, rows = pre ++ (meta, r) :: suf /\ key r = k /\
     Forall (fun x => key x.2 <> k) pre /\ notes it = _norm_name (r_notes r)) /\
  (forall meta r, key r = k ->
     exists it', (dd (rows ++ [(meta, r)])).1 !! k = Some it' /\
       confidence it' = py_max py_gt (confidence it) (parse_conf half r) /\
       notes it' = notes it).
Proof.
  intros Hit. split.
  - destruct (dedup_first rows k it Hit) as (pre & meta & r & suf & Hrows & Hk & Hpre & _ & Hn & _).
    exists pre, meta, r, suf. done.
  - intros meta r Hk. subst k. rewrite dedup_snoc.
    destruct (dd rows) as [m log]. simpl in Hit. rewrite rel_step_fst, lookup_insert_eq, Hit.
    eexists. split; [reflexivity|].
    destruct (attach_ev_fields (mention_ev meta r) (set_confidence (py_max py_gt (confidence it) (parse_conf half r)) it))
      as (_ & _ & _ & _ & Ec & En & _).
    rewrite Ec, En. done.
Qed.

(** C6 (amended): the evidence log holds, in input order, one line
    {key, chunk_id, chapter_title, quote, span} for every processed mention
    whose normalised evidence quote is non-empty, with the quote cut to its
    first 120 characters (mentions without a quote write nothing); the log
    is not capped: for every key, its log lines are exactly the Relation's
    full evidence list, of which the reported Relation keeps the first 12,
    so evidence dropped by the cap is still in the log. *)
Theorem evidence_log_complete (rows : list (row_meta * @rel_mention flt)) :
  (dd rows).2 = flat_map (fun '(meta, r) => log_ev (key r) (mention_ev meta r)) rows /\
  (forall k it, (dd rows).1 !! k = Some it ->
     map snd (filter (fun e : log_entry => e.1 = k) (dd rows).2) = evidence it /\
     relations_out py_gt half amap rows !! k = Some (set_evidence (firstn 12 (evidence it)) it)).
Proof.
  split.
  - apply dedup_log.
  - intros k it Hit. split.
    + rewrite dedup_log, evidence_lines_filter. symmetry. by apply dedup_evidence.
    + unfold relations_out, cap_evidence. rewrite lookup_fmap. fold (dd rows). rewrite Hit. done.
Qed.

(** C9: the first_seen_chunk of a stored Relation is the chunk_id of the
    earliest mention with its key, in input order (set when the key is
    created), and processing any further mention of that key stores the
    same Relation with only its confidence updated and its evidence
    extended, so first_seen_chunk (like from, to, type, status and notes)
    is never modified; relations of other keys are untouched. *)
Theorem first_seen_chunk_frame (rows : list (row_meta * @rel_mention flt)) (k : rel_key)
    (it : @relation_rec flt) :
  (dd rows).1 !! k = Some it ->
  (exists pre meta r suf, rows = pre ++ (meta, r) :: suf /\ key r = k /\
     Forall (fun x => key x.2 <> k) pre /\ first_seen_chunk it = m_chunk_id meta) /\
  (forall meta r, (dd (rows ++ [(meta, r)])).1 !! k =
     Some (if decide (key r = k)
           then attach_ev (mention_ev meta r) (set_confidence (py_max py_gt (confidence it) (parse_conf half r)) it)
           else it)) /\
  (forall meta r, first_seen_chunk <$> (dd (rows ++ [(meta, r)])).1 !! k = Some (first_seen_chunk it)).
Proof.
  intros Hit.
  assert (Hstep : forall meta r, (dd (rows ++ [(meta, r)])).1 !! k =
     Some (if decide (key r = k)
           then attach_ev (mention_ev meta r) (set_confidence (py_max py_gt (confidence it) (parse_conf half r)) it)
           else it)).
  { intros meta r. rewrite dedup_snoc.
    destruct (dd rows) as [m log]. simpl in Hit. rewrite rel_step_fst.
    destruct (decide (key r = k)) as [<-|Hne].
    - rewrite lookup_insert_eq, Hit. done.
    - rewrite lookup_insert_ne by done. done. }
  split_and!.
  - destruct (dedup_first rows k it Hit) as (pre & meta & r & suf & Hrows & Hk & Hpre & Hc & _).
    exists pre, meta, r, suf. done.
  - exact Hstep.
  - intros meta r. rewrite Hstep. simpl. case_decide; [|done].
    rewrite (proj1 (proj2 (proj2 (proj2 (proj2 (proj2 (proj2 (attach_ev_fields _ _)))))))). done.
Qed.

Section Order.
(* IEEE > is irreflexive and transitive, NaN included. *)
Hypothesis py_gt_irrefl : forall a, py_gt a a = false.
Hypothesis py_gt_trans : forall a b c, py_gt a b = true -> py_gt b c = true -> py_gt a c = true.

(* The stored confidence is never exceeded by a mention of its key. *)
Lemma dedup_conf_absorbs (rows : list (row_meta * @rel_mention flt)) (k : rel_key) (it : @relation_rec flt) :
  (dd rows).1 !! k = Some it ->
  Forall (fun x => key x.2 = k -> py_gt (parse_conf half x.2) (confidence it) = false) rows.
Proof.
  revert it. induction rows as [|[meta r] rows IH] using rev_ind; intros it Hit; [done|].
  rewrite dedup_snoc in Hit.
  pose proof (dedup_none rows k) as Hnone.
  destruct (dd rows) as [m log]. simpl in IH, Hnone.
  rewrite rel_step_fst in Hit. simpl in Hit.
  apply Forall_app. rewrite Forall_singleton. simpl.
  destruct (decide (key r = k)) as [Hk|Hne].
  - subst k. rewrite lookup_insert_eq in Hit. injection Hit as <-.
    rewrite (proj1 (proj2 (proj2 (proj2 (proj2 (attach_ev_fields _ _)))))).
    destruct (m !! key r) as [it0|] eqn:Em.
    + simpl. specialize (IH it0 eq_refl). unfold py_max.
      destruct (py_gt (parse_conf half r) (confidence it0)) eqn:Eg.
      * split; [|intros _; apply py_gt_irrefl].
        eapply Forall_impl; [exact IH|]. intros [meta' r'] Himp Hk'. simpl in *.
        specialize (Himp Hk'). destruct (py_gt (parse_conf half r') (parse_conf half r)) eqn:E'; [|done].
        rewrite (py_gt_trans _ _ _ E' Eg) in Himp. discriminate.
      * split; [exact IH | intros _; exact Eg].
    + split.
      * eapply Forall_impl; [apply (proj1 Hnone eq_refl)|]. intros x Hx Hx'. done.
      * destruct (key r) as [[[a b] t] st]. intros _. apply py_gt_irrefl.
  - rewrite lookup_insert_ne in Hit by done. split; [by apply IH | done].
Qed.

(* A second pass over mentions whose keys are all stored, with stored
   confidences that none of them exceeds, only appends evidence. *)
Lemma second_pass (rows : list (row_meta * @rel_mention flt)) (m : gmap rel_key (@relation_rec flt))
    (log : list log_entry) :
  (forall x, x ∈ rows -> exists it, m !! key x.2 = Some it /\
     py_gt (parse_conf half x.2) (confidence it) = false) ->
  (forall k, (fold_left step rows (m, log)).1 !! k =
     (fun it => set_evidence (evidence it ++ evidence_for amap k rows) it) <$> m !! k) /\
  (fold_left step rows (m, log)).2 = log ++ evidence_lines amap rows.
Proof.
  revert m log. induction rows as [|[meta r] rows IH]; intros m log Hall.
  - simpl. split; [|by rewrite app_nil_r].
    intros k. destruct (m !! k) as [[]|]; simpl; rewrite ?app_nil_r; done.
  - change (fold_left step ((meta, r) :: rows) (m, log))
      with (fold_left step rows (step (m, log) (meta, r))).
    destruct (Hall (meta, r) ltac:(left)) as [it [Hit Hg]]. simpl in Hit, Hg.
    assert (Hst : step (m, log) (meta, r) =
      (<[key r := attach_ev (mention_ev meta r) it]> m, log ++ log_ev (key r) (mention_ev meta r))).
    { unfold rel_step. simpl. rewrite Hit. unfold py_max. rewrite Hg.
      destruct it; done. }
    rewrite Hst.
    destruct (IH (<[key r := attach_ev (mention_ev meta r) it]> m) (log ++ log_ev (key r) (mention_ev meta r)))
      as [IH1 IH2].
    { intros x Hx. destruct (Hall x ltac:(right; exact Hx)) as [it' [Hit' Hg']].
      destruct (decide (key r = key x.2)) as [E|E].
      - rewrite E in *. rewrite lookup_insert_eq. eexists. split; [done|].
        rewrite Hit in Hit'. injection Hit' as <-.
        rewrite (proj1 (proj2 (proj2 (proj2 (proj2 (attach_ev_fields _ _)))))). done.
      - rewrite lookup_insert_ne by done. eauto. }
    split.
    + intros k. rewrite IH1. unfold evidence_for. simpl.
      destruct (decide (key r = k)) as [<-|Hne].
      * rewrite lookup_insert_eq, Hit. simpl.
        rewrite (proj2 (proj2 (proj2 (proj2 (proj2 (proj2 (proj2 (attach_ev_fields _ _)))))))).
        rewrite <- app_assoc. destruct (mention_ev meta r); destruct it; done.
      * rewrite lookup_insert_ne by done. done.
    + rewrite IH2. unfold evidence_lines. simpl. by rewrite app_assoc.
Qed.

(** C5 (amended): processing the mentions L ++ L gives the same relation
    keys and, for every key, the same from, to, type, status, confidence,
    notes and first_seen_chunk as processing L once; the uncapped evidence
    list of each relation is its once-list repeated twice (so the reported
    evidence is the first 12 items of that doubled list) and the evidence
    log is written twice. *)
Theorem relation_merge_duplication (rows : list (row_meta * @rel_mention flt)) :
  (dd (rows ++ rows)).1 = (fun it => set_evidence (evidence it ++ evidence it) it) <$> (dd rows).1 /\
  (dd (rows ++ rows)).2 = (dd rows).2 ++ (dd rows).2 /\
  relations_out py_gt half amap (rows ++ rows) =
    (fun it => set_evidence (firstn 12 (evidence it ++ evidence it)) it) <$> (dd rows).1.
Proof.
  assert (Hpass : (forall k, (dd (rows ++ rows)).1 !! k =
            (fun it => set_evidence (evidence it ++ evidence_for amap k rows) it) <$> (dd rows).1 !! k) /\
          (dd (rows ++ rows)).2 = (dd rows).2 ++ evidence_lines amap rows).
  { assert (Hsplit : dd (rows ++ rows) = fold_left step rows (dd rows))
      by (unfold dedup; apply fold_left_app).
    rewrite Hsplit. destruct (dd rows) as [m log] eqn:Ed. simpl.
    apply second_pass. intros [meta r] Hx. simpl.
    destruct (m !! key r) as [it|] eqn:Em.
    - exists it. split; [done|].
      assert (Hm : (dd rows).1 !! key r = Some it) by (rewrite Ed; done).
      pose proof (dedup_conf_absorbs rows (key r) it Hm) as Ha.
      rewrite Forall_forall in Ha. apply (Ha (meta, r)); [done | done].
    - assert (Hm : (dd rows).1 !! key r = None) by (rewrite Ed; done).
      apply dedup_none in Hm. rewrite Forall_forall in Hm.
      exfalso. apply (Hm (meta, r)); [done | done]. }
  destruct Hpass as [H1 H2].
  assert (Hmap : (dd (rows ++ rows)).1 = (fun it => set_evidence (evidence it ++ evidence it) it) <$> (dd rows).1).
  { apply map_eq. intros k. rewrite H1, lookup_fmap.
    destruct ((dd rows).1 !! k) as [it|] eqn:Ek; [|done]. simpl.
    rewrite (dedup_evidence rows k it Ek). done. }
  split_and!.
  - exact Hmap.
  - rewrite H2, <- dedup_log. done.
  - unfold relations_out, cap_evidence. fold (dd (rows ++ rows)). rewrite Hmap.
    apply map_eq. intros k. rewrite !lookup_fmap.
    destruct ((dd rows).1 !! k); done.
Qed.

End Order.

End Facts.

Import Samples.

Lemma Zgtb_irrefl (a : Z) : Z.gtb a a = false.
Proof. rewrite Z.gtb_ltb. apply Z.ltb_irrefl. Qed.

Lemma Zgtb_trans (a b c : Z) : Z.gtb a b = true -> Z.gtb b c = true -> Z.gtb a c = true.
Proof. rewrite !Z.gtb_ltb, !Z.ltb_lt. lia. Qed.

Lemma dedup_rows0 : (dedup Z.gtb 0 ∅ rows0).1 !! key0 = Some item0.
Proof. vm_compute. reflexivity. Qed.

Lemma relation_merge_collision_witness :
  exists it', (dedup Z.gtb 0 ∅ (rows0 ++ [(meta1, rel1)])).1 !! key0 = Some it' /\
    confidence it' = py_max Z.gtb (confidence item0) (parse_conf 0 rel1) /\
    notes it' = notes item0.
Proof.
  apply (proj2 (relation_merge_collision Z.gtb 0 ∅ rows0 key0 item0 dedup_rows0)).
  vm_compute. reflexivity.
Defined.

(** C4 counterexample: the mention "A"->"B" with empty notes followed by one
    with notes "n": the stored Relation keeps the empty notes, not the
    first non-empty value "n". *)
Lemma relation_merge_collision_counterexample :
  notes <$> (dedup Z.gtb 0 ∅ [(meta0, rel0); (meta1, rel1)]).1 !! key0 = Some [] /\
  _norm_name (r_notes rel1) = [110].
Proof. split; vm_compute; reflexivity. Qed.

Lemma relation_merge_duplication_witness :
  (dedup Z.gtb 0 ∅ (rows0 ++ rows0)).2 = (dedup Z.gtb 0 ∅ rows0).2 ++ (dedup Z.gtb 0 ∅ rows0).2.
Proof.
  apply (proj1 (proj2 (relation_merge_duplication Z.gtb 0 ∅ Zgtb_irrefl Zgtb_trans rows0))).
Defined.

(** C5 counterexample: processing the single mention rows0 twice reports
    the evidence item "q" twice for key ("A", "B", "t", "s"), processing it
    once reports it once. *)
Lemma relation_merge_duplication_counterexample :
  relations_out Z.gtb 0 ∅ (rows0 ++ rows0) <> relations_out Z.gtb 0 ∅ rows0.
Proof.
  intros E. apply (f_equal (fun m => length <$> (evidence <$> m !! key0))) in E.
  vm_compute in E. discriminate.
Qed.

(** C6 counterexample: of the two mentions below, the one without a quote
    writes no line to the evidence log, and the 121-character quote of the
    other is written cut to 120 characters. *)
Lemma evidence_log_complete_counterexample :
  length (dedup Z.gtb 0 ∅ [(meta0, rel1); (meta0, rel2)]).2 = 1%nat /\
  map (fun e => length (ev_quote e.2)) (dedup Z.gtb 0 ∅ [(meta0, rel1); (meta0, rel2)]).2 = [120%nat] /\
  length (r_quote rel2) = 121%nat.
Proof. split_and!; vm_compute; reflexivity. Qed.

Lemma first_seen_chunk_frame_witness :
  first_seen_chunk <$> (dedup Z.gtb 0 ∅ (rows0 ++ [(meta1, rel1)])).1 !! key0 = Some (first_seen_chunk item0).
Proof.
  apply (proj2 (proj2 (first_seen_chunk_frame Z.gtb 0 ∅ rows0 key0 item0 dedup_rows0))).
Defined.

End RelationFacts.

(* ===================================================================== *)
(* Proofs: alias resolution                                                *)
(* ===================================================================== *)

Module AliasFacts.
Import Alias.

Lemma lstrip_suffix (s : str) : exists p, s = p ++ lstrip s.
Proof.
  induction s as [|c s [p Hp]]; simpl.
  - by exists [].
  - destruct (py_isspace c).
    + exists (c :: p). simpl. by rewrite <- Hp.
    + by exists [].
Qed.

Lemma lstrip_head (s : str) :
  match lstrip s with [] => True | c :: _ => py_isspace c = false end.
Proof.
  induction s as [|c s IH]; simpl; [done|].
  destruct (py_isspace c) eqn:E; [done|]. simpl. exact E.
Qed.

Lemma lstrip_nospace (s : str) :
  match s with [] => True | c :: _ => py_isspace c = false end -> lstrip s = s.
Proof. destruct s as [|c s]; simpl; [done|]. intros H. by rewrite H. Qed.

Lemma lstrip_idem (s : str) : lstrip (lstrip s) = lstrip s.
Proof. apply lstrip_nospace, lstrip_head. Qed.

Lemma strip_idem (s : str) : strip (strip s) = strip s.
Proof.
  unfold strip, rstrip.
  set (a := lstrip s).
  set (b := lstrip (rev a)).
  destruct (lstrip_suffix (rev a)) as [p Hp]. fold b in Hp.
  assert (Ha : a = rev b ++ rev p).
  { rewrite <- rev_app_distr, <- Hp. by rewrite rev_involutive. }
  assert (Hb : lstrip (rev b) = rev b).
  { apply lstrip_nospace. pose proof (lstrip_head s) as Hh. fold a in Hh.
    rewrite Ha in Hh. destruct (rev b); simpl in *; done. }
  rewrite Hb, rev_involutive. unfold b. by rewrite lstrip_idem.
Qed.

Lemma lstrip_Forall (P : Z -> Prop) (s : str) : Forall P s -> Forall P (lstrip s).
Proof.
  intros H. destruct (lstrip_suffix s) as [p Hp]. rewrite Hp in H.
  by apply Forall_app in H as [_ H].
Qed.

Lemma strip_Forall (P : Z -> Prop) (s : str) : Forall P s -> Forall P (strip s).
Proof.
  intros H. unfold strip, rstrip.
  apply Forall_rev, lstrip_Forall, Forall_rev, lstrip_Forall, H.
Qed.

Lemma replace1_Forall (s : str) : Forall (fun c => c <> 12288) (replace1 12288 32 s).
Proof.
  induction s as [|c s IH]; simpl; constructor; [|done].
  destruct (Z.eqb_spec c 12288); lia.
Qed.

Lemma replace1_id (s : str) : Forall (fun c => c <> 12288) s -> replace1 12288 32 s = s.
Proof.
  induction s as [|c s IH]; intros H; simpl; [done|].
  inversion H as [|? ? Hc Hs]; subst.
  rewrite (proj2 (Z.eqb_neq c 12288) Hc). f_equal. by apply IH.
Qed.

Lemma norm_name_idem (s : str) : _norm_name (_norm_name s) = _norm_name s.
Proof.
  set (u := _norm_name s).
  assert (Hu : strip u = u) by apply strip_idem.
  assert (Hf : Forall (fun c => c <> 12288) u) by apply strip_Forall, replace1_Forall.
  change (strip (replace1 12288 32 (strip u)) = u).
  by rewrite Hu, replace1_id, Hu.
Qed.

Lemma add_aliases_mono (name : str) (als : list str) (m : gmap str str) k v :
  m !! k = Some v -> add_aliases name als m !! k = Some v.
Proof.
  revert m. induction als as [|a0 als IH]; intros m H; cbn [add_aliases]; [done|].
  apply IH. destruct (_norm_name a0) as [|c cs]; [done|].
  case_match eqn:Em; [done|].
  rewrite lookup_insert_ne; [done|]. intros <-. congruence.
Qed.

Lemma add_aliases_lookup (name : str) (als : list str) (m : gmap str str) k v :
  add_aliases name als m !! k = Some v ->
  m !! k = Some v \/ (v = name /\ k ∈ map _norm_name als).
Proof.
  revert m. induction als as [|a0 als IH]; intros m H; cbn [add_aliases map] in *; [by left|].
  apply IH in H as [H|[-> Hk]]; [|right; split; [done|]; by apply list_elem_of_further].
  destruct (_norm_name a0) as [|c cs] eqn:Ea; [by left|].
  case_match eqn:Em; [by left|].
  destruct (decide (k = c :: cs)) as [->|Hne].
  - rewrite lookup_insert_eq in H. injection H as <-.
    right. split; [done|]. apply list_elem_of_here.
  - rewrite lookup_insert_ne in H; [by left|done].
Qed.

Lemma merge_step_mono (m : gmap str str) (e : entity) k v :
  m !! k = Some v -> merge_step m e !! k = Some v.
Proof.
  intros H. unfold merge_step.
  destruct (_norm_name (e_name e)) as [|c cs]; [done|].
  assert (H1 : (match m !! (c :: cs) with None => <[c :: cs := c :: cs]> m | Some _ => m end)
                 !! k = Some v).
  { case_match eqn:Em; [done|].
    rewrite lookup_insert_ne; [done|]. intros <-. unfold str in *. congruence. }
  destruct (e_aliases e); [by apply add_aliases_mono|done].
Qed.

Lemma merge_step_name (m : gmap str str) (e : entity) :
  _norm_name (e_name e) <> [] -> is_Some (merge_step m e !! _norm_name (e_name e)).
Proof.
  intros Hn. unfold merge_step.
  destruct (_norm_name (e_name e)) as [|c cs]; [done|].
  assert (H1 : is_Some ((match m !! (c :: cs) with
                         | None => <[c :: cs := c :: cs]> m | Some _ => m end) !! (c :: cs))).
  { case_match eqn:Em; [by exists s|]. rewrite lookup_insert_eq. by eexists. }
  destruct H1 as [w Hw].
  destruct (e_aliases e); [exists w; by apply add_aliases_mono|by exists w].
Qed.

Lemma merge_step_lookup (m : gmap str str) (e : entity) k v :
  merge_step m e !! k = Some v ->
  m !! k = Some v \/
  (_norm_name (e_name e) <> [] /\ v = _norm_name (e_name e) /\
   (k = v \/ exists als, e_aliases e = Some als /\ k ∈ map _norm_name als)).
Proof.
  unfold merge_step. intros H. unfold str in *.
  destruct (_norm_name (e_name e)) as [|c cs]; [by left|].
  set (m1 := match m !! (c :: cs) with None => <[c :: cs := c :: cs]> m | Some _ => m end) in H.
  assert (Hm1 : m1 !! k = Some v -> m !! k = Some v \/ (k = c :: cs /\ v = c :: cs)).
  { unfold m1. destruct (m !! (c :: cs)) eqn:Em; [intros; by left|].
    destruct (decide (k = c :: cs)) as [->|Hne].
    - rewrite lookup_insert_eq. intros [= <-]. by right.
    - rewrite lookup_insert_ne; [by left|done]. }
  destruct (e_aliases e) as [als|] eqn:Eal.
  - apply add_aliases_lookup in H as [H|[-> Hk]].
    + apply Hm1 in H as [H|[-> ->]]; [by left|]. right. split_and!; [done|done|by left].
    + right. split_and!; [done|done|]. right. by exists als.
  - apply Hm1 in H as [H|[-> ->]]; [by left|]. right. split_and!; [done|done|by left].
Qed.

Lemma merge_step_inv (seen : list entity) (m : gmap str str) (e : entity) :
  alias_map_inv seen m -> alias_map_inv (seen ++ [e]) (merge_step m e).
Proof.
  intros [Hkey Hsrc]. split.
  - intros k v H. apply merge_step_lookup in H as [H|[Hn [-> _]]].
    + destruct (Hkey k v H) as [w Hw]. exists w. by apply merge_step_mono.
    + by apply merge_step_name.
  - intros k v H. apply merge_step_lookup in H as [H|[Hn [-> Hk]]].
    + destruct (Hsrc k v H) as (e' & He' & Hv & Hk). exists e'.
      split_and!; [apply elem_of_app; by left|done|done].
    + exists e. split_and!; [apply elem_of_app; right; apply list_elem_of_here|done|done].
Qed.

Lemma merge_alias_map_inv (ents : list entity) : alias_map_inv ents (_merge_alias_map ents).
Proof.
  unfold _merge_alias_map.
  assert (Hgen : forall seen m, alias_map_inv seen m ->
            alias_map_inv (seen ++ ents) (fold_left merge_step ents m)).
  { induction ents as [|e ents IH]; intros seen m Hi; simpl.
    - by rewrite app_nil_r.
    - replace (seen ++ e :: ents) with ((seen ++ [e]) ++ ents) by by rewrite <- app_assoc.
      apply IH, merge_step_inv, Hi. }
  apply (Hgen []). split; intros k v H; by rewrite lookup_empty in H.
Qed.

Lemma canon_hit (m : gmap str str) (x v : str) : m !! _norm_name x = Some v -> _canon m x = v.
Proof. intros H. unfold _canon. by rewrite H. Qed.

Lemma canon_miss (m : gmap str str) (x : str) :
  m !! _norm_name x = None -> _canon m x = _norm_name x.
Proof. intros H. unfold _canon. by rewrite H. Qed.

Lemma add_aliases_spec (name : str) (als : list str) (m : gmap str str) (k : str) :
  add_aliases name als m !! k =
  match m !! k with
  | Some v => Some v
  | None => if decide (k <> [] /\ k ∈ map _norm_name als) then Some name else None
  end.
Proof.
  revert m. induction als as [|a0 als IH]; intros m; cbn [add_aliases map].
  - destruct (m !! k); [done|]. rewrite decide_False; [done|]. intros [_ H]. by apply elem_of_nil in H.
  - rewrite IH. unfold str in *. destruct (_norm_name a0) as [|c cs] eqn:Ea.
    + destruct (m !! k); [done|]. repeat case_decide; try done; rewrite elem_of_cons in *; naive_solver.
    + destruct (m !! (c :: cs)) as [w|] eqn:Em.
      * destruct (decide (k = c :: cs)) as [->|Hne]; [by rewrite Em|].
        destruct (m !! k); [done|]. repeat case_decide; try done; rewrite elem_of_cons in *; naive_solver.
      * destruct (decide (k = c :: cs)) as [->|Hne].
        -- rewrite lookup_insert_eq, Em. rewrite decide_True; [done|].
           split; [done|apply list_elem_of_here].
        -- rewrite lookup_insert_ne by congruence. destruct (m !! k); [done|].
           repeat case_decide; try done; rewrite elem_of_cons in *; naive_solver.
Qed.

Lemma merge_step_spec (m : gmap str str) (e : entity) (k : str) :
  merge_step m e !! k =
  match m !! k with
  | Some v => Some v
  | None => if decide (contributes e k) then Some (_norm_name (e_name e)) else None
  end.
Proof.
  unfold merge_step.
  destruct (decide (contributes e k)) as [Hc|Hc]; unfold contributes in Hc; revert Hc;
    unfold str in *; destruct (_norm_name (e_name e)) as [|c cs] eqn:En; intros Hc.
  1: by destruct Hc.
  2: by destruct (m !! k).
  all: set (m1 := match m !! (c :: cs) with None => <[c :: cs := c :: cs]> m | Some _ => m end).
  all: assert (Hm1 : m1 !! k = match m !! k with
                               | Some v => Some v
                               | None => if decide (k = c :: cs) then Some (c :: cs) else None
                               end)
         by (unfold m1; destruct (m !! (c :: cs)) as [w|] eqn:Em;
             [destruct (decide (k = c :: cs)) as [->|Hne]; [by rewrite Em|by destruct (m !! k)]
             |destruct (decide (k = c :: cs)) as [->|Hne];
              [by rewrite lookup_insert_eq, Em
              |rewrite lookup_insert_ne by congruence; by destruct (m !! k)]]).
  all: destruct (e_aliases e) as [als|]; [rewrite add_aliases_spec; unfold str in *|]; rewrite Hm1;
    destruct (m !! k); try done; repeat case_decide; try done; exfalso.
  all: try rewrite elem_of_nil in *.
  all: naive_solver.
Qed.

(* The loop over the mentions: a key is bound by the first mention that
   asks for it, unless it was bound before the loop. *)
Lemma fold_merge_lookup (ents : list entity) (m0 : gmap str str) (k v : str) :
  fold_left merge_step ents m0 !! k = Some v <->
  m0 !! k = Some v \/
  (m0 !! k = None /\ exists pre e post, ents = pre ++ e :: post /\ contributes e k /\
     _norm_name (e_name e) = v /\ Forall (fun e' => ~ contributes e' k) pre).
Proof.
  revert m0. induction ents as [|e ents IH]; intros m0; simpl.
  - split; [by left|]. intros [H|(_ & pre & e & post & Heq & _)]; [done|]. by destruct pre.
  - rewrite IH, merge_step_spec. destruct (m0 !! k) as [w|] eqn:Hk.
    + split; (intros [H|(H & _)]; [by left|discriminate]).
    + case_decide as Hc.
      * split.
        -- intros [H|(H & _)]; [|discriminate]. injection H as <-.
           right. split; [done|]. exists [], e, ents. split_and!; [done|done|done|constructor].
        -- intros [H|(_ & pre & e' & post & Heq & Hc' & Hv & Hf)]; [discriminate|].
           destruct pre as [|e0 pre]; simpl in Heq; injection Heq as <- Heq.
           ++ left. by rewrite Hv.
           ++ by inversion Hf.
      * split.
        -- intros [H|(_ & pre & e' & post & Heq & Hc' & Hv & Hf)]; [discriminate|].
           right. split; [done|]. exists (e :: pre), e', post.
           split_and!; [by rewrite Heq|done|done|by constructor].
        -- intros [H|(_ & pre & e' & post & Heq & Hc' & Hv & Hf)]; [discriminate|].
           destruct pre as [|e0 pre]; simpl in Heq; injection Heq as <- Heq; [done|].
           right. split; [done|]. exists pre, e', post. inversion Hf. by split_and!.
Qed.

(** C1 (amended). For the AliasMap m built by _merge_alias_map from any
    list of entity mentions: every value of m is a key of m; every binding
    k -> v comes from a mention whose normalised primary name is v and
    whose primary name or one of whose aliases is k; more precisely, k is
    bound exactly when some mention asks for it (contributes), and then to
    the normalised primary name of the first mention, in input order, that
    asks for it (first mention wins); and when no primary
    name is listed as an alias by a mention with another primary name,
    every value maps to itself and resolution is idempotent:
    _canon m (_canon m x) = _canon m x for every string x. *)
Theorem alias_resolution_idempotent (ents : list entity) :
  let m := _merge_alias_map ents in
  (forall k v, m !! k = Some v -> is_Some (m !! v)) /\
  (forall k v, m !! k = Some v -> exists e, e ∈ ents /\ _norm_name (e_name e) = v /\
     (k = v \/ exists als, e_aliases e = Some als /\ k ∈ map _norm_name als)) /\
  (forall k v, m !! k = Some v <->
     exists pre e post, ents = pre ++ e :: post /\ contributes e k /\
       _norm_name (e_name e) = v /\ Forall (fun e' => ~ contributes e' k) pre) /\
  (names_not_aliased ents ->
     (forall k v, m !! k = Some v -> m !! v = Some v) /\
     (forall x, _canon m (_canon m x) = _canon m x)).
Proof.
  intros m. destruct (merge_alias_map_inv ents) as [Hkey Hsrc]. fold m in Hkey, Hsrc.
  split_and!; [done|done| |].
  { intros k v. unfold m, _merge_alias_map. rewrite fold_merge_lookup, lookup_empty.
    split; [by intros [H|(_ & H)]|intros H; right; by split]. }
  intros Hna.
  assert (Hfix : forall k v, m !! k = Some v -> m !! v = Some v).
  { intros k v H. destruct (Hkey k v H) as [w Hw].
    destruct (Hsrc k v H) as (e & He & Hv & _).
    destruct (Hsrc v w Hw) as (e' & He' & Hw' & [->|(als & Hals & Hin)]); [done|].
    rewrite <- Hv in Hin. pose proof (Hna e e' als He He' Hals Hin) as Heq.
    rewrite Hv, Hw' in Heq. rewrite <- Heq in Hw. exact Hw. }
  split; [done|]. intros x.
  destruct (m !! _norm_name x) as [v|] eqn:Ex.
  - rewrite (canon_hit _ _ _ Ex). apply canon_hit.
    destruct (Hsrc _ v Ex) as (e & _ & Hv & _).
    rewrite <- Hv, norm_name_idem, Hv. exact (Hfix _ v Ex).
  - rewrite (canon_miss _ _ Ex), (canon_miss m (_norm_name x)); [apply norm_name_idem|]. by rewrite norm_name_idem.
Qed.

(** C1: counterexample. With the mentions A (alias B) and B (alias C),
    "C" maps to "B" and "B" maps to "A": a chain of two hops, and
    resolving "C" twice gives "A" while resolving it once gives "B". *)
Lemma alias_resolution_idempotent_counterexample :
  let m := _merge_alias_map Samples.chain_ents in
  m !! [67] = Some [66] /\ m !! [66] = Some [65] /\
  _canon m [67] = [66] /\ _canon m (_canon m [67]) = [65].
Proof. vm_compute. split_and!; reflexivity. Qed.

End AliasFacts.

(* ===================================================================== *)
(* Proofs: text files                                                      *)
(* ===================================================================== *)

Module TextIOFacts.
Import TextIO.

Ltac zb := repeat (match goal with
  | |- context [?a =? ?b] => destruct (Z.eqb_spec a b); try lia
  | |- context [?a <=? ?b] => destruct (Z.leb_spec a b); try lia
  | |- context [?a <? ?b] => destruct (Z.ltb_spec a b); try lia
  end; simpl).

Lemma decode_encode_char (c : Z) (b rest : list Z) :
  utf8_encode_char c = Some b -> utf8_decode (b ++ rest) = cons c <$> utf8_decode rest.
Proof.
  unfold utf8_encode_char. intros H.
  assert (E2 : c / 4096 = c / 64 / 64) by (rewrite Z.div_div by lia; reflexivity).
  assert (E3 : c / 262144 = c / 4096 / 64) by (rewrite Z.div_div by lia; reflexivity).
  pose proof (Z.div_mod c 64 ltac:(lia)) as D1.
  pose proof (Z.mod_pos_bound c 64 ltac:(lia)) as B1.
  pose proof (Z.div_mod (c / 64) 64 ltac:(lia)) as D2.
  pose proof (Z.mod_pos_bound (c / 64) 64 ltac:(lia)) as B2.
  pose proof (Z.div_mod (c / 4096) 64 ltac:(lia)) as D3.
  pose proof (Z.mod_pos_bound (c / 4096) 64 ltac:(lia)) as B3.
  rewrite <- E2 in D2. rewrite <- E3 in D3.
  set (q1 := c / 64) in *. set (r1 := c mod 64) in *.
  set (q2 := c / 4096) in *. set (m2 := q1 mod 64) in *.
  set (q3 := c / 262144) in *. set (m3 := q2 mod 64) in *.
  clear E2 E3.
  revert H. unfold is_cont. zb; intros Hs; try discriminate; injection Hs as <-; simpl; unfold is_cont; zb;
    destruct (utf8_decode rest); simpl; try done; do 2 f_equal; lia.
Qed.

Lemma decode_encode (s : str) (b rest : list Z) :
  utf8_encode s = Some b -> utf8_decode (b ++ rest) = app s <$> utf8_decode rest.
Proof.
  revert b. induction s as [|c s IH]; intros b H; simpl in H.
  - injection H as <-. simpl. by destruct (utf8_decode rest).
  - destruct (utf8_encode_char c) as [b1|] eqn:E1; [|discriminate].
    destruct (utf8_encode s) as [bs|] eqn:E2; [|discriminate].
    injection H as <-. rewrite <- app_assoc, (decode_encode_char c b1 _ E1), (IH bs eq_refl).
    by destruct (utf8_decode rest).
Qed.

Lemma decode_app (a b : list Z) (s : str) :
  utf8_decode a = Some s -> utf8_decode (a ++ b) = app s <$> utf8_decode b.
Proof.
  revert s. induction a as [a IH] using (induction_ltof1 _ (@length Z)); intros s H.
  unfold ltof in IH.
  destruct a as [|b0 r1].
  { simpl in H. injection H as <-. simpl. by destruct (utf8_decode b). }
  assert (Fin : forall (x : Z) (r : list Z) (s' : str), (length r < length (b0 :: r1))%nat ->
            cons x <$> utf8_decode r = Some s' ->
            cons x <$> utf8_decode (r ++ b) = app s' <$> utf8_decode b).
  { intros x r s' Hl Hr. destruct (utf8_decode r) as [t|] eqn:Et; [|discriminate].
    injection Hr as <-. rewrite (IH r Hl t Et). by destruct (utf8_decode b). }
  cbn [app utf8_decode] in H |- *.
  destruct ((0 <=? b0) && (b0 <=? 127)); [apply Fin; [simpl; lia|done]|].
  destruct ((194 <=? b0) && (b0 <=? 223)).
  { destruct r1 as [|b1 r2]; [discriminate|]. cbn [app].
    destruct (is_cont b1); [apply Fin; [simpl; lia|done]|discriminate]. }
  destruct ((224 <=? b0) && (b0 <=? 239)).
  { destruct r1 as [|b1 [|b2 r3]]; try discriminate. cbn [app].
    destruct (_ && _ && _); [apply Fin; [simpl; lia|done]|discriminate]. }
  destruct ((240 <=? b0) && (b0 <=? 244)); [|discriminate].
  destruct r1 as [|b1 [|b2 [|b3 r4]]]; try discriminate. cbn [app].
  destruct (_ && _ && _ && _); [apply Fin; [simpl; lia|done]|discriminate].
Qed.

Lemma tr_nonempty (t : str) : t <> [] -> translate_newlines t <> [].
Proof.
  destruct t as [|c r]; [done|]. intros _. simpl.
  destruct (c =? 13); [destruct r as [|d r']; [done|]; destruct (d =? 10)|]; done.
Qed.

Lemma tr_app (a b : str) :
  head b <> Some 10 -> translate_newlines (a ++ b) = translate_newlines a ++ translate_newlines b.
Proof.
  intros Hb. induction a as [a IH] using (induction_ltof1 _ (@length Z)). unfold ltof in IH.
  destruct a as [|c r]; [done|]. cbn [app translate_newlines].
  destruct (Z.eqb_spec c 13) as [->|Hc].
  - destruct r as [|d r'].
    + simpl. destruct b as [|d b']; [done|]. simpl in Hb.
      destruct (Z.eqb_spec d 10) as [->|Hd]; [done|]. done.
    + cbn [app]. destruct (d =? 10).
      * rewrite (IH r') by (simpl; lia). done.
      * change (d :: r' ++ b) with ((d :: r') ++ b). rewrite (IH (d :: r')) by (simpl; lia). done.
  - rewrite (IH r) by (simpl; lia). done.
Qed.

Lemma tr_id (x : str) : Forall (fun c => c <> 13) x -> translate_newlines x = x.
Proof.
  induction x as [|c x IH]; intros H; [done|]. inversion H as [|? ? Hc Hx]; subst.
  simpl. rewrite (proj2 (Z.eqb_neq c 13) Hc). by rewrite IH.
Qed.

Lemma tr_last (t : str) :
  ends_with_newline t = true -> translate_newlines t = [] \/ exists p, translate_newlines t = p ++ [10].
Proof.
  unfold ends_with_newline. destruct (last t) as [c|] eqn:El.
  2: { apply last_None in El. subst. by left. }
  intros Hc. right. apply last_Some in El as [t' ->].
  apply last_Some.
  revert Hc. induction t' as [t' IH] using (induction_ltof1 _ (@length Z)). unfold ltof in IH.
  intros Hc. destruct t' as [|x r].
  - simpl. apply orb_true_iff in Hc as [Hc|Hc]; apply Z.eqb_eq in Hc; subst; done.
  - cbn [app translate_newlines]. destruct (Z.eqb_spec x 13) as [Hx|Hx].
    + destruct (r ++ [c]) as [|d r'] eqn:Er; [by destruct r|].
      assert (Hlast : forall y, translate_newlines y <> [] -> last (10 :: translate_newlines y) = last (translate_newlines y)).
      { intros y Hy. destruct (translate_newlines y); done. }
      destruct (Z.eqb_spec d 10) as [->|Hd].
      * destruct r' as [|e0 r''].
        { done. }
        destruct r as [|d0 r0]; [simpl in Er; injection Er as _ Er; discriminate|].
        simpl in Er. injection Er as -> Er. rewrite Hlast by (apply tr_nonempty; done).
        rewrite <- Er. apply IH; [simpl; lia|done].
      * rewrite Hlast by (apply tr_nonempty; done). rewrite <- Er. apply IH; [simpl; lia|done].
    + assert (Hy : translate_newlines (r ++ [c]) <> []) by (apply tr_nonempty; by destruct r).
      destruct (translate_newlines (r ++ [c])) as [|z s] eqn:E; [done|].
      change (last (x :: z :: s)) with (last (z :: s)).
      rewrite <- E. apply IH; [simpl; lia|done].
Qed.

Lemma split_app (cur p y : str) :
  split_lines_aux cur (p ++ [10] ++ y) = split_lines_aux cur (p ++ [10]) ++ split_lines_aux [] y.
Proof.
  revert cur. induction p as [|c p IH]; intros cur; simpl.
  - done.
  - destruct (c =? 10); [by rewrite IH|apply IH].
Qed.

Lemma split_line (cur l : str) :
  Forall (fun c => c <> 10) l -> split_lines_aux cur (l ++ [10]) = [rev cur ++ l ++ [10]].
Proof.
  revert cur. induction l as [|c l IH]; intros cur H; simpl.
  - done.
  - inversion H as [|? ? Hc Hl]; subst. rewrite (proj2 (Z.eqb_neq c 10) Hc).
    rewrite IH by done. simpl. by rewrite <- app_assoc.
Qed.

(* Appending a line l ++ "\n" (l not empty, without "\n" or "\r") to a
   text with complete lines adds exactly that line. *)
Lemma lines_snoc (t l : str) :
  ends_with_newline t = true -> l <> [] -> Forall (fun c => c <> 10 /\ c <> 13) l ->
  split_lines (translate_newlines (t ++ l ++ [10])) = split_lines (translate_newlines t) ++ [l ++ [10]] /\
  ends_with_newline (t ++ l ++ [10]) = true.
Proof.
  intros Ht Hl Hf. split.
  - rewrite tr_app.
    2: { destruct l as [|c l]; [done|]. inversion Hf as [|? ? [Hc _] _]; subst. simpl.
         intros [= E]. done. }
    rewrite (tr_id (l ++ [10])).
    2: { apply Forall_app; split; [by eapply Forall_impl; [exact Hf|]; intros c [_ ?]|].
         constructor; [lia|constructor]. }
    assert (Hn : Forall (fun c => c <> 10) l) by (by eapply Forall_impl; [exact Hf|]; intros c [? _]).
    unfold split_lines. destruct (tr_last t Ht) as [->|[p ->]].
    + simpl. by rewrite split_line.
    + rewrite <- app_assoc. rewrite split_app. f_equal. by rewrite split_line.
  - unfold ends_with_newline. rewrite app_assoc, last_snoc. done.
Qed.
End TextIOFacts.

(* ===================================================================== *)
(* Proofs: resumable extraction                                            *)
(* ===================================================================== *)

Module ExtractFacts.
Import TextIO TextIOFacts Extract.

Section Facts.
Context (py_str_json : json -> str) (json_loads : str -> option json) (json_dumps : json -> str).
Hypothesis Hstr : forall s, py_str_json (JStr s) = s.
Local Abbreviation ids := (_existing_chunk_ids py_str_json json_loads).
Local Abbreviation ids_text := (fun t => ids_of_lines py_str_json json_loads (split_lines (translate_newlines t))).
Local Abbreviation row_id := (fun r => py_str_json (cr_chunk_id r)).
Local Abbreviation loop := (extract_loop py_str_json json_dumps).

Lemma ids_of_lines_app (l1 l2 : list str) :
  ids_of_lines py_str_json json_loads (l1 ++ l2) =
  ids_of_lines py_str_json json_loads l1 ++ ids_of_lines py_str_json json_loads l2.
Proof.
  induction l1 as [|line l1 IH]; simpl; [done|].
  destruct (json_loads line) as [[]|]; rewrite ?IH; try done.
  destruct (obj_get kvs Lit.k_chunk_id) as [cid|]; [|done]. by destruct (py_truthy cid).
Qed.

Lemma existing_some (bs : list Z) (t : str) :
  utf8_decode bs = Some t -> ids (Some bs) = Some (ids_text t).
Proof. intros H. unfold _existing_chunk_ids, read_text_lines. by rewrite H. Qed.

Lemma terminated_decode (f : option (list Z)) :
  log_terminated f = true ->
  exists t, utf8_decode (default [] f) = Some t /\ ends_with_newline t = true /\ ids f = Some (ids_text t).
Proof.
  destruct f as [bs|]; simpl.
  - destruct (utf8_decode bs) as [t|] eqn:E; [|discriminate]. intros Ht.
    exists t. split_and!; [done|done|]. by apply existing_some.
  - intros _. by exists [].
Qed.

(* The rows a loop handles before it stops. *)
Lemma loop_shape (llm : chunk_row -> option json) (done : list str) (rows : list chunk_row) :
  exists p, (p <= length rows)%nat /\
    loop llm done (take p rows) = ((loop llm done rows).1, true) /\
    ((loop llm done rows).2 = true -> p = length rows) /\
    ((loop llm done rows).2 = false -> (p < length rows)%nat /\
       exists r, rows !! p = Some r /\ (row_id r ∉ done) /\
         (llm r = None \/ exists obj, llm r = Some obj /\
            utf8_encode (json_dumps (out_obj (row_id r) r obj) ++ [10]) = None)).
Proof.
  induction rows as [|r rows IH].
  - exists 0%nat. simpl. split_and!; [lia|done|done|discriminate].
  - destruct IH as (p & Hp & Ht & Hok & Hfail). simpl.
    case_decide as Hin.
    + exists (S p). simpl. rewrite decide_True by done.
      split_and!; [lia|done|intros H; rewrite (Hok H); done|].
      intros H. destruct (Hfail H) as (Hlt & r' & Hr' & Hd & Hf). split; [lia|]. by exists r'.
    + destruct (llm r) as [obj|] eqn:Hl.
      2: { exists 0%nat. simpl. split_and!; [lia|done|discriminate|].
           intros _. split; [lia|]. exists r. split_and!; [done|done|by left]. }
      destruct (utf8_encode (json_dumps (out_obj (py_str_json (cr_chunk_id r)) r obj) ++ [10]))
        as [b|] eqn:He.
      2: { exists 0%nat. simpl. split_and!; [lia|done|discriminate|].
           intros _. split; [lia|]. exists r. split_and!; [done|done|]. right. by exists obj. }
      destruct (loop llm done rows) as [bs ok] eqn:Hr. simpl in *.
      exists (S p). simpl. rewrite decide_False by done. rewrite Hl, He, Ht.
      split_and!; [lia|done|intros H; rewrite (Hok H); done|].
      intros H. destruct (Hfail H) as (Hlt & r' & Hr' & Hd & Hf). split; [lia|]. by exists r'.
Qed.

(* What a loop that runs to its end appends to a file with complete lines. *)
Lemma loop_file (llm : chunk_row -> option json) (done : list str) (rows : list chunk_row)
    (a : list Z) (ta : str) (bs : list Z) :
  (forall r obj, r ∈ rows -> llm r = Some obj -> record_line_ok json_loads json_dumps (row_id r) r obj) ->
  (forall r, r ∈ rows -> row_id r <> []) ->
  utf8_decode a = Some ta -> ends_with_newline ta = true ->
  loop llm done rows = (bs, true) ->
  exists t, utf8_decode (a ++ bs) = Some t /\ ends_with_newline t = true /\
    ids_text t = ids_text ta ++ filter (fun c => c ∉ done) (map row_id rows).
Proof.
  revert a ta bs. induction rows as [|r rows IH]; intros a ta bs Hline Hne Ha Hend H.
  - simpl in H. injection H as <-. exists ta.
    split_and!; [by rewrite app_nil_r|done|simpl; by rewrite app_nil_r].
  - assert (Hline' : forall r' obj, r' ∈ rows -> llm r' = Some obj ->
              record_line_ok json_loads json_dumps (row_id r') r' obj)
      by (intros r' obj Hr'; apply Hline; by apply list_elem_of_further).
    assert (Hne' : forall r', r' ∈ rows -> row_id r' <> [])
      by (intros r' Hr'; apply Hne; by apply list_elem_of_further).
    simpl in H. cbn [map]. rewrite filter_cons.
    case_decide as Hin.
    + rewrite decide_False by tauto. by apply IH.
    + rewrite decide_True by done.
      destruct (llm r) as [obj|] eqn:Hl; [|discriminate].
      destruct (utf8_encode (json_dumps (out_obj (py_str_json (cr_chunk_id r)) r obj) ++ [10]))
        as [b|] eqn:He; [|discriminate].
      remember (loop llm done rows) as lr eqn:Hr. destruct lr as [bs' ok]. symmetry in Hr.
      injection H as <- ->.
      destruct (Hline r obj (list_elem_of_here _ _) Hl) as (Hnl & Hf & kvs & Hk & Hc).
      set (line := json_dumps (out_obj (py_str_json (cr_chunk_id r)) r obj)) in *.
      assert (Hb : utf8_decode (a ++ b) = Some (ta ++ line ++ [10])).
      { rewrite (decode_app a b ta Ha).
        pose proof (decode_encode _ b [] He) as Hd. rewrite app_nil_r in Hd.
        rewrite Hd. simpl. by rewrite app_nil_r. }
      destruct (lines_snoc ta line Hend Hnl Hf) as [Hs He'].
      destruct (IH (a ++ b) (ta ++ line ++ [10]) bs' Hline' Hne' Hb He' eq_refl) as (t & Ht & Hte & Hti).
      exists t. rewrite <- app_assoc in Ht. split_and!; [done|done|].
      rewrite Hti, Hs, ids_of_lines_app, <- app_assoc. f_equal. simpl. rewrite Hk, Hc.
      assert (Hr0 : py_str_json (cr_chunk_id r) <> []) by apply Hne, list_elem_of_here.
      simpl. rewrite Hstr. by destruct (py_str_json (cr_chunk_id r)).
Qed.

Lemma loop_all_done (llm : chunk_row -> option json) (done : list str) (rows : list chunk_row) :
  (forall r, r ∈ rows -> row_id r ∈ done) -> loop llm done rows = ([], true).
Proof.
  induction rows as [|r rows IH]; intros Hd; simpl; [done|].
  rewrite decide_True by apply Hd, list_elem_of_here.
  apply IH. intros r' Hr'. apply Hd. by apply list_elem_of_further.
Qed.

Lemma loop_skip (llm : chunk_row -> option json) (done : list str) (l1 l2 : list chunk_row) :
  (forall r, r ∈ l1 -> row_id r ∈ done) -> loop llm done (l1 ++ l2) = loop llm done l2.
Proof.
  induction l1 as [|r l1 IH]; intros Hd; simpl; [done|].
  rewrite decide_True by apply Hd, list_elem_of_here.
  apply IH. intros r' Hr'. apply Hd. by apply list_elem_of_further.
Qed.

Lemma loop_congr (llm : chunk_row -> option json) (d1 d2 : list str) (rows : list chunk_row) :
  (forall r, r ∈ rows -> (row_id r ∈ d1 <-> row_id r ∈ d2)) ->
  loop llm d1 rows = loop llm d2 rows.
Proof.
  induction rows as [|r rows IH]; intros Hd; simpl; [done|].
  rewrite IH by (intros r' Hr'; apply Hd; by apply list_elem_of_further).
  pose proof (Hd r (list_elem_of_here _ _)) as Hr.
  repeat case_decide; try done; tauto.
Qed.

Lemma row_in_ids (rows : list chunk_row) (d : list str) (r : chunk_row) :
  r ∈ rows -> row_id r ∈ d ++ filter (fun c => c ∉ d) (map row_id rows).
Proof.
  intros Hr. apply elem_of_app.
  destruct (decide (row_id r ∈ d)) as [Hin|Hout]; [by left|right].
  apply list_elem_of_filter. split; [done|].
  apply list_elem_of_In, (in_map row_id). by apply list_elem_of_In.
Qed.

(* A complete run from a log with complete lines, and a second run. *)
Lemma complete_run (llm1 llm2 : chunk_row -> option json) (rows : list chunk_row)
    (log0 : option (list Z)) (log1 : list Z) :
  (forall r, r ∈ rows -> row_id r <> []) ->
  (forall r obj, r ∈ rows -> llm1 r = Some obj -> record_line_ok json_loads json_dumps (row_id r) r obj) ->
  log_terminated log0 = true ->
  extract_main py_str_json json_loads json_dumps llm1 rows log0 = (Some log1, true) ->
  exists d0 t1, ids log0 = Some d0 /\ utf8_decode log1 = Some t1 /\ ends_with_newline t1 = true /\
    ids (Some log1) = Some (d0 ++ filter (fun c => c ∉ d0) (map row_id rows)) /\
    extract_main py_str_json json_loads json_dumps llm2 rows (Some log1) = (Some log1, true).
Proof.
  intros Hne Hline Hterm Hrun.
  destruct (terminated_decode log0 Hterm) as (t0 & Hd0 & He0 & Hi0).
  unfold extract_main in Hrun. rewrite Hi0 in Hrun.
  destruct (loop llm1 (ids_text t0) rows) as [bs ok] eqn:Hl. injection Hrun as Hlog ->.
  destruct (loop_file llm1 (ids_text t0) rows _ t0 bs Hline Hne Hd0 He0 Hl) as (t1 & Ht1 & He1 & Hi1).
  assert (Hdef : default [] log0 = match log0 with Some b => b | None => [] end) by (by destruct log0).
  rewrite Hdef, Hlog in Ht1.
  exists (ids_text t0), t1. split_and!; [done|done|done| |].
  - rewrite (existing_some _ _ Ht1). by rewrite Hi1.
  - unfold extract_main. rewrite (existing_some _ _ Ht1), Hi1.
    rewrite loop_all_done; [by rewrite app_nil_r|].
    intros r Hr. by apply row_in_ids.
Qed.

Lemma complete_run_nodup (rows : list chunk_row) (d0 : list str) :
  NoDup d0 -> NoDup (map row_id rows) -> NoDup (d0 ++ filter (fun c => c ∉ d0) (map row_id rows)).
Proof.
  intros Hd0 Hdr. apply NoDup_app. split_and!.
  - done.
  - intros x Hx Hf. apply list_elem_of_filter in Hf as [Hf _]. contradiction.
  - by apply NoDup_filter.
Qed.

End Facts.

(** C3 (amended). Let str() send a JSON string to itself, let every chunk
    row have a non-empty chunk_id (the chunker writes six-digit strings),
    and let json.dumps and json.loads behave on the lines written as
    record_line_ok states. If the extraction log on disk is absent, or
    holds UTF-8 text that is empty or ends with a line break, and a first
    run of main over the chunk rows completes (with any model answers),
    then a second complete run over the same rows, with any model
    answers, skips every row and leaves the log identical. Moreover, if
    the ids recorded in the log before the first run and the chunk_ids of
    the rows are each free of duplicates, the ids recorded after the first
    run are free of duplicates. *)
Theorem extraction_resume_idempotent (py_str_json : json -> str) (json_loads : str -> option json)
    (json_dumps : json -> str) (llm1 llm2 : chunk_row -> option json) (rows : list chunk_row)
    (log0 : option (list Z)) (log1 : list Z)
    (Hstr : forall s, py_str_json (JStr s) = s)
    (Hne : forall r, r ∈ rows -> py_str_json (cr_chunk_id r) <> [])
    (Hline : forall r obj, r ∈ rows -> llm1 r = Some obj ->
       record_line_ok json_loads json_dumps (py_str_json (cr_chunk_id r)) r obj)
    (Hterm : TextIO.log_terminated log0 = true)
    (Hrun : extract_main py_str_json json_loads json_dumps llm1 rows log0 = (Some log1, true)) :
  extract_main py_str_json json_loads json_dumps llm2 rows (Some log1) = (Some log1, true) /\
  (forall d0, _existing_chunk_ids py_str_json json_loads log0 = Some d0 -> NoDup d0 ->
   NoDup (map (fun r => py_str_json (cr_chunk_id r)) rows) ->
   exists d1, _existing_chunk_ids py_str_json json_loads (Some log1) = Some d1 /\ NoDup d1).
Proof.
  destruct (complete_run py_str_json json_loads json_dumps Hstr llm1 llm2 rows log0 log1 Hne Hline Hterm Hrun)
    as (d0 & t1 & H0 & _ & _ & H1 & H2).
  split; [exact H2|]. intros d0' H0' Hd0 Hdr. rewrite H0 in H0'. injection H0' as <-.
  eexists. split; [exact H1|]. by apply complete_run_nodup.
Qed.

(** C3: witness, on one chunk row and no log file yet. *)
Lemma extraction_resume_idempotent_witness :
  let log1 := default [] (extract_main str_of_json_sample JsonText.json_loads_py JsonText.json_dumps_py
                            (fun _ => Some (JObj [])) [row_sample] None).1 in
  extract_main str_of_json_sample JsonText.json_loads_py JsonText.json_dumps_py
    (fun _ => Some JNull) [row_sample] (Some log1) = (Some log1, true).
Proof.
  intros log1.
  assert (Hne : forall r, r ∈ [row_sample] -> str_of_json_sample (cr_chunk_id r) <> []).
  { intros r Hr. apply list_elem_of_singleton in Hr. subst r. vm_compute. discriminate. }
  assert (Hline : forall r obj, r ∈ [row_sample] -> (fun _ => Some (JObj [])) r = Some obj ->
            record_line_ok JsonText.json_loads_py JsonText.json_dumps_py
              (str_of_json_sample (cr_chunk_id r)) r obj).
  { intros r obj Hr Hobj. apply list_elem_of_singleton in Hr. subst r. injection Hobj as <-.
    split; [vm_compute; discriminate|]. split; [apply (bool_decide_unpack _); vm_compute; reflexivity|].
    eexists. split; vm_compute; reflexivity. }
  exact (proj1 (extraction_resume_idempotent str_of_json_sample JsonText.json_loads_py JsonText.json_dumps_py
                  (fun _ => Some (JObj [])) (fun _ => Some JNull) [row_sample] None log1
                  (fun s => eq_refl) Hne Hline eq_refl (ltac:(vm_compute; reflexivity)))).
Defined.

(** C3: counterexample. From a log whose only line was cut while it was
    written (no line break), the first run completes and appends the
    record of chunk 000000 to that line, which no longer parses; the
    recorded set stays empty, and the second run appends the record again,
    so the log changes. *)
Lemma extraction_resume_idempotent_counterexample :
  let run1 := extract_main str_of_json_sample JsonText.json_loads_py JsonText.json_dumps_py
                (fun _ => Some (JObj [])) [row_sample] (Some torn_sample) in
  let log1 := default [] run1.1 in
  let run2 := extract_main str_of_json_sample JsonText.json_loads_py JsonText.json_dumps_py
                (fun _ => Some (JObj [])) [row_sample] (Some log1) in
  run1.2 = true /\ _existing_chunk_ids str_of_json_sample JsonText.json_loads_py (Some log1) = Some [] /\
  run2.2 = true /\ run2.1 <> Some log1.
Proof. vm_compute. split_and!; try reflexivity. discriminate. Qed.

End ExtractFacts.

(* ===================================================================== *)
(* Proofs: best-effort JSON extraction                                     *)
(* ===================================================================== *)

Module SafeJsonFacts.
Import SafeJson.

Lemma as_dict_obj (obj : json) : exists kvs, as_dict obj = JObj kvs.
Proof. destruct obj; eexists; reflexivity. Qed.

(** C10. For every behaviour of json.loads (any value, or an
    exception) and every input string, _safe_json returns a dict. When the
    stripped text is non-empty and its strict parse returns a dict, that
    dict is the result; when the strict parse raises and the text has a
    '{' before its last '}', the result is the parse of the block from the
    first '{' to the last '}', as a dict. When the stripped text is empty,
    or the strict parse raises and the brace block is absent or raises
    too, the result has an "_error" field, whose value is "empty_response",
    "invalid_json" or "no_json_object". *)
Theorem safe_json_total (json_loads : str -> option json) (text : str) :
  let t := strip text in
  let start := py_find 123 t in
  let end_ := py_rfind 125 t in
  (exists kvs, _safe_json json_loads text = JObj kvs) /\
  (forall kvs, t <> [] -> json_loads t = Some (JObj kvs) -> _safe_json json_loads text = JObj kvs) /\
  (forall obj, t <> [] -> json_loads t = None -> 0 <= start < end_ ->
     json_loads (py_slice t start (end_ + 1)) = Some obj ->
     _safe_json json_loads text = as_dict obj) /\
  ((t = [] \/ (json_loads t = None /\
      (~ (0 <= start < end_) \/ json_loads (py_slice t start (end_ + 1)) = None))) ->
   exists kvs e, _safe_json json_loads text = JObj kvs /\
     obj_get kvs Lit.k_error = Some (JStr e) /\
     e ∈ [Lit.v_empty_response; Lit.v_invalid_json; Lit.v_no_json_object]).
Proof.
  intros t start end_. unfold _safe_json. fold t. fold start end_.
  split_and!.
  - destruct t as [|c cs]; [by eexists|].
    destruct (json_loads (c :: cs)) as [obj|]; [apply as_dict_obj|].
    destruct ((0 <=? start) && (start <? end_)); [|by eexists].
    destruct (json_loads _) as [obj|]; [apply as_dict_obj|by eexists].
  - intros kvs Ht Hl. destruct t as [|c cs]; [done|]. by rewrite Hl.
  - intros obj Ht Hl Hse Hb. destruct t as [|c cs]; [done|]. rewrite Hl.
    replace ((0 <=? start) && (start <? end_)) with true by lia.
    by rewrite Hb.
  - intros [Ht|[Hl Hb]].
    + rewrite Ht. do 2 eexists. split_and!; [reflexivity|reflexivity|apply list_elem_of_here].
    + destruct t as [|c cs]; [do 2 eexists; split_and!;
                                [reflexivity|reflexivity|apply list_elem_of_here]|].
      rewrite Hl.
      destruct ((0 <=? start) && (start <? end_)) eqn:Hse.
      * destruct Hb as [Hb|Hb]; [lia|]. rewrite Hb.
        do 2 eexists. split_and!; [reflexivity|reflexivity|].
        apply list_elem_of_further, list_elem_of_here.
      * do 2 eexists. split_and!; [reflexivity|reflexivity|].
        apply list_elem_of_further, list_elem_of_further, list_elem_of_here.
Qed.

End SafeJsonFacts.

(* ===================================================================== *)
(* Proofs: chapter and volume spans, and the whole chunker run             *)
(* ===================================================================== *)

Module ChunkerMainFacts.
Import Chunker Spans.

(** X1. For any body and any max_chars and overlap (no precondition), the
    number of windows _chunk_text emits is ceil(n / step), where n is the
    length of the trimmed body and step = max(1, max_chars - overlap); in
    particular an empty trimmed body gives none and a non-empty one at
    least one. *)
Theorem chunk_text_count (body : str) (L O : Z) :
  Z.of_nat (length (_chunk_text body L O)) =
    (len (strip body) + Z.max 1 (L - O) - 1) / Z.max 1 (L - O).
Proof.
  set (st := Z.max 1 (L - O)). set (n := len (strip body)).
  assert (Hst : 1 <= st) by lia.
  assert (Hn : 0 <= n) by (unfold n, len; lia).
  pose proof (Z.div_mod (n + st - 1) st ltac:(lia)) as Hdm.
  pose proof (Z.mod_pos_bound (n + st - 1) st ltac:(lia)) as Hmb.
  set (q := (n + st - 1) / st) in *. set (rm := (n + st - 1) mod st) in *.
  assert (Hq : 0 <= q) by nia.
  destruct (decide (strip body = [])) as [E|Hne].
  - unfold _chunk_text. rewrite E. simpl.
    unfold n in *. rewrite E in *. unfold len in *. simpl in *. nia.
  - assert (Hk : forall k : nat, (k < length (_chunk_text body L O))%nat <-> Z.of_nat k < q).
    { intros k. split.
      - intros Hlt. apply lookup_lt_is_Some_2 in Hlt as [w Hw].
        apply ChunkerFacts.chunk_text_lookup in Hw as [Hlt _]; [|done]. fold st n in Hlt. nia.
      - intros Hlt. apply (lookup_lt_is_Some_1 _ k).
        eexists. apply ChunkerFacts.chunk_text_lookup; [done|]. fold st n. split; [nia|done]. }
    assert (Hlen : length (_chunk_text body L O) = Z.to_nat q).
    { pose proof (Hk (length (_chunk_text body L O))) as H1.
      pose proof (Hk (Z.to_nat q)) as H2. lia. }
    rewrite Hlen. lia.
Qed.

Lemma SSorted_lookup_S {A} (R : A -> A -> Prop) (l : list A) (i : nat) (a b : A) :
  StronglySorted R l -> l !! i = Some a -> l !! S i = Some b -> R a b.
Proof.
  revert i. induction l as [|x l IH]; intros i Hs Ha Hb; [done|].
  inversion Hs as [|? ? Hs' Hall]; subst.
  destruct i as [|i]; simpl in *.
  - injection Ha as <-. rewrite Forall_forall in Hall. apply Hall.
    by apply list_elem_of_lookup_2 with 0%nat.
  - by apply (IH i).
Qed.

Lemma spans_of_lookup (tl : Z) (ms : list re_match) (i : nat) (t : str) (s e : Z) :
  spans_of tl ms !! i = Some (t, s, e) <->
  exists m, ms !! i = Some m /\ t = strip (m_group m) /\ s = m_start m /\
    e = match ms !! S i with Some m' => m_start m' | None => tl end.
Proof.
  revert i. induction ms as [|m ms IH]; intros i; simpl.
  - split; [done|]. by intros (? & ? & _).
  - destruct i as [|i]; simpl.
    + split.
      * intros [= <- <- <-]. exists m. split_and!; try done. by destruct ms.
      * intros (m' & [= <-] & -> & -> & ->). by destruct ms.
    + apply IH.
Qed.

Lemma spans_of_cover (tl : Z) (m0 : re_match) (ms : list re_match) :
  StronglySorted (fun a b => m_start a < m_start b) (m0 :: ms) ->
  Forall (fun m => m_start m < tl) (m0 :: ms) ->
  forall x, (exists t s e, (t, s, e) ∈ spans_of tl (m0 :: ms) /\ s <= x < e) <->
            m_start m0 <= x < tl.
Proof.
  revert m0. induction ms as [|m1 ms IH]; intros m0 Hs Hb x; simpl.
  - inversion Hb; subst. split.
    + intros (t & s & e & Hin & Hx). apply list_elem_of_singleton in Hin. simplify_eq. lia.
    + intros Hx. do 3 eexists. split; [apply list_elem_of_here|]. simpl. lia.
  - inversion Hs as [|? ? Hs1 Hall]; subst. inversion Hb as [|? ? Hb0 Hb1]; subst.
    inversion Hall as [|? ? H01 _]; subst.
    assert (Hm1 : m_start m1 < tl) by (inversion Hb1; done).
    pose proof (IH m1 Hs1 Hb1 x) as IHx. simpl in IHx.
    split.
    + intros (t & s & e & Hin & Hx). apply elem_of_cons in Hin as [Hin|Hin].
      * simplify_eq. lia.
      * assert (m_start m1 <= x < tl) by (apply IHx; eauto). lia.
    + intros Hx. destruct (Z.lt_ge_cases x (m_start m1)) as [Hlt|Hge].
      * exists (strip (m_group m0)), (m_start m0), (m_start m1).
        split; [apply list_elem_of_here|]. lia.
      * destruct (proj2 IHx ltac:(lia)) as (t & s & e & Hin & Hx').
        exists t, s, e. split; [by apply list_elem_of_further|done].
Qed.

(** X2. _find_chapter_spans: when CHAPTER_LINE_RE has no match the whole
    text is one chapter titled "全文". Otherwise the i-th span starts at the
    i-th match and has its stripped title; each span ends where the next
    one starts and the last ends at len(text). For the matches finditer
    returns (starts strictly increasing and inside the text) every span is
    non-empty and the spans cover exactly [start of the first match,
    len(text)): text before the first chapter heading is in no chapter. *)
Theorem chapter_spans_partition (chap_finditer : str -> list re_match) (text : str)
    (Hsorted : StronglySorted (fun a b => m_start a < m_start b) (chap_finditer text))
    (Hbound : Forall (fun m => 0 <= m_start m < len text) (chap_finditer text)) :
  let spans := _find_chapter_spans chap_finditer text in
  (chap_finditer text = [] -> spans = [(whole_text_title, 0, len text)]) /\
  (forall i t s e, spans !! i = Some (t, s, e) -> chap_finditer text <> [] ->
     exists m, chap_finditer text !! i = Some m /\ t = strip (m_group m) /\ s = m_start m /\ s < e) /\
  (forall i t1 s1 e1 t2 s2 e2, spans !! i = Some (t1, s1, e1) ->
     spans !! S i = Some (t2, s2, e2) -> e1 = s2) /\
  (forall i t s e, spans !! i = Some (t, s, e) -> spans !! S i = None -> e = len text) /\
  (forall x, (exists t s e, (t, s, e) ∈ spans /\ s <= x < e) <->
     match chap_finditer text with [] => 0 | m :: _ => m_start m end <= x < len text).
Proof.
  intros spans. unfold spans, _find_chapter_spans.
  destruct (chap_finditer text) as [|m0 ms] eqn:Ems.
  - split_and!; try done.
    + intros i t s e H _. destruct i as [|[|]]; simpl in *; by simplify_eq.
    + intros x. split.
      * intros (t & s & e & Hin & Hx). apply list_elem_of_singleton in Hin. simplify_eq. lia.
      * intros Hx. do 3 eexists. split; [apply list_elem_of_here|]. simpl. lia.
  - split_and!.
    + done.
    + intros i t s e H _. apply spans_of_lookup in H as (m & Hm & -> & -> & ->).
      exists m. split_and!; try done.
      destruct ((m0 :: ms) !! S i) as [m'|] eqn:Hm'.
      * exact (SSorted_lookup_S (fun a b => m_start a < m_start b) _ i m m' Hsorted Hm Hm').
      * rewrite Forall_forall in Hbound.
        assert (Hin : m ∈ m0 :: ms) by (by apply list_elem_of_lookup_2 with i).
        apply Hbound in Hin. lia.
    + intros i t1 s1 e1 t2 s2 e2 H1 H2.
      apply spans_of_lookup in H1 as (m1 & Hm1 & _ & _ & ->).
      apply spans_of_lookup in H2 as (m2 & Hm2 & _ & -> & _). by rewrite Hm2.
    + intros i t s e H HN. apply spans_of_lookup in H as (m & Hm & _ & _ & ->).
      destruct ((m0 :: ms) !! S i) as [m'|] eqn:Hm'; [|done].
      exfalso. assert (Hlt : (S i < length (spans_of (len text) (m0 :: ms)))%nat).
      { assert (Hl : length (spans_of (len text) (m0 :: ms)) = length (m0 :: ms)).
        { clear. generalize (m0 :: ms). induction l; simpl; lia. }
        rewrite Hl. apply lookup_lt_Some in Hm'. done. }
      apply lookup_lt_is_Some_2 in Hlt. rewrite HN in Hlt. by destruct Hlt.
    + apply spans_of_cover; [done|].
      eapply Forall_impl; [exact Hbound|]. simpl. lia.
Qed.

(** X3. _find_volume_span(text, volume) is None exactly when volume < 1 or
    volume exceeds the number of VOLUME_RE matches. Otherwise the span runs
    from the start of the volume-th match to the start of the next match
    (or to len(text) for the last volume) and carries the stripped title,
    so volume v ends exactly where volume v + 1 starts. *)
Theorem volume_span_select (vol_finditer : str -> list re_match) (text : str) (v : Z) :
  (_find_volume_span vol_finditer text v = None <->
     v < 1 \/ Z.of_nat (length (vol_finditer text)) < v) /\
  (forall t s e, _find_volume_span vol_finditer text v = Some (t, s, e) ->
     exists m, vol_finditer text !! Z.to_nat (v - 1) = Some m /\ t = strip (m_group m) /\
       s = m_start m /\
       e = match vol_finditer text !! Z.to_nat v with Some m' => m_start m' | None => len text end) /\
  (forall t s e t' s' e', _find_volume_span vol_finditer text v = Some (t, s, e) ->
     _find_volume_span vol_finditer text (v + 1) = Some (t', s', e') -> e = s').
Proof.
  assert (Hsome : forall v t s e, _find_volume_span vol_finditer text v = Some (t, s, e) ->
     exists m, vol_finditer text !! Z.to_nat (v - 1) = Some m /\ t = strip (m_group m) /\
       s = m_start m /\
       e = match vol_finditer text !! Z.to_nat v with Some m' => m_start m' | None => len text end).
  { clear v. intros v t s e. unfold _find_volume_span.
    destruct (vol_finditer text) as [|m0 ms] eqn:E; [done|].
    set (l := m0 :: ms).
    destruct ((v - 1 <? 0) || (Z.of_nat (length l) <=? v - 1)) eqn:Hb; [done|].
    apply orb_false_iff in Hb as [Hb1 Hb2]. apply Z.ltb_ge in Hb1. apply Z.leb_gt in Hb2.
    assert (Hl : (Z.to_nat (v - 1) < length l)%nat) by lia.
    destruct (lookup_lt_is_Some_2 _ _ Hl) as [m Hm].
    rewrite (nth_lookup_Some _ _ _ _ Hm).
    replace (Z.to_nat v) with (Z.to_nat (v - 1 + 1)) by (f_equal; lia).
    destruct (v - 1 + 1 <? Z.of_nat (length l)) eqn:Hn.
    - apply Z.ltb_lt in Hn.
      assert (Hl' : (Z.to_nat (v - 1 + 1) < length l)%nat) by lia.
      destruct (lookup_lt_is_Some_2 _ _ Hl') as [m' Hm'].
      rewrite (nth_lookup_Some _ _ _ _ Hm'), Hm'.
      intros H. injection H as <- <- <-. by exists m.
    - apply Z.ltb_ge in Hn. rewrite (lookup_ge_None_2 l (Z.to_nat (v - 1 + 1))); [|lia].
      intros H. injection H as <- <- <-. by exists m. }
  split_and!.
  - unfold _find_volume_span.
    destruct (vol_finditer text) as [|m0 ms] eqn:E; simpl; [split; [lia|done]|].
    destruct ((v - 1 <? 0) || (Z.of_nat (S (length ms)) <=? v - 1)) eqn:Hb.
    + split; [|done]. intros _. apply orb_true_iff in Hb as [Hb|Hb];
        [apply Z.ltb_lt in Hb | apply Z.leb_le in Hb]; lia.
    + split; [done|]. apply orb_false_iff in Hb as [Hb1 Hb2].
      apply Z.ltb_ge in Hb1. apply Z.leb_gt in Hb2. lia.
  - apply Hsome.
  - intros t s e t' s' e' H1 H2.
    destruct (Hsome _ _ _ _ H1) as (m & Hm & _ & _ & ->).
    destruct (Hsome _ _ _ _ H2) as (m' & Hm' & _ & -> & _).
    replace (Z.to_nat (v + 1 - 1)) with (Z.to_nat v) in Hm' by (f_equal; lia).
    by rewrite Hm'.
Qed.

Section Emit.
Variables (text : str) (vol : Z) (vtitle : str) (L O : Z).

Lemma emit_parts_src (m ci : Z) (t : str) (k : Z) (cs : list window)
    (out : list chunk_rec) (cid : Z) (r : chunk_rec) :
  r ∈ (emit_parts vol vtitle m ci t k cs out cid).1 ->
  r ∈ out \/
  exists j w, cs !! j = Some w /\ part_index r = k + Z.of_nat j /\ chapter_index r = ci /\
    chapter_title r = t /\ c_start_char r = start_char w /\ c_end_char r = end_char w /\
    c_text r = wtext w /\ volume r = (if vol =? 0 then None else Some vol) /\
    volume_title r = (match vtitle with [] => None | _ => Some vtitle end).
Proof.
  revert k out cid. induction cs as [|c cs IH]; intros k out cid; simpl; [by left|].
  set (rec := mkChunk _ _ _ _ _ _ _ _ _).
  assert (Hsnoc : r ∈ out ++ [rec] -> r ∈ out \/ r = rec).
  { intros H. apply elem_of_app in H as [H|H]; [by left|]. apply list_elem_of_singleton in H. by right. }
  destruct (cap_reached m (out ++ [rec])); simpl.
  - intros H. apply Hsnoc in H as [H| ->]; [by left|].
    right. exists 0%nat, c. split_and!; simpl; try done; lia.
  - intros H. apply IH in H as [H|(j & w & Hj & Hp & Hrest)].
    + apply Hsnoc in H as [H| ->]; [by left|].
      right. exists 0%nat, c. split_and!; simpl; try done; lia.
    + right. exists (S j), w. split_and!; try done; [|apply Hrest..]. lia.
Qed.

Lemma emit_chapters_src (m ci : Z) (spans : list (str * Z * Z)) (out : list chunk_rec)
    (cid : Z) (r : chunk_rec) :
  r ∈ emit_chapters text vol vtitle L O m ci spans out cid ->
  r ∈ out \/
  exists i t s e j w, spans !! i = Some (t, s, e) /\ chapter_index r = ci + Z.of_nat i /\
    _chunk_text (strip (py_slice text s e)) L O !! j = Some w /\
    part_index r = 1 + Z.of_nat j /\ chapter_title r = t /\
    c_start_char r = start_char w /\ c_end_char r = end_char w /\ c_text r = wtext w /\
    volume r = (if vol =? 0 then None else Some vol) /\
    volume_title r = (match vtitle with [] => None | _ => Some vtitle end).
Proof.
  revert ci out cid. induction spans as [|[[t s] e] spans IH]; intros ci out cid; simpl; [by left|].
  destruct (emit_parts vol vtitle m ci t 1 _ out cid) as [o1 c1] eqn:E.
  assert (Hp : r ∈ o1 -> r ∈ out \/
    exists j w, _chunk_text (strip (py_slice text s e)) L O !! j = Some w /\
      part_index r = 1 + Z.of_nat j /\ chapter_index r = ci /\ chapter_title r = t /\
      c_start_char r = start_char w /\ c_end_char r = end_char w /\ c_text r = wtext w /\
      volume r = (if vol =? 0 then None else Some vol) /\
      volume_title r = (match vtitle with [] => None | _ => Some vtitle end)).
  { intros H. apply (emit_parts_src m ci t 1 _ out cid). by rewrite E. }
  assert (Hfin : r ∈ o1 -> r ∈ out \/ exists i t' s' e' j w,
    ((t, s, e) :: spans) !! i = Some (t', s', e') /\ chapter_index r = ci + Z.of_nat i /\
    _chunk_text (strip (py_slice text s' e')) L O !! j = Some w /\
    part_index r = 1 + Z.of_nat j /\ chapter_title r = t' /\
    c_start_char r = start_char w /\ c_end_char r = end_char w /\ c_text r = wtext w /\
    volume r = (if vol =? 0 then None else Some vol) /\
    volume_title r = (match vtitle with [] => None | _ => Some vtitle end)).
  { intros H. apply Hp in H as [H|(j & w & Hj & Hpi & Hci & Hrest)]; [by left|].
    right. exists 0%nat, t, s, e, j, w. split_and!; try done; [lia|apply Hrest..]. }
  destruct (cap_reached m o1); [apply Hfin|].
  intros H. apply IH in H as [H|(i & t' & s' & e' & j & w & Hi & Hci & Hrest)]; [by apply Hfin|].
  right. exists (S i), t', s', e', j, w. split_and!; try done; [lia|apply Hrest..].
Qed.

End Emit.

(** X4. Every chunk record of a chunker run (any CLI values) points into
    its chapter: its chapter_index i >= 1 selects the i-th of the chapter
    spans kept after the chapter cap, its chapter_title is that span's
    title, and with body the stripped text[s:e] of that span (text being
    the selected volume, or the whole file), its part_index k >= 1 gives
    start_char = (k - 1) * max(1, max_chars - overlap), 0 <= start_char <
    len(body), end_char = min(len(body), start_char + max_chars), and its
    text is body[start_char:end_char]; its volume and volume_title are
    args.volume and the volume title, None when 0 or empty. *)
Theorem chunker_main_offsets (vol_finditer chap_finditer : str -> list re_match)
    (full_text : str) (vol L O max_chapters max_chunks : Z) (r : chunk_rec)
    (Hr : r ∈ chunker_main vol_finditer chap_finditer full_text vol L O max_chapters max_chunks) :
  let text := (select_volume vol_finditer full_text vol).2 in
  let vtitle := (select_volume vol_finditer full_text vol).1 in
  exists t s e,
    apply_max_chapters max_chapters (_find_chapter_spans chap_finditer text)
      !! Z.to_nat (chapter_index r - 1) = Some (t, s, e) /\
    1 <= chapter_index r /\ chapter_title r = t /\
    1 <= part_index r /\
    c_start_char r = (part_index r - 1) * Z.max 1 (L - O) /\
    0 <= c_start_char r < len (strip (py_slice text s e)) /\
    c_end_char r = Z.min (len (strip (py_slice text s e))) (c_start_char r + L) /\
    c_text r = py_slice (strip (py_slice text s e)) (c_start_char r) (c_end_char r) /\
    volume r = (if vol =? 0 then None else Some vol) /\
    volume_title r = (match vtitle with [] => None | _ => Some vtitle end).
Proof.
  intros text vtitle. unfold chunker_main in Hr. fold text vtitle in Hr.
  destruct (select_volume vol_finditer full_text vol) as [vt tx] eqn:Esel.
  simpl in text, vtitle. subst text vtitle. unfold chunker_out in Hr.
  apply emit_chapters_src in Hr as [Hr|(i & t & s & e & j & w & Hi & Hci & Hw & Hpi & Hrest)];
    [by apply not_elem_of_nil in Hr|].
  destruct (decide (strip (strip (py_slice tx s e)) = [])) as [E|Hne].
  { unfold _chunk_text in Hw. rewrite E in Hw. done. }
  apply ChunkerFacts.chunk_text_lookup in Hw as [Hlt ->]; [|done].
  rewrite AliasFacts.strip_idem in Hlt, Hne, Hrest.
  destruct Hrest as (Ht & Hs & He & Htx & Hv & Hvt).
  exists t, s, e. unfold window_at in *. simpl in *.
  rewrite Hci. replace (Z.to_nat (1 + Z.of_nat i - 1)) with i by lia.
  split_and!; try done; try lia.
  - rewrite Hs. nia.
  - rewrite Htx, He, Hs. done.
Qed.

(** X4: witness, on the file "ab" with no chapter heading. *)
Lemma chunker_main_offsets_witness :
  exists t s e,
    apply_max_chapters 0 (_find_chapter_spans (fun _ => []) [97; 98]) !! 0%nat = Some (t, s, e) /\
    1 <= 1 /\ [20840; 25991] = t /\ 1 <= 1 /\ 0 = (1 - 1) * Z.max 1 (10 - 2) /\
    0 <= 0 < len (strip (py_slice [97; 98] s e)) /\
    2 = Z.min (len (strip (py_slice [97; 98] s e))) (0 + 10) /\
    [97; 98] = py_slice (strip (py_slice [97; 98] s e)) 0 2 /\
    (None : option Z) = (if 0 =? 0 then None else Some 0) /\
    (None : option str) = (match ([] : str) with [] => None | _ => Some [] end).
Proof.
  assert (Hr : mkChunk (fmt06 0) None None 1 whole_text_title 1 0 2 [97; 98] ∈
               chunker_main (fun _ => []) (fun _ => []) [97; 98] 0 10 2 0 0).
  { vm_compute. apply list_elem_of_here. }
  exact (chunker_main_offsets (fun _ => []) (fun _ => []) [97; 98] 0 10 2 0 0 _ Hr).
Defined.

(** X2: witness, on a text of length 10 with headings at 2 and 6. *)
Lemma chapter_spans_partition_witness :
  _find_chapter_spans (fun _ => [mkMatch 2 [65]; mkMatch 6 [66]]) (repeat 97 10) =
    [([65], 2, 6); ([66], 6, 10)] /\
  (forall x, (exists t s e, (t, s, e) ∈ [([65], 2, 6); ([66], 6, 10)] /\ s <= x < e) <->
     2 <= x < 10).
Proof.
  assert (Hs : StronglySorted (fun a b => m_start a < m_start b) [mkMatch 2 [65]; mkMatch 6 [66]]).
  { repeat constructor; simpl; lia. }
  assert (Hb : Forall (fun m => 0 <= m_start m < len (repeat 97 10)) [mkMatch 2 [65]; mkMatch 6 [66]]).
  { repeat constructor; vm_compute; congruence. }
  destruct (chapter_spans_partition (fun _ => [mkMatch 2 [65]; mkMatch 6 [66]]) (repeat 97 10) Hs Hb)
    as (_ & _ & _ & _ & Hcov).
  split; [reflexivity|]. exact Hcov.
Defined.

End ChunkerMainFacts.

(* ===================================================================== *)
(* Proofs: reading JSONL files                                             *)
(* ===================================================================== *)

Module JsonlFacts.
Import ReadJsonl.

(** X5. _read_jsonl raises (None) when the file does not exist. On an
    existing file it returns the values json.loads gives for the stripped
    non-blank lines, in file order, and it raises exactly when one of
    those lines does not parse: a single torn line makes the whole read
    fail. *)
Theorem read_jsonl_lines (json_loads : str -> option json) :
  _read_jsonl json_loads None = None /\
  forall lines : list str,
    (forall vs, _read_jsonl json_loads (Some lines) = Some vs <->
       Forall2 (fun l v => json_loads l = Some v) (filter (fun l => l <> []) (map strip lines)) vs) /\
    (_read_jsonl json_loads (Some lines) = None <->
       exists l, l ∈ map strip lines /\ l <> [] /\ json_loads l = None).
Proof.
  split; [done|]. intros lines. simpl.
  induction lines as [|line rest [IH1 IH2]]; simpl.
  - split.
    + intros vs. split; [intros [= <-]; constructor|]. by inversion 1.
    + split; [done|]. intros (l & Hl & _). by apply not_elem_of_nil in Hl.
  - rewrite filter_cons.
    destruct (strip line) as [|c cs] eqn:Es.
    + case_decide as Hne; [done|]. split; [exact IH1|]. rewrite IH2. split.
      * intros (l & Hl & Hn & Hf). exists l. split_and!; try done. by apply list_elem_of_further.
      * intros (l & Hl & Hn & Hf). apply elem_of_cons in Hl as [->|Hl]; [done|]. by exists l.
    + case_decide as Hne; [|done]. split.
      * intros vs. destruct (json_loads (c :: cs)) as [v|] eqn:Hv.
        { destruct (read_lines json_loads rest) as [vs'|] eqn:Hr.
          - split.
            + intros [= <-]. constructor; [done|]. by apply IH1.
            + intros H. inversion H as [|? v' ? vs'' Hv' Hvs]; subst. rewrite Hv in Hv'.
              injection Hv' as <-. apply IH1 in Hvs. congruence.
          - split; [done|]. intros H. inversion H as [|? v' ? vs'' Hv' Hvs]; subst.
            apply IH1 in Hvs. congruence. }
        { split; [done|]. intros H. inversion H; congruence. }
      * destruct (json_loads (c :: cs)) as [v|] eqn:Hv.
        { destruct (read_lines json_loads rest) as [vs'|] eqn:Hr.
          - split; [done|]. intros (l & Hl & Hn & Hf). apply elem_of_cons in Hl as [->|Hl]; [congruence|].
            assert (Hnone : Some vs' = (None : option (list json))) by (apply IH2; by exists l).
            done.
          - split; [|done]. intros _. destruct (proj1 IH2 eq_refl) as (l & Hl & Hn & Hf).
            exists l. split_and!; try done. by apply list_elem_of_further. }
        { split; [|done]. intros _. exists (c :: cs). split_and!; try done. apply list_elem_of_here. }
Qed.

End JsonlFacts.

(* ===================================================================== *)
(* Proofs: the LLM client                                                  *)
(* ===================================================================== *)

Module ClientFacts.
Import SafeJson Retry.

Section Loop.
Variable api : nat -> option response.

Lemma respond_loop_fail (i n : nat) :
  (forall j, (i <= j < i + n)%nat -> api j = None) ->
  respond_loop api i n = (failed_calls i n, None).
Proof.
  revert i. induction n as [|n IH]; intros i Hf; simpl; [done|].
  rewrite (Hf i ltac:(lia)), IH; [done|]. intros j Hj. apply Hf. lia.
Qed.

Lemma respond_loop_ok (i k n : nat) (resp : response) :
  (forall j, (i <= j < i + k)%nat -> api j = None) -> api (i + k)%nat = Some resp -> (k < n)%nat ->
  respond_loop api i n =
    (failed_calls i k ++ [ECall (i + k)],
     Some (match output_text resp with Some o => o | None => str_resp resp end)).
Proof.
  revert i n. induction k as [|k IH]; intros i n Hf Hok Hk.
  - destruct n as [|n]; [lia|]. simpl. rewrite Nat.add_0_r in Hok |- *. by rewrite Hok.
  - destruct n as [|n]; [lia|]. simpl. rewrite (Hf i ltac:(lia)).
    rewrite (IH (S i) n); [| intros j Hj; apply Hf; lia | rewrite <- Hok; f_equal; lia | lia].
    by replace (S i + k)%nat with (i + S k)%nat by lia.
Qed.

End Loop.

(** X6. respond_text makes at most cfg.retries calls (none when retries
    <= 0). If the first attempt that does not raise is attempt k <
    retries, the effects are k failed calls each followed by its sleep,
    then call k, and the result is the response's output_text (str(resp)
    when it is None). If all retries attempts raise, every call, the last
    one included, is followed by a sleep and the method raises. *)
Theorem respond_text_attempts (api : nat -> option response) (retries : Z) :
  (forall (k : nat) resp, (Z.of_nat k < retries) -> (forall i, (i < k)%nat -> api i = None) ->
     api k = Some resp ->
     respond_text api retries =
       (failed_calls 0 k ++ [ECall k],
        Some (match output_text resp with Some o => o | None => str_resp resp end))) /\
  ((forall i, (Z.of_nat i < retries) -> api i = None) ->
     respond_text api retries = (failed_calls 0 (Z.to_nat retries), None)) /\
  (retries <= 0 -> respond_text api retries = ([], None)).
Proof.
  unfold respond_text. split_and!.
  - intros k resp Hk Hf Hok. apply (respond_loop_ok api 0 k); [|done|lia].
    intros j Hj. apply Hf. lia.
  - intros Hf. apply respond_loop_fail. intros j Hj. apply Hf. lia.
  - intros Hr. by replace (Z.to_nat retries) with 0%nat by lia.
Qed.

Lemma safe_json_is_obj (json_loads : str -> option json) (t : str) :
  exists kvs, _safe_json json_loads t = JObj kvs.
Proof.
  unfold _safe_json. destruct (strip t) as [|c cs]; [by eexists|].
  destruct (json_loads (c :: cs)) as [obj|]; [destruct obj; by eexists|].
  destruct (_ && _); [|by eexists].
  destruct (json_loads _) as [obj|]; [destruct obj|]; by eexists.
Qed.

(** X7. respond_json performs exactly the calls and sleeps of
    respond_text. It raises exactly when respond_text raises; otherwise it
    returns _safe_json of the text, which is always a dict. *)
Theorem respond_json_result (json_loads : str -> option json) (api : nat -> option response)
    (retries : Z) :
  (respond_json json_loads api retries).1 = (respond_text api retries).1 /\
  match (respond_json json_loads api retries).2 with
  | None => (respond_text api retries).2 = None
  | Some v => exists t kvs, (respond_text api retries).2 = Some t /\
                v = _safe_json json_loads t /\ v = JObj kvs
  end.
Proof.
  unfold respond_json. destruct (respond_text api retries) as [evs [t|]]; simpl; [|done].
  split; [done|]. destruct (safe_json_is_obj json_loads t) as [kvs Hk].
  by exists t, kvs.
Qed.

Lemma py_find_spec (c : Z) (s : str) :
  (py_find c s = -1 /\ c ∉ s) \/
  (0 <= py_find c s /\ s !! Z.to_nat (py_find c s) = Some c /\
   forall j, (j < Z.to_nat (py_find c s))%nat -> s !! j <> Some c).
Proof.
  induction s as [|x r IH]; simpl.
  - left. split; [done|]. apply not_elem_of_nil.
  - destruct (Z.eqb_spec x c) as [->|Hne].
    + right. split_and!; [lia|done|]. intros j Hj. lia.
    + destruct IH as [[-> Hn]|(Hp & Hl & Hb)].
      * left. simpl. split; [done|]. intros Hin. apply elem_of_cons in Hin as [->|Hin]; [done|]. by apply Hn.
      * right. replace (py_find c r <? 0) with false by lia.
        replace (Z.to_nat (py_find c r + 1)) with (S (Z.to_nat (py_find c r))) by lia.
        split_and!; [lia|done|]. intros [|j] Hj; simpl; [congruence|]. apply Hb. lia.
Qed.

Lemma py_rfind_spec (c : Z) (s : str) :
  (py_rfind c s = -1 /\ c ∉ s) \/
  (0 <= py_rfind c s < len s /\ s !! Z.to_nat (py_rfind c s) = Some c /\
   forall j, (Z.to_nat (py_rfind c s) < j)%nat -> s !! j <> Some c).
Proof.
  unfold py_rfind, len. pose proof (py_find_spec c (rev s)) as [[-> Hn]|(Hp & Hl & Hb)].
  - left. split; [done|]. intros Hin. apply Hn. rewrite list_elem_of_In, <- in_rev. by apply list_elem_of_In.
  - right. replace (py_find c (rev s) <? 0) with false by lia.
    assert (Hrev : rev s = reverse s) by (unfold reverse; apply rev_alt).
    rewrite Hrev in *.
    assert (Hlt : (Z.to_nat (py_find c (reverse s)) < length s)%nat).
    { rewrite <- length_reverse. by apply lookup_lt_Some in Hl. }
    unfold str in *. rewrite reverse_lookup in Hl; [|done].
    split_and!; [lia|lia| |].
    + rewrite <- Hl. f_equal. lia.
    + intros j Hj Hs.
      destruct (decide (j < length s)%nat) as [Hjl|Hjl]; [|rewrite lookup_ge_None_2 in Hs; [done|lia]].
      apply (Hb (length s - S j)%nat); [lia|].
      rewrite reverse_lookup; [|lia]. rewrite <- Hs. f_equal. lia.
Qed.

(** X8. The fallback block of _safe_json: when the first '{' of the
    stripped text comes before its last '}', the candidate
    text[start:end+1] passed to json.loads is the contiguous piece of the
    text from that first '{' to that last '}', both included: it starts
    with '{', ends with '}', and no '{' of the text comes before it and no
    '}' after it. *)
Theorem brace_block_bounds (text0 : str) :
  let text := strip text0 in
  let start := py_find 123 text in
  let end_ := py_rfind 125 text in
  0 <= start < end_ ->
  let cand := py_slice text start (end_ + 1) in
  len cand = end_ - start + 1 /\
  (forall j : nat, (j < length cand)%nat -> cand !! j = text !! (Z.to_nat start + j)%nat) /\
  cand !! 0%nat = Some 123 /\ cand !! Z.to_nat (end_ - start) = Some 125 /\
  (forall j : nat, text !! j = Some 123 -> start <= Z.of_nat j) /\
  (forall j : nat, text !! j = Some 125 -> Z.of_nat j <= end_).
Proof.
  intros text start end_ Hse cand.
  destruct (py_find_spec 123 text) as [[Hs _]|(Hs0 & Hsl & Hsb)]; [unfold start in Hse; lia|].
  destruct (py_rfind_spec 125 text) as [[He _]|(He0 & Hel & Heb)]; [unfold end_ in Hse; lia|].
  fold start in Hs0, Hsl, Hsb. fold end_ in He0, Hel, Heb.
  assert (Hc : cand = take (Z.to_nat (end_ + 1 - start)) (drop (Z.to_nat start) text)).
  { unfold cand, py_slice, slice_bound. unfold len in *.
    replace (start <? 0) with false by lia. replace (end_ + 1 <? 0) with false by lia.
    replace (Z.min start (Z.of_nat (length text))) with start by lia.
    replace (Z.min (end_ + 1) (Z.of_nat (length text))) with (end_ + 1) by lia.
    replace (start <? end_ + 1) with true by lia. done. }
  assert (Hlen : length cand = Z.to_nat (end_ + 1 - start)).
  { rewrite Hc, length_take, length_drop. unfold len in He0. lia. }
  assert (Hlk : forall j : nat, (j < length cand)%nat -> cand !! j = text !! (Z.to_nat start + j)%nat).
  { intros j Hj. unfold str in *. rewrite Hc, lookup_take, decide_True by lia.
    by rewrite lookup_drop. }
  split_and!.
  - unfold len. rewrite Hlen. lia.
  - exact Hlk.
  - rewrite Hlk by lia. rewrite Nat.add_0_r. done.
  - rewrite Hlk by lia. rewrite <- Hel. f_equal. lia.
  - intros j Hj. destruct (decide (j < Z.to_nat start)%nat) as [Hlt|Hge]; [by apply Hsb in Hlt|lia].
  - intros j Hj. destruct (decide (Z.to_nat end_ < j)%nat) as [Hlt|Hge]; [by apply Heb in Hlt|lia].
Qed.

(** X8: witness, on the reply "ok {\"a\": 1} bye". *)
Lemma brace_block_bounds_witness :
  let text := strip [111; 107; 32; 123; 97; 125; 32; 98] in
  0 <= py_find 123 text < py_rfind 125 text /\
  py_slice text (py_find 123 text) (py_rfind 125 text + 1) = [123; 97; 125] /\
  (forall j : nat, text !! j = Some 123 -> py_find 123 text <= Z.of_nat j).
Proof.
  intros text.
  assert (H : 0 <= py_find 123 text < py_rfind 125 text) by (vm_compute; split; congruence).
  destruct (brace_block_bounds [111; 107; 32; 123; 97; 125; 32; 98] H) as (_ & _ & _ & _ & Hb & _).
  refine (conj H (conj _ Hb)). vm_compute. reflexivity.
Defined.

End ClientFacts.

(* ===================================================================== *)
(* Proofs: the character registry and characters.yml                       *)
(* ===================================================================== *)

Module MergeFacts.
Import Alias Registry.

Lemma str_ltb_irrefl (a : str) : str_ltb a a = false.
Proof. induction a as [|x a IH]; simpl; [done|]. rewrite IH, Z.ltb_irrefl, Z.eqb_refl. done. Qed.

Lemma str_ltb_trans (a b c : str) : str_ltb a b = true -> str_ltb b c = true -> str_ltb a c = true.
Proof.
  revert b c. induction a as [|x a IH]; intros [|y b] [|z c]; simpl; try done.
  rewrite !orb_true_iff, !andb_true_iff, !Z.ltb_lt, !Z.eqb_eq.
  intros [H1|[-> H1]] [H2|[-> H2]]; try (left; lia). right. split; [done|]. eauto.
Qed.

Lemma str_ltb_total (a b : str) : a <> b -> str_ltb a b = true \/ str_ltb b a = true.
Proof.
  revert b. induction a as [|x a IH]; intros [|y b] Hne; simpl; try (by left); try (by right).
  rewrite !orb_true_iff, !andb_true_iff, !Z.ltb_lt, !Z.eqb_eq.
  destruct (Z.lt_trichotomy x y) as [Hlt|[->|Hgt]]; [by left; left| |by right; left].
  assert (a <> b) as Hab by congruence. destruct (IH b Hab); [left|right]; right; auto.
Qed.

Section Sort.
Context {A : Type} (key : A -> str).
Local Abbreviation R := (fun a b => str_ltb (key a) (key b) = true).

Lemma insert_by_perm (x : A) (l : list A) : insert_by key x l ≡ₚ x :: l.
Proof.
  induction l as [|y l IH]; simpl; [done|].
  destruct (str_ltb (key y) (key x)); [|done]. rewrite IH. apply Permutation_swap.
Qed.

Lemma sort_by_perm (l : list A) : sort_by key l ≡ₚ l.
Proof.
  induction l as [|x l IH]; [done|]. unfold sort_by in *. simpl.
  rewrite insert_by_perm, IH. done.
Qed.

Lemma insert_by_sorted (x : A) (l : list A) :
  StronglySorted R l -> (forall y, y ∈ l -> key y <> key x) -> StronglySorted R (insert_by key x l).
Proof.
  induction l as [|y l IH]; intros Hs Hk; simpl; [repeat constructor|].
  inversion Hs as [|? ? Hs' Hall]; subst.
  destruct (str_ltb (key y) (key x)) eqn:Hyx.
  - constructor.
    + apply IH; [done|]. intros z Hz. apply Hk. by apply list_elem_of_further.
    + apply Forall_forall. intros z Hz. rewrite insert_by_perm in Hz.
      apply elem_of_cons in Hz as [->|Hz]; [done|]. rewrite Forall_forall in Hall. by apply Hall.
  - assert (Hxy : str_ltb (key x) (key y) = true).
    { destruct (str_ltb_total (key x) (key y)) as [H|H]; [|done|congruence].
      intros E. apply (Hk y); [apply list_elem_of_here|done]. }
    constructor; [done|]. constructor; [done|].
    eapply Forall_impl; [exact Hall|]. intros z Hz. eapply str_ltb_trans; eauto.
Qed.

Lemma sort_by_sorted (l : list A) : NoDup (map key l) -> StronglySorted R (sort_by key l).
Proof.
  induction l as [|x l IH]; intros Hn; [constructor|]. unfold sort_by in *. simpl in *.
  apply NoDup_cons in Hn as [Hx Hn]. apply insert_by_sorted; [by apply IH|].
  intros y Hy E. apply Hx. rewrite <- E. apply list_elem_of_In, in_map, list_elem_of_In.
  fold (sort_by key l) in Hy. by rewrite sort_by_perm in Hy.
Qed.

End Sort.

Lemma SSorted_take {A} (R : A -> A -> Prop) (n : nat) (l : list A) :
  StronglySorted R l -> StronglySorted R (take n l).
Proof.
  revert n. induction l as [|x l IH]; intros [|n] Hs; simpl; try constructor.
  all: inversion Hs as [|? ? Hs' Hall]; subst.
  - by apply IH.
  - by apply Forall_take.
Qed.

Lemma SSorted_app_lt {A} (R : A -> A -> Prop) (l1 l2 : list A) :
  StronglySorted R (l1 ++ l2) -> forall a b, a ∈ l1 -> b ∈ l2 -> R a b.
Proof.
  induction l1 as [|x l1 IH]; intros Hs a b Ha Hb; [by apply not_elem_of_nil in Ha|].
  inversion Hs as [|? ? Hs' Hall]; subst.
  apply elem_of_cons in Ha as [->|Ha]; [|by apply IH].
  rewrite Forall_forall in Hall. apply Hall. apply elem_of_app. by right.
Qed.

Lemma SSorted_map {A B} (R : B -> B -> Prop) (f : A -> B) (l : list A) :
  StronglySorted (fun a b => R (f a) (f b)) l -> StronglySorted R (map f l).
Proof.
  induction l as [|x l IH]; intros Hs; simpl; [constructor|].
  inversion Hs as [|? ? Hs' Hall]; subst. constructor; [by apply IH|].
  apply Forall_map. done.
Qed.

Lemma sorted_set_spec (s : gset str) :
  StronglySorted (fun a b => str_ltb a b = true) (sorted_set s) /\
  NoDup (sorted_set s) /\ (forall a, a ∈ sorted_set s <-> a ∈ s) /\
  length (sorted_set s) = size s.
Proof.
  unfold sorted_set. pose proof (sort_by_perm (fun x : str => x) (elements s)) as Hp.
  split_and!.
  - apply (sort_by_sorted (fun x : str => x)). rewrite list_fmap_id. apply NoDup_elements.
  - rewrite Hp. apply NoDup_elements.
  - intros a. rewrite Hp. apply elem_of_elements.
  - rewrite Hp. done.
Qed.

Lemma take_sorted_set (n : nat) (s : gset str) :
  let l := take n (sorted_set s) in
  length l = Nat.min n (size s) /\
  StronglySorted (fun a b => str_ltb a b = true) l /\ NoDup l /\
  (forall a, a ∈ l -> a ∈ s) /\
  (forall a b, a ∈ l -> b ∈ s -> b ∉ l -> str_ltb a b = true) /\
  ((size s <= n)%nat -> forall a, a ∈ s -> a ∈ l).
Proof.
  intros l. destruct (sorted_set_spec s) as (Hs & Hn & Hm & Hl).
  assert (Hsplit : sorted_set s = l ++ drop n (sorted_set s)) by (symmetry; apply take_drop).
  split_and!.
  - unfold l. rewrite length_take, Hl. lia.
  - by apply SSorted_take.
  - rewrite Hsplit, NoDup_app in Hn. apply Hn.
  - intros a Ha. apply Hm. rewrite Hsplit. apply elem_of_app. by left.
  - intros a b Ha Hb Hnb. apply Hm in Hb. rewrite Hsplit in Hs, Hb.
    apply elem_of_app in Hb as [Hb|Hb]; [done|].
    exact (SSorted_app_lt _ _ _ Hs a b Ha Hb).
  - intros Hsz a Ha. apply Hm in Ha. unfold l. rewrite take_ge; [done|lia].
Qed.

Lemma character_of_facts (name : str) (o : char_obj) :
  let ch := character_of name o in
  ch_name ch = name /\ ch_type ch = co_type o /\
  length (ch_aliases ch) = Nat.min 50 (size (co_aliases o)) /\
  StronglySorted (fun a b => str_ltb a b = true) (ch_aliases ch) /\
  (forall a, a ∈ ch_aliases ch -> a ∈ co_aliases o) /\
  (forall a b, a ∈ ch_aliases ch -> b ∈ co_aliases o -> b ∉ ch_aliases ch -> str_ltb a b = true) /\
  ((size (co_aliases o) <= 50)%nat -> forall a, a ∈ co_aliases o -> a ∈ ch_aliases ch) /\
  length (ch_refs ch) = Nat.min 200 (size (co_refs o)) /\
  StronglySorted (fun a b => str_ltb a b = true) (ch_refs ch) /\
  (forall r, r ∈ ch_refs ch -> r ∈ co_refs o) /\
  (forall a b, a ∈ ch_refs ch -> b ∈ co_refs o -> b ∉ ch_refs ch -> str_ltb a b = true) /\
  ((size (co_refs o) <= 200)%nat -> forall r, r ∈ co_refs o -> r ∈ ch_refs ch).
Proof.
  intros ch. simpl.
  destruct (take_sorted_set 50 (co_aliases o)) as (Ha1 & Ha2 & _ & Ha3 & Ha4 & Ha5).
  destruct (take_sorted_set 200 (co_refs o)) as (Hr1 & Hr2 & _ & Hr3 & Hr4 & Hr5).
  split_and!; done.
Qed.

Lemma characters_out_facts (cm : gmap str char_obj) :
  StronglySorted (fun a b => str_ltb a b = true) (map ch_name (characters_out cm)) /\
  (forall ch, ch ∈ characters_out cm -> exists o, cm !! ch_name ch = Some o /\ ch = character_of (ch_name ch) o) /\
  (forall n o, cm !! n = Some o -> character_of n o ∈ characters_out cm) /\
  length (characters_out cm) = size cm.
Proof.
  assert (Hp : sort_by fst (map_to_list cm) ≡ₚ map_to_list cm) by apply sort_by_perm.
  unfold characters_out. split_and!.
  - rewrite map_map.
    replace (map (fun x => ch_name (let '(name, o) := x in character_of name o)) (sort_by fst (map_to_list cm)))
      with (map fst (sort_by fst (map_to_list cm))).
    + apply SSorted_map, sort_by_sorted. apply NoDup_fst_map_to_list.
    + apply map_ext. by intros [n o].
  - intros ch Hch. apply list_elem_of_In, in_map_iff in Hch as ([n o] & <- & Hin).
    apply list_elem_of_In in Hin. rewrite Hp in Hin. apply elem_of_map_to_list in Hin.
    exists o. split; done.
  - intros n o Hno. apply list_elem_of_In, in_map_iff. exists (n, o). split; [done|].
    apply list_elem_of_In. rewrite Hp. by apply elem_of_map_to_list.
  - rewrite length_map, Hp. apply length_map_to_list.
Qed.

Section Reg.
Variable py_str_json : json -> str.
Variable amap : gmap str str.
Local Abbreviation cname e := (_canon amap (get_str py_str_json e Lit.k_name)).
Local Abbreviation type_of e :=
  (match obj_get e Lit.k_type with Some v => v | None => JStr Lit.v_person end).
Local Abbreviation AL e a n := (exists als, e_aliases (entity_of py_str_json e) = Some als /\
  exists a0, a0 ∈ als /\ a = _norm_name a0 /\ a <> [] /\ a <> n).
Local Abbreviation NT e s := (exists s0, obj_get e Lit.k_notes = Some (JStr s0) /\ s = strip s0 /\ s <> []).
Local Abbreviation RF e r := (exists cid, obj_get e Lit.k__chunk_id = Some cid /\
  py_truthy cid = true /\ r = py_str_json cid).

Lemma reg_aliases_spec (name : str) (als : list str) (o : char_obj) :
  co_name (reg_aliases name als o) = co_name o /\ co_type (reg_aliases name als o) = co_type o /\
  co_notes (reg_aliases name als o) = co_notes o /\ co_refs (reg_aliases name als o) = co_refs o /\
  forall a, a ∈ co_aliases (reg_aliases name als o) <->
    a ∈ co_aliases o \/ exists a0, a0 ∈ als /\ a = _norm_name a0 /\ a <> [] /\ a <> name.
Proof.
  unfold reg_aliases. revert o. induction als as [|a0 als IH]; intros o; simpl.
  - split_and!; try done. intros a. split; [by left|]. intros [H|(a0 & Ha0 & _)]; [done|].
    by apply not_elem_of_nil in Ha0.
  - destruct (IH (match _norm_name a0 with [] => o | _ :: _ =>
        if decide (_norm_name a0 = name) then o else add_alias (_norm_name a0) o end))
      as (H1 & H2 & H3 & H4 & H5).
    rewrite H1, H2, H3, H4.
    destruct (_norm_name a0) as [|c cs] eqn:En; [|case_decide as Hd]; simpl.
    + split_and!; try done. intros a. rewrite H5. split.
      * intros [H|(a1 & Ha1 & ->  & Hne & Hn)]; [by left|]. right. exists a1.
        split_and!; try done. by apply list_elem_of_further.
      * intros [H|(a1 & Ha1 & -> & Hne & Hn)]; [by left|].
        apply elem_of_cons in Ha1 as [->|Ha1]; [congruence|]. right. by exists a1.
    + split_and!; try done. intros a. rewrite H5. split.
      * intros [H|(a1 & Ha1 & ->  & Hne & Hn)]; [by left|]. right. exists a1.
        split_and!; try done. by apply list_elem_of_further.
      * intros [H|(a1 & Ha1 & -> & Hne & Hn)]; [by left|].
        apply elem_of_cons in Ha1 as [->|Ha1]; [congruence|]. right. by exists a1.
    + split_and!; try done. intros a. rewrite H5. simpl. rewrite elem_of_union, elem_of_singleton. split.
      * intros [[->|H]|(a1 & Ha1 & ->  & Hne & Hn)].
        { right. exists a0. split_and!; [apply list_elem_of_here|done|done|congruence]. }
        { by left. }
        { right. exists a1. split_and!; try done. by apply list_elem_of_further. }
      * intros [H|(a1 & Ha1 & -> & Hne & Hn)]; [by left; right|].
        apply elem_of_cons in Ha1 as [->|Ha1]; [by left; left|]. right. by exists a1.
Qed.

Lemma reg_obj_spec (name : str) (obj : char_obj) (e : list (str * json)) :
  let obj1 := match e_aliases (entity_of py_str_json e) with
              | Some als => reg_aliases name als obj
              | None => obj
              end in
  let obj2 := match obj_get e Lit.k_notes with
              | Some (JStr s) => match strip s with
                                 | [] => obj1
                                 | n => add_note n obj1
                                 end
              | _ => obj1
              end in
  let obj3 := match obj_get e Lit.k__chunk_id with
              | Some cid => if py_truthy cid then add_ref (py_str_json cid) obj2 else obj2
              | None => obj2
              end in
  co_name obj3 = co_name obj /\ co_type obj3 = co_type obj /\
  (forall a, a ∈ co_aliases obj3 <-> a ∈ co_aliases obj \/ AL e a name) /\
  (forall s, s ∈ co_notes obj3 <-> s ∈ co_notes obj \/ NT e s) /\
  (forall r, r ∈ co_refs obj3 <-> r ∈ co_refs obj \/ RF e r).
Proof.
  intros o1 o2 o3.
  assert (Ho1 : co_name o1 = co_name obj /\ co_type o1 = co_type obj /\
    co_notes o1 = co_notes obj /\ co_refs o1 = co_refs obj /\
    forall a, a ∈ co_aliases o1 <-> a ∈ co_aliases obj \/ AL e a name).
  { unfold o1. destruct (e_aliases (entity_of py_str_json e)) as [als|] eqn:Ea.
    - destruct (reg_aliases_spec name als obj) as (H1 & H2 & H3 & H4 & H5).
      split_and!; try done. intros a. rewrite H5. split.
      + intros [H|H]; [by left|]. right. by exists als.
      + intros [H|(als' & [= <-] & H)]; [by left|by right].
    - split_and!; try done. intros a. split; [by left|]. intros [H|(als' & ? & _)]; [done|congruence]. }
  clearbody o1. destruct Ho1 as (A1 & A2 & A3 & A4 & A5).
  assert (Ho2 : co_name o2 = co_name obj /\ co_type o2 = co_type obj /\
    co_refs o2 = co_refs obj /\ (forall a, a ∈ co_aliases o2 <-> a ∈ co_aliases obj \/ AL e a name) /\
    forall s, s ∈ co_notes o2 <-> s ∈ co_notes obj \/ NT e s).
  { unfold o2. destruct (obj_get e Lit.k_notes) as [[| | | s0 | |]|] eqn:Enote;
      try (split_and!; try done; intros s; rewrite A3; split; [by left|];
           intros [H|(s0 & Hs0 & _)]; [done|congruence]).
    destruct (strip s0) as [|d ds] eqn:Es.
    - split_and!; try done. intros s. rewrite A3. split; [by left|].
      intros [H|(s1 & [= <-] & -> & Hne)]; [done|congruence].
    - simpl. split_and!; try done. intros s. rewrite elem_of_union, elem_of_singleton, A3. split.
      + intros [->|H]; [|by left]. right. by exists s0.
      + intros [H|(s1 & [= <-] & -> & Hne)]; [by right|by left]. }
  clearbody o2. destruct Ho2 as (B1 & B2 & B3 & B4 & B5).
  unfold o3. destruct (obj_get e Lit.k__chunk_id) as [cid|] eqn:Ec; [destruct (py_truthy cid) eqn:Et|]; simpl;
    split_and!; try done.
  - intros r. rewrite elem_of_union, elem_of_singleton, B3. split.
    + intros [->|H]; [|by left]. right. by exists cid.
    + intros [H|(cid' & [= <-] & _ & ->)]; [by right|by left].
  - intros r. rewrite B3. split; [by left|]. intros [H|(cid' & [= <-] & Ht & _)]; [done|congruence].
  - intros r. rewrite B3. split; [by left|]. intros [H|(cid' & Hc & _)]; [done|congruence].
Qed.

Lemma reg_step_cases (cm : gmap str char_obj) (e : list (str * json)) :
  (cname e = [] /\ reg_step py_str_json amap cm e = cm) \/
  (cname e <> [] /\ exists o3, reg_step py_str_json amap cm e = <[cname e := o3]> cm /\
   let obj := match cm !! cname e with
              | Some o => o | None => mkCharObj (cname e) ∅ ∅ (type_of e) ∅ end in
   co_name o3 = co_name obj /\ co_type o3 = co_type obj /\
   (forall a, a ∈ co_aliases o3 <-> a ∈ co_aliases obj \/ AL e a (cname e)) /\
   (forall s, s ∈ co_notes o3 <-> s ∈ co_notes obj \/ NT e s) /\
   (forall r, r ∈ co_refs o3 <-> r ∈ co_refs obj \/ RF e r)).
Proof.
  unfold reg_step. destruct (cname e) as [|c cs] eqn:En; [by left|]. right.
  split; [done|]. eexists. split; [reflexivity|].
  exact (reg_obj_spec (c :: cs) (match cm !! (c :: cs) with
              | Some o => o | None => mkCharObj (c :: cs) ∅ ∅ (type_of e) ∅ end) e).
Qed.

Local Abbreviation INV l cm :=
  ((forall n, is_Some (cm !! n) <-> n <> [] /\ exists e, e ∈ l /\ cname e = n) /\
   (forall n o, cm !! n = Some o ->
      co_name o = n /\
      (exists l1 e l2, l = l1 ++ e :: l2 /\ cname e = n /\ (forall e', e' ∈ l1 -> cname e' <> n) /\
         co_type o = type_of e) /\
      (forall a, a ∈ co_aliases o <-> exists e, e ∈ l /\ cname e = n /\ AL e a n) /\
      (forall s, s ∈ co_notes o <-> exists e, e ∈ l /\ cname e = n /\ NT e s) /\
      (forall r, r ∈ co_refs o <-> exists e, e ∈ l /\ cname e = n /\ RF e r))).

Lemma ex_snoc (Q : list (str * json) -> Prop) (l : list (list (str * json))) (e : list (str * json)) (n : str) :
  (exists e', e' ∈ l ++ [e] /\ cname e' = n /\ Q e') <->
  (exists e', e' ∈ l /\ cname e' = n /\ Q e') \/ (cname e = n /\ Q e).
Proof.
  split.
  - intros (e' & He' & Hc & Hq). apply elem_of_app in He' as [He'|He'].
    + left. by exists e'.
    + apply list_elem_of_singleton in He' as ->. by right.
  - intros [(e' & He' & Hc & Hq)|[Hc Hq]].
    + exists e'. split_and!; try done. apply elem_of_app. by left.
    + exists e. split_and!; try done. apply elem_of_app. right. apply list_elem_of_here.
Qed.

Lemma registry_step (l : list (list (str * json))) (cm : gmap str char_obj) (e : list (str * json)) :
  INV l cm -> INV (l ++ [e]) (reg_step py_str_json amap cm e).
Proof.
  intros [Hk Ho].
  (* an entry other than the one e names keeps its facts *)
  assert (Hother : forall n o, cname e <> n -> cm !! n = Some o ->
      co_name o = n /\
      (exists l1 e0 l2, l ++ [e] = l1 ++ e0 :: l2 /\ cname e0 = n /\ (forall e', e' ∈ l1 -> cname e' <> n) /\
         co_type o = type_of e0) /\
      (forall a, a ∈ co_aliases o <-> exists e', e' ∈ l ++ [e] /\ cname e' = n /\ AL e' a n) /\
      (forall s, s ∈ co_notes o <-> exists e', e' ∈ l ++ [e] /\ cname e' = n /\ NT e' s) /\
      (forall r, r ∈ co_refs o <-> exists e', e' ∈ l ++ [e] /\ cname e' = n /\ RF e' r)).
  { intros n o Hne Hno. destruct (Ho n o Hno) as (N & (l1 & e0 & l2 & -> & T1 & T2 & T3) & Al & Nt & Rf).
    split_and!; try done.
    - exists l1, e0, (l2 ++ [e]). split_and!; try done. by rewrite <- app_assoc.
    - intros a. rewrite Al, ex_snoc. split; [by left|]. intros [H|[Hc _]]; [done|congruence].
    - intros s0. rewrite Nt, ex_snoc. split; [by left|]. intros [H|[Hc _]]; [done|congruence].
    - intros r. rewrite Rf, ex_snoc. split; [by left|]. intros [H|[Hc _]]; [done|congruence]. }
  assert (Hkey_other : forall n, cname e <> n ->
      (is_Some (cm !! n) <-> n <> [] /\ exists e', e' ∈ l ++ [e] /\ cname e' = n)).
  { intros n Hne. rewrite Hk. pose proof (ex_snoc (fun _ => True) l e n) as Hx.
    split.
    - intros [Hn (e' & He' & Hc)]. split; [done|]. destruct (proj2 Hx (or_introl (ex_intro _ e' (conj He' (conj Hc I))))) as (e'' & ? & ? & _). eauto.
    - intros [Hn (e' & He' & Hc)]. split; [done|].
      destruct (proj1 Hx (ex_intro _ e' (conj He' (conj Hc I)))) as [(e'' & ? & ? & _)|[Hc' _]]; [eauto|congruence]. }
  destruct (reg_step_cases cm e) as [[Hn ->]|[Hn (o3 & -> & Hf)]].
  - split.
    + intros n. destruct (decide (n = [])) as [->|Hne].
      * rewrite Hk. split; intros [? _]; done.
      * apply Hkey_other. congruence.
    + intros n o Hno. apply Hother; [|done]. intros <-. rewrite Hn in Hno.
      assert (Hs : is_Some (cm !! [])) by (by eexists). apply Hk in Hs as [? _]. done.
  - destruct Hf as (F1 & F2 & F3 & F4 & F5).
    split.
    + intros n. destruct (decide (cname e = n)) as [<-|Hne].
      * rewrite lookup_insert_eq. split; [|by eexists]. intros _. split; [done|].
        exists e. split; [|done]. apply elem_of_app. right. apply list_elem_of_here.
      * rewrite lookup_insert_ne; [|done]. by apply Hkey_other.
    + intros n o Hno. destruct (decide (cname e = n)) as [<-|Hne].
      * rewrite lookup_insert_eq in Hno. injection Hno as <-.
        destruct (cm !! cname e) as [o|] eqn:Hcm.
        { destruct (Ho _ o Hcm) as (N & (l1 & e0 & l2 & -> & T1 & T2 & T3) & Al & Nt & Rf).
          split_and!.
          - by rewrite F1.
          - exists l1, e0, (l2 ++ [e]). split_and!; try done; [by rewrite <- app_assoc|by rewrite F2].
          - intros a. rewrite F3, Al, ex_snoc. split; (intros [H|H]; [by left|]); right; [done|apply H].
          - intros s0. rewrite F4, Nt, ex_snoc. split; (intros [H|H]; [by left|]); right; [done|apply H].
          - intros r. rewrite F5, Rf, ex_snoc. split; (intros [H|H]; [by left|]); right; [done|apply H]. }
        { assert (Hnone : forall e', e' ∈ l -> cname e' <> cname e).
          { intros e' He' Hc. assert (Hs : is_Some (cm !! cname e)).
            { apply Hk. split; [done|]. by exists e'. }
            rewrite Hcm in Hs. by destruct Hs. }
          simpl in F1, F2, F3, F4, F5. split_and!.
          - done.
          - exists l, e, []. split_and!; done.
          - intros a. rewrite F3, ex_snoc. split.
            + intros [H|H]; [set_solver|]. by right.
            + intros [(e' & He' & Hc & _)|[_ H]]; [by apply Hnone in He'|by right].
          - intros s0. rewrite F4, ex_snoc. split.
            + intros [H|H]; [set_solver|]. by right.
            + intros [(e' & He' & Hc & _)|[_ H]]; [by apply Hnone in He'|by right].
          - intros r. rewrite F5, ex_snoc. split.
            + intros [H|H]; [set_solver|]. by right.
            + intros [(e' & He' & Hc & _)|[_ H]]; [by apply Hnone in He'|by right]. }
      * rewrite lookup_insert_ne in Hno; [|done]. by apply Hother.
Qed.

Lemma registry_inv (ents : list (list (str * json))) :
  INV ents (char_registry py_str_json amap ents).
Proof.
  induction ents as [|e ents IH] using rev_ind.
  - unfold char_registry. simpl. unfold str in *. split.
    + intros n. rewrite lookup_empty. split; [by intros []|]. intros (_ & e & He & _).
      by apply not_elem_of_nil in He.
    + intros n o Hno. by rewrite lookup_empty in Hno.
  - unfold char_registry in *. rewrite fold_left_app. simpl. by apply registry_step.
Qed.

End Reg.

(** X9. A character of characters.yml keeps, of the sets built for it,
    the 50 smallest aliases and the 200 smallest evidence refs (string
    order), in increasing order and without repetition; all of them are
    kept when the set is no larger than the cap; its name and type are
    those of the registry entry. *)
Theorem character_fields (name : str) (o : char_obj) :
  let ch := character_of name o in
  ch_name ch = name /\ ch_type ch = co_type o /\
  length (ch_aliases ch) = Nat.min 50 (size (co_aliases o)) /\
  StronglySorted (fun a b => str_ltb a b = true) (ch_aliases ch) /\
  (forall a, a ∈ ch_aliases ch -> a ∈ co_aliases o) /\
  (forall a b, a ∈ ch_aliases ch -> b ∈ co_aliases o -> b ∉ ch_aliases ch -> str_ltb a b = true) /\
  ((size (co_aliases o) <= 50)%nat -> forall a, a ∈ co_aliases o -> a ∈ ch_aliases ch) /\
  length (ch_refs ch) = Nat.min 200 (size (co_refs o)) /\
  StronglySorted (fun a b => str_ltb a b = true) (ch_refs ch) /\
  (forall r, r ∈ ch_refs ch -> r ∈ co_refs o) /\
  (forall a b, a ∈ ch_refs ch -> b ∈ co_refs o -> b ∉ ch_refs ch -> str_ltb a b = true) /\
  ((size (co_refs o) <= 200)%nat -> forall r, r ∈ co_refs o -> r ∈ ch_refs ch).
Proof. exact (character_of_facts name o). Qed.

(** X10. characters_out lists exactly one character per entry of
    char_map: the names are strictly increasing (so no name appears twice),
    every element is character_of of an entry, and every entry gives one
    element. *)
Theorem characters_out_spec (cm : gmap str char_obj) :
  StronglySorted (fun a b => str_ltb a b = true) (map ch_name (characters_out cm)) /\
  (forall ch, ch ∈ characters_out cm -> exists o, cm !! ch_name ch = Some o /\ ch = character_of (ch_name ch) o) /\
  (forall n o, cm !! n = Some o -> character_of n o ∈ characters_out cm) /\
  length (characters_out cm) = size cm.
Proof. exact (characters_out_facts cm). Qed.

(** X11. The registry merge.py builds (char_map) from the collected
    entities, for any alias map: it has an entry exactly for each non-empty
    canonical name _canon(alias_map, str(e.get("name", ""))) of an entity;
    the entry's name is that key and its type is the "type" of the first
    entity with that canonical name ("person" when absent); its aliases are
    the non-empty normalized aliases of the entities with that canonical
    name that differ from it, its notes their non-blank stripped notes, and
    its evidence refs str() of their truthy chunk ids. *)
Theorem char_registry_contents (py_str_json : json -> str) (amap : gmap str str)
    (ents : list (list (str * json))) :
  let cname e := _canon amap (get_str py_str_json e Lit.k_name) in
  let cm := char_registry py_str_json amap ents in
  (forall n, is_Some (cm !! n) <-> n <> [] /\ exists e, e ∈ ents /\ cname e = n) /\
  (forall n o, cm !! n = Some o ->
     co_name o = n /\
     (exists l1 e l2, ents = l1 ++ e :: l2 /\ cname e = n /\ (forall e', e' ∈ l1 -> cname e' <> n) /\
        co_type o = match obj_get e Lit.k_type with Some v => v | None => JStr Lit.v_person end) /\
     (forall a, a ∈ co_aliases o <-> exists e, e ∈ ents /\ cname e = n /\
        exists als, e_aliases (entity_of py_str_json e) = Some als /\
        exists a0, a0 ∈ als /\ a = _norm_name a0 /\ a <> [] /\ a <> n) /\
     (forall s, s ∈ co_notes o <-> exists e, e ∈ ents /\ cname e = n /\
        exists s0, obj_get e Lit.k_notes = Some (JStr s0) /\ s = strip s0 /\ s <> []) /\
     (forall r, r ∈ co_refs o <-> exists e, e ∈ ents /\ cname e = n /\
        exists cid, obj_get e Lit.k__chunk_id = Some cid /\ py_truthy cid = true /\ r = py_str_json cid)).
Proof. intros cname cm. exact (registry_inv py_str_json amap ents). Qed.

Lemma obj_get_snoc (kvs : list (str * json)) (k : str) (v : json) :
  obj_get (kvs ++ [(k, v)]) k = Some v.
Proof. unfold obj_get. rewrite fold_left_app. simpl. by case_decide. Qed.

Lemma dict_elems_spec (v : json) (x : list (str * json)) :
  x ∈ dict_elems v <-> exists l, v = JArr l /\ JObj x ∈ l.
Proof.
  destruct v as [| | | |l|]; simpl;
    try (split; [intros H; by apply not_elem_of_nil in H | intros (l & ? & _); congruence]).
  rewrite list_elem_of_In, in_flat_map. split.
  - intros (y & Hy & Hx). destruct y; simpl in Hx; try done.
    destruct Hx as [<-|[]]. exists l. split; [done|]. by apply list_elem_of_In.
  - intros (l' & [= <-] & H). exists (JObj x). split; [by apply list_elem_of_In|]. by left.
Qed.

Lemma collect_row_none (r : json) :
  collect_row r = None <->
  (forall rkvs, r <> JObj rkvs) \/
  (exists rkvs v, r = JObj rkvs /\ obj_get rkvs Lit.k_extraction = Some v /\ py_truthy v = true /\
     forall ex, v <> JObj ex).
Proof.
  destruct r as [| | | | |rkvs];
    try (split; [intros _; left; congruence|intros _; reflexivity]).
  simpl. unfold get_or. destruct (obj_get rkvs Lit.k_extraction) as [v|] eqn:Ev.
  - destruct (py_truthy v) eqn:Et.
    + destruct v as [| | | | |ex];
        try (split; [intros _; right; exists rkvs; eexists; split_and!; [done|done|done|congruence] | done]).
      split; [done|]. intros [H|(rkvs' & v' & [= <-] & Hv & _ & Hn)]; [by destruct (H rkvs)|].
      rewrite Ev in Hv. injection Hv as <-. by destruct (Hn ex).
    + split; [done|]. intros [H|(rkvs' & v' & [= <-] & Hv & Ht & _)]; [by destruct (H rkvs)|].
      rewrite Ev in Hv. injection Hv as <-. congruence.
  - split; [done|]. intros [H|(rkvs' & v' & [= <-] & Hv & _)]; [by destruct (H rkvs)|congruence].
Qed.

Lemma collect_none_iff (rows : list json) :
  collect rows = None <-> exists r, r ∈ rows /\ collect_row r = None.
Proof.
  induction rows as [|r rest IH]; simpl.
  - split; [done|]. intros (r & Hr & _). by apply not_elem_of_nil in Hr.
  - destruct (collect_row r) as [[es rs]|] eqn:Er.
    + destruct (collect rest) as [[es' rs']|] eqn:Ec.
      * split; [done|]. intros (r' & Hr' & Hn). apply elem_of_cons in Hr' as [->|Hr']; [congruence|].
        assert (Habs : Some (es', rs') = None) by (apply IH; by exists r'). done.
      * split; [|done]. intros _. destruct (proj1 IH eq_refl) as (r' & Hr' & Hn).
        exists r'. split; [by apply list_elem_of_further|done].
    + split; [|done]. intros _. exists r. split; [apply list_elem_of_here|done].
Qed.

Lemma collect_some_iff (rows : list json) ents rels :
  collect rows = Some (ents, rels) ->
  (forall e, e ∈ ents <-> exists r es rs, r ∈ rows /\ collect_row r = Some (es, rs) /\ e ∈ es) /\
  (forall x, x ∈ rels <-> exists r es rs, r ∈ rows /\ collect_row r = Some (es, rs) /\ x ∈ rs).
Proof.
  revert ents rels. induction rows as [|r rest IH]; intros ents rels; simpl.
  - intros [= <- <-]. split; intros x; (split; [intros H; by apply not_elem_of_nil in H|]);
      intros (r & es & rs & Hr & _); by apply not_elem_of_nil in Hr.
  - destruct (collect_row r) as [[es rs]|] eqn:Er; [|done].
    destruct (collect rest) as [[es' rs']|] eqn:Ec; [|done].
    intros [= <- <-]. destruct (IH es' rs' eq_refl) as [IH1 IH2]. split.
    + intros e. rewrite elem_of_app, IH1. split.
      * intros [H|(r' & es1 & rs1 & Hr' & Hc & He)].
        -- exists r, es, rs. split_and!; [apply list_elem_of_here|done|done].
        -- exists r', es1, rs1. split_and!; [by apply list_elem_of_further|done|done].
      * intros (r' & es1 & rs1 & Hr' & Hc & He). apply elem_of_cons in Hr' as [->|Hr'].
        -- left. congruence.
        -- right. by exists r', es1, rs1.
    + intros x. rewrite elem_of_app, IH2. split.
      * intros [H|(r' & es1 & rs1 & Hr' & Hc & He)].
        -- exists r, es, rs. split_and!; [apply list_elem_of_here|done|done].
        -- exists r', es1, rs1. split_and!; [by apply list_elem_of_further|done|done].
      * intros (r' & es1 & rs1 & Hr' & Hc & He). apply elem_of_cons in Hr' as [->|Hr'].
        -- left. congruence.
        -- right. by exists r', es1, rs1.
Qed.

Lemma collect_row_some (r : json) es rs :
  collect_row r = Some (es, rs) ->
  exists rkvs ex, r = JObj rkvs /\ get_or rkvs Lit.k_extraction (JObj []) = JObj ex /\
    (forall e, e ∈ es <-> exists l e0, get_or ex Lit.k_entities (JArr []) = JArr l /\ JObj e0 ∈ l /\
       e = with_chunk_id e0 (match obj_get rkvs Lit.k_chunk_id with Some v => v | None => JNull end)) /\
    (forall m rel, (m, rel) ∈ rs <-> m = rkvs /\ exists l, get_or ex Lit.k_relations (JArr []) = JArr l /\
       JObj rel ∈ l).
Proof.
  destruct r as [| | | | |rkvs]; try done. simpl.
  destruct (get_or rkvs Lit.k_extraction (JObj [])) as [| | | | |ex] eqn:Eex; try done.
  intros [= <- <-]. exists rkvs, ex. split_and!; try done.
  - intros e. rewrite list_elem_of_In, in_map_iff. split.
    + intros (e0 & <- & He0). apply list_elem_of_In, dict_elems_spec in He0 as (l & Hl & Hin).
      by exists l, e0.
    + intros (l & e0 & Hl & Hin & ->). exists e0. split; [done|].
      apply list_elem_of_In, dict_elems_spec. by exists l.
  - intros m rel. rewrite list_elem_of_In, in_map_iff. split.
    + intros (rel0 & [= <- <-] & Hr). apply list_elem_of_In, dict_elems_spec in Hr. done.
    + intros (-> & Hl). exists rel. split; [done|]. by apply list_elem_of_In, dict_elems_spec.
Qed.

(** X12. Collecting mentions (the `for r in rows` loop of merge.py): it
    raises (None) exactly when some row is not a dict or has a truthy
    "extraction" that is not a dict. Otherwise the entities are exactly the
    dict elements of the "entities" list of each row's extraction, each
    extended with "_chunk_id" set to the row's "chunk_id" (None when
    absent); the relation rows are exactly the pairs (row, dict element of
    its "relations" list); a value that is not a list, or an element that
    is not a dict, is skipped. *)
Theorem collect_rows (rows : list json) :
  (collect rows = None <-> exists r, r ∈ rows /\
     ((forall rkvs, r <> JObj rkvs) \/
      exists rkvs v, r = JObj rkvs /\ obj_get rkvs Lit.k_extraction = Some v /\
        py_truthy v = true /\ forall ex, v <> JObj ex)) /\
  (forall ents rels, collect rows = Some (ents, rels) ->
     (forall e, e ∈ ents <-> exists rkvs ex l e0, JObj rkvs ∈ rows /\
        get_or rkvs Lit.k_extraction (JObj []) = JObj ex /\
        get_or ex Lit.k_entities (JArr []) = JArr l /\ JObj e0 ∈ l /\
        e = e0 ++ [(Lit.k__chunk_id, match obj_get rkvs Lit.k_chunk_id with Some v => v | None => JNull end)]) /\
     (forall m rel, (m, rel) ∈ rels <-> exists ex l, JObj m ∈ rows /\
        get_or m Lit.k_extraction (JObj []) = JObj ex /\
        get_or ex Lit.k_relations (JArr []) = JArr l /\ JObj rel ∈ l)).
Proof.
  split.
  - rewrite collect_none_iff. split; intros (r & Hr & H); exists r; split; try done; by apply collect_row_none.
  - intros ents rels Hc. destruct (collect_some_iff rows ents rels Hc) as [H1 H2]. split.
    + intros e. rewrite H1. split.
      * intros (r & es & rs & Hr & Hcr & He).
        destruct (collect_row_some r es rs Hcr) as (rkvs & ex & -> & Hex & Hes & _).
        destruct (proj1 (Hes e) He) as (l & e0 & Hl & Hin & He'). by exists rkvs, ex, l, e0.
      * intros (rkvs & ex & l & e0 & Hr & Hex & Hl & Hin & ->).
        destruct (collect_row (JObj rkvs)) as [[es rs]|] eqn:Hcr.
        -- exists (JObj rkvs), es, rs. split_and!; try done.
           destruct (collect_row_some _ es rs Hcr) as (rkvs' & ex' & [= <-] & Hex' & Hes & _).
           rewrite Hex in Hex'. injection Hex' as <-. apply Hes. by exists l, e0.
        -- exfalso. assert (Hn : collect rows = None) by (apply collect_none_iff; by exists (JObj rkvs)).
           congruence.
    + intros m rel. rewrite H2. split.
      * intros (r & es & rs & Hr & Hcr & He).
        destruct (collect_row_some r es rs Hcr) as (rkvs & ex & -> & Hex & _ & Hrs).
        destruct (proj1 (Hrs _ _) He) as (-> & l & Hl & Hin). by exists ex, l.
      * intros (ex & l & Hr & Hex & Hl & Hin).
        destruct (collect_row (JObj m)) as [[es rs]|] eqn:Hcr.
        -- exists (JObj m), es, rs. split_and!; try done.
           destruct (collect_row_some _ es rs Hcr) as (rkvs' & ex' & [= <-] & Hex' & _ & Hrs).
           rewrite Hex in Hex'. injection Hex' as <-. apply Hrs. split; [done|]. by exists l.
        -- exfalso. assert (Hn : collect rows = None) by (apply collect_none_iff; by exists (JObj m)).
           congruence.
Qed.

Lemma collect_ents_chunk_id (rows : list json) ents rels e :
  collect rows = Some (ents, rels) -> e ∈ ents ->
  exists rkvs, JObj rkvs ∈ rows /\
    obj_get e Lit.k__chunk_id = Some (match obj_get rkvs Lit.k_chunk_id with Some v => v | None => JNull end).
Proof.
  intros Hc He. destruct (collect_some_iff rows ents rels Hc) as [H1 _].
  destruct (proj1 (H1 e) He) as (r & es & rs & Hr & Hcr & Hes).
  destruct (collect_row_some r es rs Hcr) as (rkvs & ex & -> & _ & Hents & _).
  destruct (proj1 (Hents e) Hes) as (l & e0 & _ & _ & He0).
  exists rkvs. split; [done|]. rewrite He0. apply obj_get_snoc.
Qed.

Lemma forallb_false_elem {A} (f : A -> bool) (l : list A) :
  forallb f l = false <-> exists x, x ∈ l /\ f x = false.
Proof.
  induction l as [|x l IH]; simpl.
  - split; [discriminate|]. intros (y & Hy & _). by apply elem_of_nil in Hy.
  - destruct (f x) eqn:Ex; simpl.
    + rewrite IH. split; intros (y & Hy & Hf).
      * exists y. split; [by apply list_elem_of_further|done].
      * exists y. split; [|done]. apply elem_of_cons in Hy as [->|Hy]; [congruence|done].
    + split; [intros _; exists x; split; [apply list_elem_of_here|done]|done].
Qed.

(** X13. What merge.py writes to characters.yml when collecting succeeds
    (alias map from _merge_alias_map on all collected entities). The
    relation loop runs before characters.yml is written: merge.py stops
    before writing it exactly when, for some collected relation, the
    evidence (rel.get("evidence") or {}) is a truthy value that is not a
    dict, or the quote is non-empty and the evidence line cannot be
    encoded in UTF-8. When characters.yml is written: the characters are
    in strictly increasing name order; every entity whose canonical name
    is non-empty has a character of that name, and every character's name
    is the non-empty canonical name of some entity. Each alias of a
    character is non-empty, already normalized, differs from the
    character's name, and is the normalized form of an alias listed by an
    entity with that canonical name. Each evidence ref is str() of the
    truthy "chunk_id" of an input row that listed an entity with that
    canonical name. *)
Theorem merge_characters_sound (py_str_json : json -> str) (json_dumps : json -> str)
    (rows : list json) ents rels
    (Hc : collect rows = Some (ents, rels)) :
  let amap := _merge_alias_map (map (entity_of py_str_json) ents) in
  let cname e := _canon amap (get_str py_str_json e Lit.k_name) in
  (merge_characters py_str_json json_dumps rows = None <->
   exists mr, mr ∈ rels /\ rel_row_ok py_str_json json_dumps amap mr = false) /\
  (forall chars, merge_characters py_str_json json_dumps rows = Some chars ->
  StronglySorted (fun a b => str_ltb a b = true) (map ch_name chars) /\
  (forall e, e ∈ ents -> cname e <> [] -> exists ch, ch ∈ chars /\ ch_name ch = cname e) /\
  (forall ch, ch ∈ chars ->
     ch_name ch <> [] /\ (exists e, e ∈ ents /\ cname e = ch_name ch) /\
     (forall a, a ∈ ch_aliases ch -> a <> ch_name ch /\ a <> [] /\ _norm_name a = a /\
        exists e, e ∈ ents /\ cname e = ch_name ch /\
          exists als, e_aliases (entity_of py_str_json e) = Some als /\
          exists a0, a0 ∈ als /\ _norm_name a0 = a) /\
     (forall r, r ∈ ch_refs ch -> exists rkvs cid, JObj rkvs ∈ rows /\
        obj_get rkvs Lit.k_chunk_id = Some cid /\ py_truthy cid = true /\ r = py_str_json cid /\
        exists e, e ∈ ents /\ cname e = ch_name ch /\ obj_get e Lit.k__chunk_id = Some cid))).
Proof.
  intros amap cname. unfold merge_characters. rewrite Hc. fold amap.
  split.
  { rewrite <- forallb_false_elem.
    destruct (forallb (rel_row_ok py_str_json json_dumps amap) rels); split; done. }
  intros chars Hm.
  destruct (forallb (rel_row_ok py_str_json json_dumps amap) rels); [|discriminate].
  injection Hm as <-.
  set (cm := char_registry py_str_json amap ents).
  destruct (characters_out_facts cm) as (S1 & S2 & S3 & _).
  destruct (registry_inv py_str_json amap ents) as [K O]. fold cm in K, O.
  split_and!.
  - exact S1.
  - intros e He Hn.
    destruct (proj2 (K (cname e)) (conj Hn (ex_intro _ e (conj He eq_refl)))) as [o Ho].
    exists (character_of (cname e) o). split; [by apply S3|done].
  - intros ch Hch. destruct (S2 ch Hch) as (o & Ho & Heq).
    destruct (O _ _ Ho) as (N & _ & Al & _ & Rf).
    assert (Hk : is_Some (cm !! ch_name ch)) by (by eexists).
    apply K in Hk as [Hn Hex].
    destruct (character_of_facts (ch_name ch) o) as (_ & _ & _ & _ & A1 & _ & _ & _ & _ & R1 & _).
    split_and!; [done|done| |].
    + intros a Ha. rewrite Heq in Ha. apply A1, Al in Ha as (e & He & Hce & als & Hals & a0 & Ha0 & Ha & Hne & Hneq).
      split_and!; try done.
      * rewrite Ha. apply AliasFacts.norm_name_idem.
      * exists e. split_and!; try done. exists als. split; [done|]. by exists a0.
    + intros r Hr. rewrite Heq in Hr. apply R1, Rf in Hr as (e & He & Hce & cid & Hcid & Ht & Hr).
      destruct (collect_ents_chunk_id rows ents rels e Hc He) as (rkvs & Hrk & Hcid').
      rewrite Hcid in Hcid'. injection Hcid' as Hcid'.
      destruct (obj_get rkvs Lit.k_chunk_id) as [v|] eqn:Ev; [|by subst cid].
      subst v. exists rkvs, cid. split_and!; try done. by exists e.
Qed.

(** X13: witness, on one row whose extraction lists one entity "A" and
    one relation from "A" to "A" with the evidence quote "q"; the relation
    loop runs through and characters.yml is written. *)
Lemma merge_characters_sound_witness :
  let rows := [JObj [(Lit.k_chunk_id, JStr [48]);
                     (Lit.k_extraction,
                      JObj [(Lit.k_entities, JArr [JObj [(Lit.k_name, JStr [65])]]);
                            (Lit.k_relations,
                             JArr [JObj [(Lit.k_from, JStr [65]); (Lit.k_to, JStr [65]);
                                         (Lit.k_evidence, JObj [(Lit.k_quote, JStr [113])])]])])]] in
  let chars := default [] (merge_characters Extract.str_of_json_sample JsonText.json_dumps_py rows) in
  merge_characters Extract.str_of_json_sample JsonText.json_dumps_py rows = Some chars /\
  StronglySorted (fun a b => str_ltb a b = true) (map ch_name chars).
Proof.
  intros rows chars.
  assert (Hc : collect rows =
     Some ([[(Lit.k_name, JStr [65]); (Lit.k__chunk_id, JStr [48])]],
           [([(Lit.k_chunk_id, JStr [48]);
              (Lit.k_extraction,
               JObj [(Lit.k_entities, JArr [JObj [(Lit.k_name, JStr [65])]]);
                     (Lit.k_relations,
                      JArr [JObj [(Lit.k_from, JStr [65]); (Lit.k_to, JStr [65]);
                                  (Lit.k_evidence, JObj [(Lit.k_quote, JStr [113])])]])])],
             [(Lit.k_from, JStr [65]); (Lit.k_to, JStr [65]);
              (Lit.k_evidence, JObj [(Lit.k_quote, JStr [113])])])]))
    by (vm_compute; reflexivity).
  assert (Hm : merge_characters Extract.str_of_json_sample JsonText.json_dumps_py rows = Some chars)
    by (vm_compute; reflexivity).
  split; [exact Hm|].
  exact (proj1 (proj2 (merge_characters_sound Extract.str_of_json_sample JsonText.json_dumps_py
                         _ _ _ Hc) chars Hm)).
Defined.

(** X14. A chunk whose model reply gave neither a dict by the strict
    parse nor a dict from the first '{' ... last '}' block is logged by
    extract.py with _safe_json's "_error" (or "_raw") dict as its
    extraction, and merge.py collects no entity and no relation from that
    line. *)
Theorem failed_extraction_adds_nothing (json_loads : str -> option json) (cid : str)
    (r : Extract.chunk_row) (text : str)
    (Hs : forall kvs, json_loads (strip text) <> Some (JObj kvs))
    (Hb : forall kvs, json_loads (py_slice (strip text) (SafeJson.py_find 123 (strip text))
            (SafeJson.py_rfind 125 (strip text) + 1)) <> Some (JObj kvs)) :
  collect [Extract.out_obj cid r (SafeJson._safe_json json_loads text)] = Some ([], []).
Proof.
  unfold SafeJson._safe_json. destruct (strip text) as [|c cs] eqn:Et; [reflexivity|].
  destruct (json_loads (c :: cs)) as [obj|] eqn:Hl.
  - destruct obj as [| | | | |kvs]; try reflexivity. by destruct (Hs kvs).
  - destruct (_ && _); [|reflexivity].
    destruct (json_loads (py_slice (c :: cs) (SafeJson.py_find 123 (c :: cs))
                (SafeJson.py_rfind 125 (c :: cs) + 1))) as [obj|] eqn:Hl2; [|reflexivity].
    destruct obj as [| | | | |kvs]; try reflexivity. by destruct (Hb kvs).
Qed.

(** X14: witness, with a model reply "a" that json.loads rejects. *)
Lemma failed_extraction_adds_nothing_witness :
  collect [Extract.out_obj (Chunker.fmt06 0) Extract.row_sample
             (SafeJson._safe_json (fun _ => None) [97])] = Some ([], []).
Proof.
  apply (failed_extraction_adds_nothing (fun _ => None) (Chunker.fmt06 0) Extract.row_sample [97]);
    intros kvs; discriminate.
Defined.

End MergeFacts.

(* ===================================================================== *)
(* Proofs: extract.py runs that stop and resume                            *)
(* ===================================================================== *)

Module PipelineFacts.
Import TextIO Extract Pipeline.

Lemma fmt06_nonempty (n : Z) : Chunker.fmt06 n <> [].
Proof.
  unfold Chunker.fmt06. destruct (Chunker.py_str_int n) as [|d ds]; simpl; [discriminate|].
  intros H. apply app_eq_nil in H as [_ H]. discriminate.
Qed.

Lemma chunker_main_ids (vol_finditer chap_finditer : str -> list Spans.re_match) (full_text : str)
    (vol L O max_chapters max_chunks : Z) :
  let chunks := Spans.chunker_main vol_finditer chap_finditer full_text vol L O max_chapters max_chunks in
  map Chunker.chunk_id chunks = map (fun i => Chunker.fmt06 (Z.of_nat i)) (seq 0 (length chunks)).
Proof.
  intros chunks. unfold chunks, Spans.chunker_main.
  destruct (Spans.select_volume vol_finditer full_text vol) as [vt tx].
  unfold Chunker.chunker_out.
  destruct (ChunkerFacts.emit_chapters_inv tx vol vt L O max_chunks 1
              (Chunker.apply_max_chapters max_chapters (Spans._find_chapter_spans chap_finditer tx)) [] 0)
    as [Hid _]; [done|done|constructor|constructor|exact Hid].
Qed.

Lemma elem_of_take_rows (rows : list chunk_row) (p : nat) (r : chunk_row) :
  r ∈ take p rows -> r ∈ rows.
Proof.
  intros Hr. rewrite <- (take_drop p rows). apply elem_of_app. by left.
Qed.

Lemma elem_of_drop_rows (rows : list chunk_row) (p : nat) (r : chunk_row) :
  r ∈ drop p rows -> r ∈ rows.
Proof.
  intros Hr. rewrite <- (take_drop p rows). apply elem_of_app. by right.
Qed.

(** X15. A run of extract.py from a log with complete lines stops because
    of an exception (respond_json raising after its retries, or a line
    that cannot be encoded): then it has handled the first p chunk rows
    and stopped at row p, which was not yet logged, and the file left
    holds only complete lines. Rerun over the same rows, it sends to the
    model exactly the rows after the first p whose ids were not logged
    before the first run, so no chunk is extracted twice; and when the
    rerun completes, the log lists the chunk ids already logged before the
    first run followed by the ids of the other rows in row order, which is
    what one complete run logs (C3). This assumes str() sends a JSON
    string to itself, the chunk ids of the rows are non-empty and
    distinct, and json.dumps and json.loads behave on the lines written
    as record_line_ok states. *)
Theorem resume_after_crash (py_str_json : json -> str) (json_loads : str -> option json)
    (json_dumps : json -> str) (llm1 llm2 : chunk_row -> option json) (rows : list chunk_row)
    (log0 : option (list Z)) (logc : list Z)
    (Hstr : forall s, py_str_json (JStr s) = s)
    (Hne : forall r, r ∈ rows -> py_str_json (cr_chunk_id r) <> [])
    (Hnd : NoDup (map (fun r => py_str_json (cr_chunk_id r)) rows))
    (Hline : forall r obj, r ∈ rows -> (llm1 r = Some obj \/ llm2 r = Some obj) ->
       record_line_ok json_loads json_dumps (py_str_json (cr_chunk_id r)) r obj)
    (Hterm : log_terminated log0 = true)
    (Hcrash : extract_main py_str_json json_loads json_dumps llm1 rows log0 = (Some logc, false)) :
  exists d0 p, _existing_chunk_ids py_str_json json_loads log0 = Some d0 /\
    (p < length rows)%nat /\
    logc = default [] log0 ++ (extract_loop py_str_json json_dumps llm1 d0 (take p rows)).1 /\
    (exists r, rows !! p = Some r /\ (py_str_json (cr_chunk_id r) ∉ d0) /\
       (llm1 r = None \/ exists obj, llm1 r = Some obj /\
          utf8_encode (json_dumps (out_obj (py_str_json (cr_chunk_id r)) r obj) ++ [10]) = None)) /\
    extract_main py_str_json json_loads json_dumps llm2 rows (Some logc) =
      (Some (logc ++ (extract_loop py_str_json json_dumps llm2 d0 (drop p rows)).1),
       (extract_loop py_str_json json_dumps llm2 d0 (drop p rows)).2) /\
    (forall log2, extract_main py_str_json json_loads json_dumps llm2 rows (Some logc) = (Some log2, true) ->
       _existing_chunk_ids py_str_json json_loads (Some log2) =
         Some (d0 ++ filter (fun c => c ∉ d0) (map (fun r => py_str_json (cr_chunk_id r)) rows))).
Proof.
  set (row_id := fun r => py_str_json (cr_chunk_id r)).
  destruct (ExtractFacts.terminated_decode py_str_json json_loads log0 Hterm) as (t0 & Hd0 & He0 & Hi0).
  set (d0 := ids_of_lines py_str_json json_loads (split_lines (translate_newlines t0))) in *.
  unfold extract_main in Hcrash. rewrite Hi0 in Hcrash.
  destruct (ExtractFacts.loop_shape py_str_json json_dumps llm1 d0 rows)
    as (p & Hp & Htake & _ & Hfail).
  remember (extract_loop py_str_json json_dumps llm1 d0 rows) as lr eqn:Hlr.
  destruct lr as [bs ok]. simpl in Htake, Hfail. injection Hcrash as Hlog ->.
  destruct (Hfail eq_refl) as [Hlt Hrow].
  assert (Hdef : default [] log0 = match log0 with Some b => b | None => [] end) by (by destruct log0).
  assert (Hlogc : logc = default [] log0 ++ (extract_loop py_str_json json_dumps llm1 d0 (take p rows)).1)
    by (rewrite Htake, Hdef; simpl; by rewrite Hlog).
  destruct (ExtractFacts.loop_file py_str_json json_loads json_dumps Hstr llm1 d0 (take p rows)
              (default [] log0) t0 bs
              (fun r obj Hr Ho => Hline r obj (elem_of_take_rows _ _ _ Hr) (or_introl Ho))
              (fun r Hr => Hne r (elem_of_take_rows _ _ _ Hr)) Hd0 He0 Htake)
    as (t1 & Ht1 & He1 & Hi1).
  rewrite Hdef, Hlog in Ht1.
  assert (Hsplit : rows = take p rows ++ drop p rows) by (symmetry; apply take_drop).
  set (dc := d0 ++ filter (fun c => c ∉ d0) (map row_id (take p rows))) in *.
  assert (Hdisj : forall r, r ∈ drop p rows -> row_id r ∉ map row_id (take p rows)).
  { intros r Hr Hin. rewrite Hsplit, map_app in Hnd. apply NoDup_app in Hnd as (_ & Hd & _).
    apply (Hd (row_id r)); [done|]. apply list_elem_of_In, in_map, list_elem_of_In. done. }
  assert (Hloop : extract_loop py_str_json json_dumps llm2 dc rows =
                  extract_loop py_str_json json_dumps llm2 d0 (drop p rows)).
  { rewrite Hsplit at 1. rewrite ExtractFacts.loop_skip.
    - apply ExtractFacts.loop_congr. intros r Hr. unfold dc. rewrite elem_of_app. split; [|by left].
      intros [H|H]; [done|]. apply list_elem_of_filter in H as [_ H]. by apply Hdisj in H.
    - intros r Hr. by apply ExtractFacts.row_in_ids. }
  assert (Hrerun : extract_main py_str_json json_loads json_dumps llm2 rows (Some logc) =
      (Some (logc ++ (extract_loop py_str_json json_dumps llm2 d0 (drop p rows)).1),
       (extract_loop py_str_json json_dumps llm2 d0 (drop p rows)).2)).
  { unfold extract_main. rewrite (ExtractFacts.existing_some py_str_json json_loads _ _ Ht1), Hi1.
    fold d0 row_id dc. rewrite Hloop. by destruct (extract_loop py_str_json json_dumps llm2 d0 (drop p rows)). }
  exists d0, p. split_and!; [done|done|done|done|done|].
  intros log2 H2. rewrite Hrerun in H2.
  remember (extract_loop py_str_json json_dumps llm2 d0 (drop p rows)) as lr2 eqn:Hlr2.
  destruct lr2 as [bs2 ok2]. simpl in H2. injection H2 as <- ->.
  destruct (ExtractFacts.loop_file py_str_json json_loads json_dumps Hstr llm2 d0 (drop p rows)
              logc t1 bs2
              (fun r obj Hr Ho => Hline r obj (elem_of_drop_rows _ _ _ Hr) (or_intror Ho))
              (fun r Hr => Hne r (elem_of_drop_rows _ _ _ Hr)) Ht1 He1 (eq_sym Hlr2))
    as (t2 & Ht2 & _ & Hi2).
  rewrite (ExtractFacts.existing_some py_str_json json_loads _ _ Ht2), Hi2, Hi1. f_equal.
  unfold dc. rewrite <- app_assoc. f_equal.
  rewrite <- filter_app, <- map_app. fold row_id. by rewrite <- Hsplit.
Qed.

(** X15: witness, on two chunk rows with no log file yet: the model call
    raises on the second row, then the rerun answers every row. *)
Lemma resume_after_crash_witness :
  let rows := [row_sample; row_sample1] in
  let logc := default [] (extract_main str_of_json_sample JsonText.json_loads_py JsonText.json_dumps_py
                            llm_first_only rows None).1 in
  exists d0 p, _existing_chunk_ids str_of_json_sample JsonText.json_loads_py None = Some d0 /\
    (p < length rows)%nat.
Proof.
  intros rows logc.
  assert (Hne : forall r, r ∈ rows -> str_of_json_sample (cr_chunk_id r) <> []).
  { intros r Hr. unfold rows in Hr. repeat (apply elem_of_cons in Hr as [->|Hr]; [vm_compute; discriminate|]).
    by apply elem_of_nil in Hr. }
  assert (Hnd : NoDup (map (fun r => str_of_json_sample (cr_chunk_id r)) rows))
    by (apply (bool_decide_unpack _); vm_compute; reflexivity).
  assert (Hline : forall r obj, r ∈ rows ->
            (llm_first_only r = Some obj \/ (fun _ => Some (JObj [])) r = Some obj) ->
            record_line_ok JsonText.json_loads_py JsonText.json_dumps_py
              (str_of_json_sample (cr_chunk_id r)) r obj).
  { intros r obj Hr Ho.
    assert (Hobj : obj = JObj []).
    { destruct Ho as [Ho|Ho]; [|by injection Ho as <-].
      unfold llm_first_only in Ho. case_decide; [by injection Ho as <-|discriminate]. }
    subst obj. unfold rows in Hr.
    repeat (apply elem_of_cons in Hr as [->|Hr];
      [split; [vm_compute; discriminate|];
       split; [apply (bool_decide_unpack _); vm_compute; reflexivity|];
       eexists; split; vm_compute; reflexivity|]).
    by apply elem_of_nil in Hr. }
  destruct (resume_after_crash str_of_json_sample JsonText.json_loads_py JsonText.json_dumps_py
              llm_first_only (fun _ => Some (JObj [])) rows None logc
              (fun s => eq_refl) Hne Hnd Hline eq_refl (ltac:(vm_compute; reflexivity)))
    as (d0 & p & H0 & Hp & _).
  exists d0, p. split; [exact H0|exact Hp].
Defined.

(** X16. The chunk rows chunker.py writes meet the id conditions of C3
    with nothing assumed of the text: for any run of chunker.py (any text
    and CLI values), reading its chunks.jsonl back, if json.dumps and
    json.loads behave on the lines written as record_line_ok states, the
    log on disk is absent or holds UTF-8 text that is empty or ends with a
    line break, and a first run of extract.py completes, then a second
    complete run over the same rows logs nothing new, and if the ids
    already in the log were distinct they stay distinct. *)
Theorem chunker_rows_resume (py_str_json : json -> str) (json_loads : str -> option json)
    (json_dumps : json -> str) (Hstr : forall s, py_str_json (JStr s) = s)
    (llm1 llm2 : chunk_row -> option json) (vol_finditer chap_finditer : str -> list Spans.re_match)
    (full_text : str) (vol L O max_chapters max_chunks : Z) (log0 : option (list Z)) (log1 : list Z) :
  let rows := map row_of_chunk
    (Spans.chunker_main vol_finditer chap_finditer full_text vol L O max_chapters max_chunks) in
  (forall r obj, r ∈ rows -> llm1 r = Some obj ->
     record_line_ok json_loads json_dumps (py_str_json (cr_chunk_id r)) r obj) ->
  log_terminated log0 = true ->
  extract_main py_str_json json_loads json_dumps llm1 rows log0 = (Some log1, true) ->
  extract_main py_str_json json_loads json_dumps llm2 rows (Some log1) = (Some log1, true) /\
  (forall d0, _existing_chunk_ids py_str_json json_loads log0 = Some d0 -> NoDup d0 ->
   exists d1, _existing_chunk_ids py_str_json json_loads (Some log1) = Some d1 /\ NoDup d1).
Proof.
  intros rows Hline Hterm Hrun.
  pose proof (chunker_main_ids vol_finditer chap_finditer full_text vol L O max_chapters max_chunks) as Hid.
  set (chunks := Spans.chunker_main vol_finditer chap_finditer full_text vol L O max_chapters max_chunks)
    in *.
  assert (Hmap : map (fun r => py_str_json (cr_chunk_id r)) rows = map Chunker.chunk_id chunks).
  { unfold rows. rewrite map_map. apply map_ext. intros c. simpl. apply Hstr. }
  assert (Hne : forall r, r ∈ rows -> py_str_json (cr_chunk_id r) <> []).
  { intros r Hr Hemp.
    assert (Hin : py_str_json (cr_chunk_id r) ∈ map (fun r => py_str_json (cr_chunk_id r)) rows)
      by (apply list_elem_of_In, (in_map (fun r => py_str_json (cr_chunk_id r))), list_elem_of_In; done).
    rewrite Hmap, Hid in Hin. apply list_elem_of_In, in_map_iff in Hin as (i & Hi & _).
    rewrite Hemp in Hi. by apply (fmt06_nonempty (Z.of_nat i)). }
  assert (Hdr : NoDup (map (fun r => py_str_json (cr_chunk_id r)) rows)).
  { rewrite Hmap, Hid. apply NoDup_ListNoDup, NoDup_map_NoDup_ForallPairs; [|apply seq_NoDup].
    intros a b _ _ E. apply ChunkerFacts.fmt06_inj in E; lia. }
  destruct (ExtractFacts.complete_run py_str_json json_loads json_dumps Hstr llm1 llm2 rows log0 log1
              Hne Hline Hterm Hrun) as (d0 & t1 & H0 & _ & _ & H1 & H2).
  split; [exact H2|]. intros d0' H0' Hd0. rewrite H0 in H0'. injection H0' as <-.
  eexists. split; [exact H1|]. by apply ExtractFacts.complete_run_nodup.
Qed.

(** X16: witness, on the file "ab" with no log file yet. *)
Lemma chunker_rows_resume_witness :
  let rows := map row_of_chunk (Spans.chunker_main (fun _ => []) (fun _ => []) [97; 98] 0 10 2 0 0) in
  let log1 := default [] (extract_main str_of_json_sample JsonText.json_loads_py JsonText.json_dumps_py
                            (fun _ => Some (JObj [])) rows None).1 in
  extract_main str_of_json_sample JsonText.json_loads_py JsonText.json_dumps_py
    (fun _ => Some JNull) rows (Some log1) = (Some log1, true).
Proof.
  intros rows log1.
  assert (Hline : forall r obj, r ∈ rows -> (fun _ => Some (JObj [])) r = Some obj ->
            record_line_ok JsonText.json_loads_py JsonText.json_dumps_py
              (str_of_json_sample (cr_chunk_id r)) r obj).
  { intros r obj Hr Ho. injection Ho as <-.
    assert (Hrows : rows = [nth 0 rows row_sample]).
    { vm_compute. reflexivity. }
    rewrite Hrows in Hr. apply list_elem_of_singleton in Hr. subst r.
    split; [vm_compute; discriminate|].
    split; [apply (bool_decide_unpack _); vm_compute; reflexivity|].
    eexists. split; vm_compute; reflexivity. }
  exact (proj1 (chunker_rows_resume str_of_json_sample JsonText.json_loads_py JsonText.json_dumps_py
                  (fun s => eq_refl) (fun _ => Some (JObj [])) (fun _ => Some JNull)
                  (fun _ => []) (fun _ => []) [97; 98] 0 10 2 0 0 None log1
                  Hline eq_refl (ltac:(vm_compute; reflexivity)))).
Defined.

End PipelineFacts.
